(** * gym-locm environment adapters: draft and battle environments

    A shallow embedding of [gym_locm/envs/battle.py] and
    [gym_locm/envs/draft.py], and of the reward bookkeeping of [evaluate]
    in [gym_locm/util/experiment.py].  The rules engine ([gym_locm.engine]), the
    scripted agents ([gym_locm.agents]) and the base class [LOCMEnv]
    ([gym_locm.envs.base_env]) are collaborators that the two modules only
    call; they appear here as interfaces (type classes) whose members keep
    the Python names.  Array cells and rewards are rationals: the rounding
    of floats is not modelled.  Loops that the engine alone can end take a
    bound on their number of rounds, and [Diverge] is the answer of a run
    that needs more. *)

From Stdlib Require Import ZArith QArith Bool String Lia.
From stdpp Require Import base tactics option list sorting.

Local Open Scope Z_scope.

(* ===================================================================== *)
(** ** Python and numpy primitives used by the two modules *)
(* ===================================================================== *)

(** Exceptions that can leave [step] and [reset]. *)
Inductive Exn : Type :=
  | GameIsEndedError
  | MalformedActionError
  | ValueError
  | TypeError
  | OverflowError
  | IndexError
  | AttributeError.

Definition Exn_eqb (a b : Exn) : bool :=
  match a, b with
  | GameIsEndedError, GameIsEndedError
  | MalformedActionError, MalformedActionError
  | ValueError, ValueError
  | TypeError, TypeError
  | OverflowError, OverflowError
  | IndexError, IndexError
  | AttributeError, AttributeError => true
  | _, _ => false
  end.

(** A computation that may raise: [inl e] is [raise e]. *)
Definition Exc (A : Type) : Type := Exn + A.

Definition exc_bind {A B} (m : Exc A) (f : A -> Exc B) : Exc B :=
  match m with
  | inl e => inl e
  | inr a => f a
  end.

Definition exc_map {A B} (f : A -> B) (m : Exc A) : Exc B :=
  exc_bind m (fun a => inr (f a)).

Declare Scope exc_scope.
Delimit Scope exc_scope with exc.
Notation "'try!' x ':=' m 'in' k" := (exc_bind m (fun x => k))
  (at level 10, x pattern, m at level 100, k at level 200) : exc_scope.

(** [range(n)] for an integer [n]: empty when [n <= 0]. *)
Definition py_range (n : Z) : list Z := Z.of_nat <$> seq 0 (Z.to_nat n).

(** [l[i]] on a Python list or a one-dimensional array: negative indices
    count from the end, anything outside [-len, len) raises [IndexError]. *)
Definition py_pos (len : nat) (i : Z) : option nat :=
  if (0 <=? i) && (i <? Z.of_nat len) then Some (Z.to_nat i)
  else if (- Z.of_nat len <=? i) && (i <? 0) then Some (Z.to_nat (i + Z.of_nat len))
  else None.

Definition py_index {A} (l : list A) (i : Z) : Exc A :=
  match py_pos (length l) i with
  | Some p => match l !! p with Some x => inr x | None => inl IndexError end
  | None => inl IndexError
  end.

(** Bound of a slice [a[lo:hi]]: [None] is an omitted bound, a negative
    bound counts from the end, and the result is clipped to [0, len]. *)
Definition py_bound (len : nat) (dflt : nat) (b : option Z) : nat :=
  match b with
  | None => dflt
  | Some i =>
      if i <? 0 then Z.to_nat (Z.max 0 (i + Z.of_nat len))
      else Z.to_nat (Z.min i (Z.of_nat len))
  end.

(** [a[lo:hi] = v] on a one-dimensional numpy array: [v] must have the
    width of the slice, or a single element that is broadcast; any other
    shape raises [ValueError]. *)
Definition np_assign_slice (a : list Q) (lo hi : option Z) (v : list Q)
  : Exc (list Q) :=
  let start := py_bound (length a) 0%nat lo in
  let stop := py_bound (length a) (length a) hi in
  let width := (stop - start)%nat in
  if (length v =? width)%nat then
    inr (take start a ++ v ++ drop (start + width) a)
  else
    match v with
    | [x] => inr (take start a ++ replicate width x ++ drop (start + width) a)
    | _ => inl ValueError
    end.

(** [a[i] += 1] on a one-dimensional numpy array. *)
Definition np_incr (a : list Q) (i : Z) : Exc (list Q) :=
  match py_pos (length a) i with
  | Some p => inr (alter (fun x => (x + 1)%Q) p a)
  | None => inl IndexError
  end.

(** [np.full(n, 0, dtype=np.float32)]. *)
Definition np_zeros (n : Z) : list Q := replicate (Z.to_nat n) 0%Q.

(** [sorted(l, key=...)]: a stable sort, smallest key first. *)
Fixpoint insert_by {A} (key : A -> Z) (x : A) (l : list A) : list A :=
  match l with
  | [] => [x]
  | y :: l' => if key x <=? key y then x :: y :: l' else y :: insert_by key x l'
  end.

Definition sorted {A} (key : A -> Z) (l : list A) : list A :=
  foldr (insert_by key) [] l.

(** [l[lo:hi]] on a Python list. *)
Definition py_slice {A} (l : list A) (lo hi : option Z) : list A :=
  let start := py_bound (length l) 0%nat lo in
  let stop := py_bound (length l) (length l) hi in
  take (stop - start) (drop start l).

(** A [for] loop whose body may raise. *)
Definition exc_foldl {A B} (f : B -> A -> Exc B) (b : B) (l : list A) : Exc B :=
  foldl (fun acc a => exc_bind acc (fun b => f b a)) (inr b) l.

Fixpoint exc_mapM {A B} (f : A -> Exc B) (l : list A) : Exc (list B) :=
  match l with
  | [] => inr []
  | a :: l' => exc_bind (f a) (fun b => exc_map (cons b) (exc_mapM f l'))
  end.

(** [sorted(l, key=...)] with a key that may raise: the keys are computed
    first, one per element and in order. *)
Definition sorted_exc {A} (key : A -> Exc Z) (l : list A) : Exc (list A) :=
  exc_map (fun keyed => snd <$> sorted fst keyed)
          (exc_mapM (fun x => exc_map (fun kx => (kx, x)) (key x)) l).

(** [enumerate(l)] *)
Definition enumerate {A} (l : list A) : list (Z * A) :=
  zip (py_range (Z.of_nat (length l))) l.

(** A float that is a number or [nan]; [np.mean] of an empty list is
    [nan].  Rounding is not modelled: the numbers are rationals. *)
Inductive Num : Type := Fin (q : Q) | NaN.

Definition Num_add (a b : Num) : Num :=
  match a, b with
  | Fin x, Fin y => Fin (x + y)
  | _, _ => NaN
  end.

Definition Num_neg (a : Num) : Num :=
  match a with
  | Fin x => Fin (- x)
  | NaN => NaN
  end.

Definition sum_Z (l : list Z) : Z := foldr Z.add 0 l.

(** [np.mean(l)] for a list of integers. *)
Definition np_mean (l : list Z) : Num :=
  match l with
  | [] => NaN
  | _ => Fin (sum_Z l # Pos.of_nat (length l))
  end.

(* ===================================================================== *)
(** ** The slot packer: [fill_cards] (battle.py, inside
       [_encode_state_battle]) *)
(* ===================================================================== *)

Definition fill_cards (card_list : list (list Q)) (up_to : Z) (features : Z)
  : list (list Q) :=
  let remaining_cards := up_to - Z.of_nat (length card_list) in
  card_list ++ ((fun _ => replicate (Z.to_nat features) 0%Q) <$> py_range remaining_cards).


(* ===================================================================== *)
(** ** Collaborators: rules engine, agents, base class *)
(* ===================================================================== *)

Inductive PlayerOrder : Type := FIRST | SECOND.
Inductive Phase : Type := DRAFT | BATTLE | ENDED.

Definition PlayerOrder_eqb (a b : PlayerOrder) : bool :=
  match a, b with
  | FIRST, FIRST | SECOND, SECOND => true
  | _, _ => false
  end.

Definition Phase_eqb (a b : Phase) : bool :=
  match a, b with
  | DRAFT, DRAFT | BATTLE, BATTLE | ENDED, ENDED => true
  | _, _ => false
  end.

(** The engine's state object.  The adapters assign one of its attributes,
    [was_last_action_invalid], themselves; every other attribute is only
    read, and is kept together in [game]. *)
Record State (G : Type) : Type := mkState {
  game : G;
  was_last_action_invalid : bool
}.
Arguments mkState {G} _ _.
Arguments game {G} _.
Arguments was_last_action_invalid {G} _.

(** The contract of [gym_locm.engine] that the adapters consume. *)
Class Engine : Type := {
  Card : Type;
  Player : Type;
  Action : Type;
  Game : Type;
  (** [card.id], [card.cost] *)
  card_id : Card -> Z;
  cost : Card -> Z;
  (** [action.origin]; [None] is Python's [None] *)
  origin : Action -> option Z;
  (** [player.id], [player.hand], [(player.lanes[0], player.lanes[1])] *)
  player_id : Player -> PlayerOrder;
  hand : Player -> list Card;
  lanes : Player -> list Card * list Card;
  (** attributes of the state object *)
  game_phase : Game -> Phase;
  game_turn : Game -> Z;
  game_winner : Game -> option PlayerOrder;
  game_current_player : Game -> Player;
  game_opposing_player : Game -> Player;
  game_action_mask : Game -> list bool;
  (** [state.act(action)] *)
  act : State Game -> Action -> State Game
}.

Section EngineAccessors.
Context `{Engine}.

Definition phase (s : State Game) : Phase := game_phase (game s).
Definition turn (s : State Game) : Z := game_turn (game s).
Definition winner (s : State Game) : option PlayerOrder := game_winner (game s).
Definition current_player (s : State Game) : Player := game_current_player (game s).
Definition opposing_player (s : State Game) : Player := game_opposing_player (game s).
Definition action_mask (s : State Game) : list bool := game_action_mask (game s).

(** [state.was_last_action_invalid = b] *)
Definition set_was_last_action_invalid (s : State Game) (b : bool) : State Game :=
  mkState (game s) b.

(** [state.clone()]: states are values here, so the copy is the state
    itself and nothing done to the copy reaches the original. *)
Definition clone (s : State Game) : State Game := s.
End EngineAccessors.

(** Scripted agents ([gym_locm.agents]): objects with an internal state
    that [reset], [seed] and [act] may change. *)
Class Agents `{Engine} : Type := {
  Agent : Type;
  agent_reset : Agent -> Agent;
  agent_seed : option Z -> Agent -> Agent;
  agent_act : Agent -> State Game -> Action * Agent
}.

(** What can be passed to [step] as its [action] argument. *)
Inductive PyVal (A : Type) : Type :=
  | PyAction (a : A)
  | PyInt (z : Z)
  | PyBool (b : bool)
  | PyFloat (q : Q)
  | PyNaN
  | PyInf
  | PyStr (s : string)
  | PyNone
  | PyList (l : list Z).
Arguments PyAction {A} _.
Arguments PyInt {A} _.
Arguments PyBool {A} _.
Arguments PyFloat {A} _.
Arguments PyNaN {A}.
Arguments PyInf {A}.
Arguments PyStr {A} _.
Arguments PyNone {A}.
Arguments PyList {A} _.

(** The observation handed back to the caller: an array, or [None] when the
    assembler of the phase is the empty method ([pass]). *)
Definition Obs : Type := option (list Q).

Inductive Assembler : Type := DraftAssembler | BattleAssembler.

(** Members of [LOCMEnv] (base_env.py) and of the Python runtime that the
    two modules call. *)
Class BaseEnv `{Engine} : Type := {
  (** [int(s)] on a string: [None] when it raises [ValueError] *)
  int_of_str : string -> option Z;
  encode_card : Card -> list Q;
  encode_friendly_card_on_board : Card -> list Q;
  encode_enemy_card_on_board : Card -> list Q;
  encode_players : Player -> Player -> list Q;
  (** [self.decode_action(code)]; it reads [self.state] and [self.items] *)
  decode_action : State Game -> bool -> Z -> Exc (option Action);
  _draft_is_finished : State Game -> bool;
  _battle_is_finished : State Game -> bool;
  (** [encode_state] picks the assembler by the phase *)
  assembler_of : Phase -> option Assembler;
  (** [LOCMEnv.reset]: from [_seed], the old state and [items], [k], [n] to
      the new [_seed] and the fresh state *)
  base_reset : option Z -> State Game -> bool -> Z -> Z -> option Z * State Game
}.

(** [int(x)]. *)
Definition py_int `{BaseEnv} (x : PyVal Action) : Exc Z :=
  match x with
  | PyInt z => inr z
  | PyBool b => inr (if b then 1 else 0)
  | PyFloat q => inr (Z.quot (Qnum q) (Zpos (Qden q)))
  | PyNaN => inl ValueError
  | PyInf => inl OverflowError
  | PyStr s => match int_of_str s with Some z => inr z | None => inl ValueError end
  | PyNone | PyList _ | PyAction _ => inl TypeError
  end.

(** The opening of both [step] methods:
<<
    if not isinstance(action, Action):
        try: action = int(action)
        except ValueError: raise MalformedActionError(error)
        action = self.decode_action(action)
>> *)
Definition action_of_input `{BaseEnv} (st : State Game) (items : bool)
    (action : PyVal Action) : Exc (option Action) :=
  match action with
  | PyAction a => inr (Some a)
  | _ =>
      match py_int action with
      | inl ValueError => inl MalformedActionError
      | inl e => inl e
      | inr code => decode_action st items code
      end
  end.

(** Result of a method run on an environment [E]: a value and the
    environment after the call, an exception and the environment as the
    raise left it, or no result within the given number of loop rounds. *)
Inductive Outcome (E A : Type) : Type :=
  | Ok (a : A) (e : E)
  | Raise (x : Exn) (e : E)
  | Diverge.
Arguments Ok {E A} _ _.
Arguments Raise {E A} _ _.
Arguments Diverge {E A}.

Definition M (E A : Type) : Type := E -> Outcome E A.

Definition ret {E A} (a : A) : M E A := fun e => Ok a e.

Definition bind {E A B} (m : M E A) (f : A -> M E B) : M E B :=
  fun e =>
    match m e with
    | Ok a e' => f a e'
    | Raise x e' => Raise x e'
    | Diverge => Diverge
    end.

Definition raise {E A} (x : Exn) : M E A := fun e => Raise x e.

Definition lift_exc {E A} (m : Exc A) : M E A :=
  fun e => match m with inl x => Raise x e | inr a => Ok a e end.

Definition get {E} : M E E := fun e => Ok e e.
Definition put {E} (e' : E) : M E unit := fun _ => Ok tt e'.
Definition modify {E} (f : E -> E) : M E unit := fun e => Ok tt (f e).

(** Runs a method of the parent class on the parent part of [E]. *)
Definition super {E P A} (proj : E -> P) (inj : P -> E -> E) (m : M P A) : M E A :=
  fun e =>
    match m (proj e) with
    | Ok a p => Ok a (inj p e)
    | Raise x p => Raise x (inj p e)
    | Diverge => Diverge
    end.

(** The value and the environment of a run that returned. *)
Definition outcome_value {E A} (d : A) (o : Outcome E A) : A :=
  match o with Ok a _ => a | _ => d end.

Definition outcome_env {E A} (d : E) (o : Outcome E A) : E :=
  match o with Ok _ e | Raise _ e => e | Diverge => d end.

Declare Scope env_scope.
Delimit Scope env_scope with env.
Notation "x <- m ;; k" := (bind m (fun x => k))
  (at level 100, m at next level, right associativity) : env_scope.
Notation "m ;;; k" := (bind m (fun _ => k))
  (at level 100, k at level 200, right associativity) : env_scope.

Local Open Scope env_scope.

(** What [step] returns: [(observation, reward, done, info)]. *)
Record StepResult (R I : Type) : Type := mkStep {
  obs : Obs;
  reward : R;
  done : bool;
  info : I
}.
Arguments mkStep {R I} _ _ _ _.
Arguments obs {R I} _.
Arguments reward {R I} _.
Arguments done {R I} _.
Arguments info {R I} _.

(** [[feature for card in cards for feature in card]] *)
Definition features_of (cards : list (list Q)) : list Q := concat cards.

(** [l[-1] += x] on a Python list. *)
Definition add_to_last {A} (add : A -> A) (l : list A) : Exc (list A) :=
  match l with
  | [] => inl IndexError
  | _ => inr (alter add (length l - 1)%nat l)
  end.

(** One entry of the record kept of the parent-class [step] calls that one
    scheduler call makes for the opponent: the argument, whether it was the
    forced move [step(0)], and the [invalid] and [done] values the call
    returned.  The record is not data of the program; it is what the
    scheduler theorems speak about. *)
Record Call (A : Type) : Type := mkCall {
  call_input : PyVal A;
  call_forced : bool;
  call_invalid : bool;
  call_done : bool
}.
Arguments mkCall {A} _ _ _ _.
Arguments call_input {A} _.
Arguments call_forced {A} _.
Arguments call_invalid {A} _.
Arguments call_done {A} _.

(** The discipline of the opponent loop, read off a record of calls: no
    opponent move is a forced one, and an opponent move that comes back
    invalid with the game still on is followed by the forced move and by
    nothing else. *)
Fixpoint well_scheduled {A} (calls : list (Call A)) : bool :=
  match calls with
  | [] => true
  | c :: rest =>
      negb (call_forced c)
      && (if call_invalid c && negb (call_done c)
          then match rest with [f] => call_forced f | _ => false end
          else well_scheduled rest)
  end.

(** The reward before the learner's sign is applied: zero until a winner
    is decided, then [+1] if the first player won and [-1] otherwise. *)
Definition raw_reward (winner : option PlayerOrder) : Z :=
  match winner with
  | None => 0
  | Some FIRST => 1
  | Some SECOND => -1
  end.

(* ===================================================================== *)
(** ** battle.py *)
(* ===================================================================== *)

Module Battle.
Section Battle.
Context `{Eng : Engine} `{Ag : !Agents} `{Base : !BaseEnv}.

(** Attributes of a [LOCMBattleEnv] instance.  [rewards] holds floats
    whose values are whole numbers. *)
Record Env : Type := mkEnv {
  state : State Game;
  rewards : list Z;
  draft_agents : list Agent;
  return_action_mask : bool;
  items : bool;
  k : Z;
  n : Z;
  _seed : option Z
}.

Definition set_state (st : State Game) (env : Env) : Env :=
  mkEnv st (rewards env) (draft_agents env) (return_action_mask env)
        (items env) (k env) (n env) (_seed env).
Definition set_rewards (r : list Z) (env : Env) : Env :=
  mkEnv (state env) r (draft_agents env) (return_action_mask env)
        (items env) (k env) (n env) (_seed env).
Definition set_draft_agents (a : list Agent) (env : Env) : Env :=
  mkEnv (state env) (rewards env) a (return_action_mask env)
        (items env) (k env) (n env) (_seed env).
Definition set_seed (sd : option Z) (env : Env) : Env :=
  mkEnv (state env) (rewards env) (draft_agents env) (return_action_mask env)
        (items env) (k env) (n env) sd.

Record Info : Type := mkInfo {
  info_phase : Phase;
  info_turn : Z;
  info_winner : option PlayerOrder;
  info_invalid : bool;
  info_action_mask : option (list bool)
}.

Definition set_invalid (b : bool) (i : Info) : Info :=
  mkInfo (info_phase i) (info_turn i) (info_winner i) b (info_action_mask i).

Definition Result : Type := StepResult Z Info.

(** [self.state_shape], computed in [__init__]. *)
Definition state_shape (items : bool) : Z :=
  let player_features := 4 in
  let cards_in_hand := 8 in
  let card_features := if items then 16 else 12 in
  let friendly_cards_on_board := 6 in
  let friendly_board_card_features := 9 in
  let enemy_cards_on_board := 6 in
  let enemy_board_card_features := 8 in
  player_features * 2
  + cards_in_hand * card_features
  + friendly_cards_on_board * friendly_board_card_features
  + enemy_cards_on_board * enemy_board_card_features.

(** The hand block of [_encode_state_battle]. *)
Definition hand_block (items : bool) (p0 : Player) : list (list Q) :=
  let hand := encode_card <$> hand p0 in
  let hand := if negb items then drop 4 <$> hand else hand in
  fill_cards hand 8 (if items then 16 else 12).

(** One round of the loops over the lanes. *)
Definition lane_block (enc : Card -> list Q) (features : Z)
    (location : list Card) : list (list Q) :=
  let location := enc <$> location in
  fill_cards location 3 features.

Definition all_cards (items : bool) (p0 p1 : Player) : list Q :=
  let all_cards := [] in
  let all_cards := all_cards ++ features_of (hand_block items p0) in
  let all_cards :=
    foldl (fun acc location =>
             acc ++ features_of (lane_block encode_friendly_card_on_board 9 location))
          all_cards [fst (lanes p0); snd (lanes p0)] in
  let all_cards :=
    foldl (fun acc location =>
             acc ++ features_of (lane_block encode_enemy_card_on_board 8 location))
          all_cards [fst (lanes p1); snd (lanes p1)] in
  all_cards.

Definition _encode_state_battle (env : Env) : Exc (list Q) :=
  let encoded_state := np_zeros (state_shape (items env)) in
  let p0 := current_player (state env) in
  let p1 := opposing_player (state env) in
  let all_cards := all_cards (items env) p0 p1 in
  (try! encoded_state :=
     np_assign_slice encoded_state None (Some 8) (encode_players p0 p1) in
   np_assign_slice encoded_state (Some 8) None all_cards)%exc.

(** [_encode_state_draft] of the battle environment is [pass]. *)
Definition _encode_state_draft (env : Env) : Exc Obs := inr None.

(** [LOCMEnv.encode_state], as far as the two modules rely on it. *)
Definition encode_state : M Env Obs := fun env =>
  match assembler_of (phase (state env)) with
  | Some DraftAssembler => lift_exc (_encode_state_draft env) env
  | Some BattleAssembler => lift_exc (exc_map Some (_encode_state_battle env)) env
  | None => Ok None env
  end.

(** [LOCMBattleEnv.step] *)
Definition step (action : PyVal Action) : M Env Result := fun env =>
  if _battle_is_finished (state env) then Raise GameIsEndedError env
  else
    match action_of_input (state env) (items env) action with
    | inl e => Raise e env
    | inr action =>
        let state :=
          match action with
          | Some a => act (state env) a
          | None => set_was_last_action_invalid (state env) true
          end in
        let env := set_state state env in
        let winner := winner state in
        let reward := 0 in
        let done := bool_decide (winner <> None) in
        let info := mkInfo (phase state) (turn state) winner
                           (was_last_action_invalid state)
                           (if return_action_mask env
                            then Some (action_mask state) else None) in
        let settled : Exc (Z * list Z) :=
          match winner with
          | Some w =>
              let reward := if PlayerOrder_eqb w FIRST then 1 else -1 in
              exc_map (fun rs => (reward, rs))
                      (add_to_last (fun r => r + reward) (rewards env))
          | None => inr (reward, rewards env)
          end in
        match settled with
        | inl e => Raise e env
        | inr (reward, rs) =>
            (o <- encode_state ;; ret (mkStep o reward done info))
              (set_rewards rs env)
        end
    end.

(** The engine's guarantees that the battle assembler relies on: at most
    8 cards in hand and 3 per lane, and encoders of the declared widths
    (16 per hand card, 9 and 8 per board card, 8 for the two players). *)
Definition widths (enc : Card -> list Q) (w : nat) (cards : list Card) : bool :=
  forallb (fun c => Nat.eqb (length (enc c)) w) cards.

Definition well_formed (st : State Game) : bool :=
  let p0 := current_player st in
  let p1 := opposing_player st in
  Nat.eqb (length (encode_players p0 p1)) 8
  && Nat.leb (length (hand p0)) 8 && widths encode_card 16 (hand p0)
  && forallb (fun lane => Nat.leb (length lane) 3
                          && widths encode_friendly_card_on_board 9 lane)
             [fst (lanes p0); snd (lanes p0)]
  && forallb (fun lane => Nat.leb (length lane) 3
                          && widths encode_enemy_card_on_board 8 lane)
             [fst (lanes p1); snd (lanes p1)].

(** The blocks that [_encode_state_battle] writes, in their order. *)
Definition layout (items : bool) (st : State Game) : list Q :=
  let p0 := current_player st in
  let p1 := opposing_player st in
  encode_players p0 p1
  ++ features_of (hand_block items p0)
  ++ features_of (lane_block encode_friendly_card_on_board 9 (fst (lanes p0)))
  ++ features_of (lane_block encode_friendly_card_on_board 9 (snd (lanes p0)))
  ++ features_of (lane_block encode_enemy_card_on_board 8 (fst (lanes p1)))
  ++ features_of (lane_block encode_enemy_card_on_board 8 (snd (lanes p1))).

(** The loop of [__init__] and [reset] that plays through the draft:
<<
    while self.state.phase == Phase.DRAFT:
        for agent in self.draft_agents:
            self.state.act(agent.act(self.state))
>> *)
Definition draft_round (st : State Game) (agents : list Agent)
  : State Game * list Agent :=
  foldl (fun '(st, acted) agent =>
           let '(action, agent) := agent_act agent st in
           (act st action, acted ++ [agent]))
        (st, []) agents.

Fixpoint play_through_draft (fuel : nat) : M Env unit := fun env =>
  match fuel with
  | O => Diverge
  | S fuel =>
      if Phase_eqb (phase (state env)) DRAFT then
        let '(st, agents) := draft_round (state env) (draft_agents env) in
        play_through_draft fuel (set_draft_agents agents (set_state st env))
      else Ok tt env
  end.

(** [LOCMBattleEnv.reset] *)
Definition reset (fuel : nat) : M Env Obs :=
  modify (fun env =>
            let '(sd, st) := base_reset (_seed env) (state env)
                                        (items env) (k env) (n env) in
            set_seed sd (set_state st env)) ;;;
  modify (fun env =>
            set_draft_agents
              ((fun agent => agent_seed (_seed env) (agent_reset agent))
                 <$> draft_agents env) env) ;;;
  play_through_draft fuel ;;;
  modify (fun env => set_rewards (rewards env ++ [0]) env) ;;;
  encode_state.
End Battle.
End Battle.

(** *** [LOCMBattleSingleEnv] *)
Module BattleSingle.
Section BattleSingle.
Context `{Eng : Engine} `{Ag : !Agents} `{Base : !BaseEnv}.

Record Env : Type := mkEnv {
  parent : Battle.Env;
  battle_agent : Agent;
  play_first : bool
}.

Definition set_parent (p : Battle.Env) (env : Env) : Env :=
  mkEnv p (battle_agent env) (play_first env).
Definition set_battle_agent (a : Agent) (env : Env) : Env :=
  mkEnv (parent env) a (play_first env).

Definition state (env : Env) : State Game := Battle.state (parent env).

Definition super_step (action : PyVal Action) : M Env Battle.Result :=
  super parent set_parent (Battle.step action).

(** [action = self.battle_agent.act(self.state)] *)
Definition ask_agent : M Env Action := fun env =>
  let '(action, agent) := agent_act (battle_agent env) (state env) in
  Ok action (set_battle_agent agent env).

(** The loop of [reset] for a learner that plays second:
<<
    while self.state.current_player.id != PlayerOrder.SECOND:
        super().step(self.battle_agent.act(self.state))
>> *)
Fixpoint opening (fuel : nat) : M Env unit := fun env =>
  match fuel with
  | O => Diverge
  | S fuel =>
      if negb (PlayerOrder_eqb (player_id (current_player (state env))) SECOND)
      then (action <- ask_agent ;;
            super_step (PyAction action) ;;;
            opening fuel) env
      else Ok tt env
  end.

(** [LOCMBattleSingleEnv.reset] *)
Definition reset (fuel : nat) : M Env Obs :=
  encoded_state <- super parent set_parent (Battle.reset fuel) ;;
  modify (fun env => set_battle_agent (agent_reset (battle_agent env)) env) ;;;
  env <- get ;;
  (if negb (play_first env) then opening fuel else ret tt) ;;;
  ret encoded_state.

(** The opponent loop of [step]; [last] is the value of
    [(state, reward, done, info)] when the loop test is evaluated.
<<
    while self.state.current_player.id != player and self.state.winner is None:
        action = self.battle_agent.act(self.state)
        state, reward, done, info = super().step(action)
        if info["invalid"] and not done:
            state, reward, done, info = super().step(0)
            break
>>
    Next to the last result, the loop returns the record of the
    [super().step] calls it made. *)
Fixpoint opponent_loop (fuel : nat) (player : PlayerOrder)
    (last : Battle.Result) : M Env (Battle.Result * list (Call Action)) := fun env =>
  match fuel with
  | O => Diverge
  | S fuel =>
      if negb (PlayerOrder_eqb (player_id (current_player (state env))) player)
         && bool_decide (winner (state env) = None)
      then
        (action <- ask_agent ;;
         r <- super_step (PyAction action) ;;
         let c := mkCall (PyAction action) false (Battle.info_invalid (info r)) (done r) in
         if Battle.info_invalid (info r) && negb (done r) then
           r <- super_step (PyInt 0) ;;
           ret (r, [c; mkCall (PyInt 0) true (Battle.info_invalid (info r)) (done r)])
         else
           rs <- opponent_loop fuel player r ;;
           ret (fst rs, c :: snd rs)) env
      else Ok (last, []) env
  end.

(** [LOCMBattleSingleEnv.step], together with the record of the opponent
    loop. *)
Definition step_calls (fuel : nat) (action : PyVal Action)
  : M Env (Battle.Result * list (Call Action)) :=
  env <- get ;;
  let player := player_id (current_player (state env)) in
  r <- super_step action ;;
  let was_invalid := Battle.info_invalid (info r) in
  rs <- opponent_loop fuel player r ;;
  let r := fst rs in
  let info := Battle.set_invalid was_invalid (info r) in
  env <- get ;;
  let reward := if negb (play_first env) then - reward r else reward r in
  ret (mkStep (obs r) reward (done r) info, snd rs).

(** [LOCMBattleSingleEnv.step] *)
Definition step (fuel : nat) (action : PyVal Action) : M Env Battle.Result :=
  rs <- step_calls fuel action ;; ret (fst rs).
End BattleSingle.
End BattleSingle.

(** *** [LOCMBattleSelfPlayEnv] *)
Module BattleSelfPlay.
Section BattleSelfPlay.
Context `{Eng : Engine} `{Ag : !Agents} `{Base : !BaseEnv}.

(** [adversary_policy] is [None] by default; a policy maps an
    observation to what is then passed to [step]. *)
Record Env : Type := mkEnv {
  parent : Battle.Env;
  play_first : bool;
  adversary_policy : option (Obs -> PyVal Action)
}.

Definition set_parent (p : Battle.Env) (env : Env) : Env :=
  mkEnv p (play_first env) (adversary_policy env).
Definition set_play_first (b : bool) (env : Env) : Env :=
  mkEnv (parent env) b (adversary_policy env).

Definition state (env : Env) : State Game := Battle.state (parent env).

(** [LOCMBattleSelfPlayEnv.__init__], once the parent initialiser has
    built the parent part. *)
Definition __init__ (parent : Battle.Env) (play_first : bool)
    (adversary_policy : option (Obs -> PyVal Action)) : Env :=
  mkEnv parent play_first adversary_policy.

Definition super_step (action : PyVal Action) : M Env Battle.Result :=
  super parent set_parent (Battle.step action).

(** [state = self.encode_state(); action = self.adversary_policy(state)] *)
Definition ask_policy : M Env (PyVal Action) :=
  state <- super parent set_parent Battle.encode_state ;;
  env <- get ;;
  match adversary_policy env with
  | Some policy => ret (policy state)
  | None => raise TypeError
  end.

(** One round of either loop, after its test:
<<
    state = self.encode_state()
    action = self.adversary_policy(state)
    state, reward, done, info = super().step(action)
    if info["invalid"] and not done:
        state, reward, done, info = super().step(0)
        break
>>
    The boolean tells whether [break] was reached. *)
Definition adversary_round : M Env (Battle.Result * list (Call Action) * bool) :=
  action <- ask_policy ;;
  r <- super_step action ;;
  let c := mkCall action false (Battle.info_invalid (info r)) (done r) in
  if Battle.info_invalid (info r) && negb (done r) then
    r <- super_step (PyInt 0) ;;
    ret (r, [c; mkCall (PyInt 0) true (Battle.info_invalid (info r)) (done r)], true)
  else ret (r, [c], false).

(** The loop of [reset]:
    [while self.state.current_player.id != PlayerOrder.SECOND: ...] *)
Fixpoint opening (fuel : nat) : M Env (list (Call Action)) := fun env =>
  match fuel with
  | O => Diverge
  | S fuel =>
      if negb (PlayerOrder_eqb (player_id (current_player (state env))) SECOND)
      then (rb <- adversary_round ;;
            if snd rb then ret (snd (fst rb))
            else (cs <- opening fuel ;; ret (snd (fst rb) ++ cs))) env
      else Ok [] env
  end.

(** [LOCMBattleSelfPlayEnv.reset], together with the record of the
    [super().step] calls of its loop. *)
Definition reset_calls (fuel : nat) : M Env (Obs * list (Call Action)) :=
  encoded_state <- super parent set_parent (Battle.reset fuel) ;;
  modify (fun env => set_play_first (negb (play_first env)) env) ;;;
  env <- get ;;
  cs <- (if negb (play_first env) then opening fuel else ret []) ;;
  ret (encoded_state, cs).

(** [LOCMBattleSelfPlayEnv.reset] *)
Definition reset (fuel : nat) : M Env Obs :=
  r <- reset_calls fuel ;; ret (fst r).

(** The opponent loop of [step]:
    [while self.state.current_player.id != player and self.state.winner is None: ...] *)
Fixpoint opponent_loop (fuel : nat) (player : PlayerOrder)
    (last : Battle.Result) : M Env (Battle.Result * list (Call Action)) := fun env =>
  match fuel with
  | O => Diverge
  | S fuel =>
      if negb (PlayerOrder_eqb (player_id (current_player (state env))) player)
         && bool_decide (winner (state env) = None)
      then (rb <- adversary_round ;;
            if snd rb then ret (fst rb)
            else (rs <- opponent_loop fuel player (fst (fst rb)) ;;
                  ret (fst rs, snd (fst rb) ++ snd rs))) env
      else Ok (last, []) env
  end.

(** [LOCMBattleSelfPlayEnv.step], together with the record of the
    opponent loop. *)
Definition step_calls (fuel : nat) (action : PyVal Action)
  : M Env (Battle.Result * list (Call Action)) :=
  env <- get ;;
  let player := player_id (current_player (state env)) in
  r <- super_step action ;;
  let was_invalid := Battle.info_invalid (info r) in
  rs <- opponent_loop fuel player r ;;
  let r := fst rs in
  let info := Battle.set_invalid was_invalid (info r) in
  env <- get ;;
  let reward := if negb (play_first env) then - reward r else reward r in
  ret (mkStep (obs r) reward (done r) info, snd rs).

(** [LOCMBattleSelfPlayEnv.step] *)
Definition step (fuel : nat) (action : PyVal Action) : M Env Battle.Result :=
  rs <- step_calls fuel action ;; ret (fst rs).

(** A run of the environment as a training loop drives it: a sequence
    of [reset()] and [step(action)] calls, stopped by the first
    exception. *)
Inductive Request : Type :=
  | DoReset
  | DoStep (action : PyVal Action).

Definition is_reset (q : Request) : bool :=
  match q with DoReset => true | DoStep _ => false end.

Fixpoint session (fuel : nat) (requests : list Request) : M Env unit :=
  match requests with
  | [] => ret tt
  | DoReset :: requests => reset fuel ;;; session fuel requests
  | DoStep action :: requests => step fuel action ;;; session fuel requests
  end.
End BattleSelfPlay.
End BattleSelfPlay.

(* ===================================================================== *)
(** ** draft.py *)
(* ===================================================================== *)

Module Draft.
Section Draft.
Context `{Eng : Engine} `{Ag : !Agents} `{Base : !BaseEnv}.

(** Attributes of a [LOCMDraftEnv] instance.  [choices] and
    [battle_agents] are the two-element tuples indexed by a player id. *)
Record Env : Type := mkEnv {
  state : State Game;
  results : list Z;
  choices : list Card * list Card;
  draft_ordering : list Z;
  rewards : list Num;
  battle_agents : Agent * Agent;
  evaluation_battles : Z;
  sort_cards : bool;
  use_draft_history : bool;
  use_mana_curve : bool;
  items : bool;
  k : Z;
  n : Z;
  _seed : option Z
}.

Definition set_state (x : State Game) (e : Env) : Env :=
  mkEnv x (results e) (choices e) (draft_ordering e) (rewards e)
        (battle_agents e) (evaluation_battles e) (sort_cards e)
        (use_draft_history e) (use_mana_curve e) (items e) (k e) (n e) (_seed e).
Definition set_results (x : list Z) (e : Env) : Env :=
  mkEnv (state e) x (choices e) (draft_ordering e) (rewards e)
        (battle_agents e) (evaluation_battles e) (sort_cards e)
        (use_draft_history e) (use_mana_curve e) (items e) (k e) (n e) (_seed e).
Definition set_choices (x : list Card * list Card) (e : Env) : Env :=
  mkEnv (state e) (results e) x (draft_ordering e) (rewards e)
        (battle_agents e) (evaluation_battles e) (sort_cards e)
        (use_draft_history e) (use_mana_curve e) (items e) (k e) (n e) (_seed e).
Definition set_draft_ordering (x : list Z) (e : Env) : Env :=
  mkEnv (state e) (results e) (choices e) x (rewards e)
        (battle_agents e) (evaluation_battles e) (sort_cards e)
        (use_draft_history e) (use_mana_curve e) (items e) (k e) (n e) (_seed e).
Definition set_rewards (x : list Num) (e : Env) : Env :=
  mkEnv (state e) (results e) (choices e) (draft_ordering e) x
        (battle_agents e) (evaluation_battles e) (sort_cards e)
        (use_draft_history e) (use_mana_curve e) (items e) (k e) (n e) (_seed e).
Definition set_battle_agents (x : Agent * Agent) (e : Env) : Env :=
  mkEnv (state e) (results e) (choices e) (draft_ordering e) (rewards e)
        x (evaluation_battles e) (sort_cards e)
        (use_draft_history e) (use_mana_curve e) (items e) (k e) (n e) (_seed e).
Definition set_seed (x : option Z) (e : Env) : Env :=
  mkEnv (state e) (results e) (choices e) (draft_ordering e) (rewards e)
        (battle_agents e) (evaluation_battles e) (sort_cards e)
        (use_draft_history e) (use_mana_curve e) (items e) (k e) (n e) x.

(** [t[id]] on a two-element tuple, [id] a player id. *)
Definition at_player {A} (t : A * A) (id : PlayerOrder) : A :=
  match id with FIRST => fst t | SECOND => snd t end.

Definition set_at_player {A} (t : A * A) (id : PlayerOrder) (x : A) : A * A :=
  match id with FIRST => (x, snd t) | SECOND => (fst t, x) end.

Definition card_features : Z := 16.

(** [self.cards_in_state] and [self.state_shape[0]], from [__init__]. *)
Definition cards_in_state (env : Env) : Z :=
  if use_draft_history env then n env + k env else k env.

Definition state_shape (env : Env) : Z :=
  let state_shape := cards_in_state env * card_features in
  if use_mana_curve env then state_shape + 13 else state_shape.

(** The bounds of both block loops: [lo = -slots * card_features],
    [hi = lo + card_features], [hi = hi if hi < 0 else None]. *)
Definition block_bounds (slots : Z) : option Z * option Z :=
  let lo := - slots * card_features in
  let hi := lo + card_features in
  (Some lo, if hi <? 0 then Some hi else None).

Definition write_block (encoded_state : list Q) (slots : Z) (v : list Q)
  : Exc (list Q) :=
  let '(lo, hi) := block_bounds slots in
  np_assign_slice encoded_state lo hi v.

(** The part of [_encode_state_draft] under [if not self._draft_is_finished]. *)
Definition encode_choices (encoded_state : list Q) : M Env (list Q) :=
  env <- get ;;
  let card_choices :=
    py_slice (hand (current_player (state env))) (Some 0) (Some (k env)) in
  modify (set_draft_ordering (py_range (k env))) ;;;
  (if sort_cards env then
     env <- get ;;
     sorted_cards <-
       lift_exc (sorted_exc (fun p => exc_map card_id (py_index card_choices p))
                            (draft_ordering env)) ;;
     modify (set_draft_ordering sorted_cards)
   else ret tt) ;;;
  env <- get ;;
  lift_exc
    (exc_foldl
       (fun encoded_state i =>
          (try! index := py_index (draft_ordering env) i in
           try! card := py_index card_choices index in
           write_block encoded_state (k env - i) (encode_card card))%exc)
       encoded_state (py_range (Z.of_nat (length card_choices)))).

(** The part under [if self.use_draft_history]; it also returns
    [chosen_cards], which it may have rebound to the sorted list. *)
Definition encode_history (env : Env) (chosen_cards : list Card)
    (encoded_state : list Q) : Exc (list Card * list Q) :=
  let chosen_cards :=
    if sort_cards env then sorted card_id chosen_cards else chosen_cards in
  exc_map (fun encoded_state => (chosen_cards, encoded_state))
    (exc_foldl
       (fun encoded_state '(j, card) =>
          write_block encoded_state (n env + k env - j) (encode_card card))
       encoded_state (enumerate chosen_cards)).

(** The part under [if self.use_mana_curve]. *)
Definition encode_mana_curve (chosen_cards : list Card) (encoded_state : list Q)
  : Exc (list Q) :=
  exc_foldl (fun encoded_state chosen_card => np_incr encoded_state (cost chosen_card))
            encoded_state chosen_cards.

(** [LOCMDraftEnv._encode_state_draft] *)
Definition _encode_state_draft : M Env (list Q) :=
  env <- get ;;
  let encoded_state := np_zeros (state_shape env) in
  let chosen_cards := at_player (choices env) (player_id (current_player (state env))) in
  encoded_state <-
    (if negb (_draft_is_finished (state env)) then encode_choices encoded_state
     else ret encoded_state) ;;
  env <- get ;;
  hist <-
    (if use_draft_history env
     then lift_exc (encode_history env chosen_cards encoded_state)
     else ret (chosen_cards, encoded_state)) ;;
  let '(chosen_cards, encoded_state) := hist in
  if use_mana_curve env
  then lift_exc (encode_mana_curve chosen_cards encoded_state)
  else ret encoded_state.

(** [_encode_state_battle] of the draft environment is [pass]. *)
Definition _encode_state_battle : M Env Obs := ret None.

(** [LOCMEnv.encode_state], as far as the two modules rely on it. *)
Definition encode_state : M Env Obs :=
  env <- get ;;
  match assembler_of (phase (state env)) with
  | Some DraftAssembler => (v <- _encode_state_draft ;; ret (Some v))
  | Some BattleAssembler => _encode_state_battle
  | None => ret None
  end.

(** [info] of the draft environment; [info_turn] is [None] once
    [del info["turn"]] has run. *)
Record Info : Type := mkInfo {
  info_phase : Phase;
  info_turn : option Z;
  info_winner : list PlayerOrder
}.

Definition Result : Type := StepResult Num Info.

(** [1 if winner == PlayerOrder.FIRST else -1] *)
Definition outcome (winner : PlayerOrder) : Z :=
  if PlayerOrder_eqb winner FIRST then 1 else -1.

(** The loop of [do_match], run on the state object [st]:
<<
    while state.winner is None:
        agent = self.battle_agents[state.current_player.id]
        action = agent.act(state)
        state.act(action)
>>
    It returns [state.winner] and the state object as the loop left it. *)
Fixpoint match_loop (fuel : nat) (st : State Game)
  : M Env (PlayerOrder * State Game) := fun env =>
  match fuel with
  | O => Diverge
  | S fuel =>
      match winner st with
      | None =>
          let id := player_id (current_player st) in
          let '(action, agent) := agent_act (at_player (battle_agents env) id) st in
          match_loop fuel (act st action)
                     (set_battle_agents (set_at_player (battle_agents env) id agent) env)
      | Some w => Ok (w, st) env
      end
  end.

(** [LOCMDraftEnv.do_match] *)
Definition do_match (fuel : nat) (st : State Game)
  : M Env (PlayerOrder * State Game) :=
  modify (fun env =>
            set_battle_agents (agent_reset (fst (battle_agents env)),
                               agent_reset (snd (battle_agents env))) env) ;;;
  match_loop fuel st.

(** The loop [for i in range(self.evaluation_battles)] of [step]; it
    returns what was appended to [info["winner"]]. *)
Fixpoint evaluation_loop (fuel : nat) (trials : list Z) : M Env (list PlayerOrder) :=
  match trials with
  | [] => ret []
  | _ :: trials =>
      env <- get ;;
      let state_copy := clone (state env) in
      ws <- do_match fuel state_copy ;;
      modify (fun env => set_results (results env ++ [outcome (fst ws)]) env) ;;;
      winners <- evaluation_loop fuel trials ;;
      ret (fst ws :: winners)
  end.

(** The part of [step] under [if self._draft_is_finished]; it returns
    [reward] and [info]. *)
Definition evaluate (fuel : nat) (info : Info) : M Env (Num * Info) :=
  env <- get ;;
  winners <-
    (if evaluation_battles env =? 1 then
       ws <- do_match fuel (state env) ;;
       modify (set_state (snd ws)) ;;;
       modify (set_results [outcome (fst ws)]) ;;;
       ret [fst ws]
     else
       winners <- evaluation_loop fuel (py_range (evaluation_battles env)) ;;
       ret (info_winner info ++ winners)) ;;
  env <- get ;;
  let reward := np_mean (results env) in
  rewards <- lift_exc (add_to_last (fun r => Num_add r reward) (rewards env)) ;;
  modify (set_rewards rewards) ;;;
  ret (reward, mkInfo (info_phase info) None winners).

(** The remapping of [step]:
<<
    if 0 <= action.origin < self.k:
        chosen_index = self.draft_ordering[action.origin]
    else:
        chosen_index = 0
>> *)
Definition chosen_index (env : Env) (action : Action) : Exc Z :=
  match origin action with
  | None => inl TypeError
  | Some o =>
      if (0 <=? o) && (o <? k env) then py_index (draft_ordering env) o
      else inr 0
  end.

(** The hand index that [step] arrives at for its argument: the argument
    is decoded as at the top of [step], then remapped. *)
Definition selected_index (env : Env) (action : PyVal Action) : Exc Z :=
(try! action := action_of_input (state env) (items env) action in
 match action with
 | Some a => chosen_index env a
 | None => inl AttributeError
 end)%exc.

(** [LOCMDraftEnv.step] *)
Definition step (fuel : nat) (action : PyVal Action) : M Env Result :=
  env <- get ;;
  if _draft_is_finished (state env) then raise GameIsEndedError
  else
    action <- lift_exc (action_of_input (state env) (items env) action) ;;
    action <- match action with
              | Some a => ret a
              | None => raise AttributeError
              end ;;
    chosen_index <- lift_exc (chosen_index env action) ;;
    let id := player_id (current_player (state env)) in
    chosen_card <- lift_exc (py_index (hand (current_player (state env))) chosen_index) ;;
    modify (fun env =>
              set_choices (set_at_player (choices env) id
                             (at_player (choices env) id ++ [chosen_card])) env) ;;;
    modify (fun env => set_state (act (state env) action) env) ;;;
    env <- get ;;
    let info := mkInfo (phase (state env)) (Some (turn (state env))) [] in
    ri <- (if _draft_is_finished (state env) then
             ri <- evaluate fuel info ;; ret (fst ri, true, snd ri)
           else ret (Fin 0, false, info)) ;;
    o <- encode_state ;;
    ret (mkStep o (fst (fst ri)) (snd (fst ri)) (snd ri)).

(** [LOCMDraftEnv.reset] *)
Definition reset : M Env Obs :=
  modify (fun env =>
            let '(sd, st) := base_reset (_seed env) (state env)
                                        (items env) (k env) (n env) in
            set_seed sd (set_state st env)) ;;;
  modify (set_results []) ;;;
  modify (set_choices ([], [])) ;;;
  modify (set_draft_ordering (py_range 3)) ;;;
  modify (fun env =>
            set_battle_agents
              (agent_seed (_seed env) (agent_reset (fst (battle_agents env))),
               agent_seed (_seed env) (agent_reset (snd (battle_agents env)))) env) ;;;
  modify (fun env => set_rewards (rewards env ++ [Fin 0]) env) ;;;
  encode_state.
End Draft.
End Draft.

(** *** [LOCMDraftSingleEnv] *)
Module DraftSingle.
Section DraftSingle.
Context `{Eng : Engine} `{Ag : !Agents} `{Base : !BaseEnv}.

Record Env : Type := mkEnv {
  parent : Draft.Env;
  draft_agent : Agent;
  play_first : bool
}.

Definition set_parent (p : Draft.Env) (env : Env) : Env :=
  mkEnv p (draft_agent env) (play_first env).
Definition set_draft_agent (a : Agent) (env : Env) : Env :=
  mkEnv (parent env) a (play_first env).

Definition super_step (fuel : nat) (action : PyVal Action) : M Env Draft.Result :=
  super parent set_parent (Draft.step fuel action).

(** [self.draft_agent.act(self.state)] *)
Definition ask_agent : M Env Action := fun env =>
  let '(action, agent) := agent_act (draft_agent env) (Draft.state (parent env)) in
  Ok action (set_draft_agent agent env).

(** [LOCMDraftSingleEnv.step] *)
Definition step (fuel : nat) (action : PyVal Action) : M Env Draft.Result :=
  env <- get ;;
  if play_first env then
    super_step fuel action ;;;
    a <- ask_agent ;;
    super_step fuel (PyAction a)
  else
    a <- ask_agent ;;
    super_step fuel (PyAction a) ;;;
    r <- super_step fuel action ;;
    ret (mkStep (obs r) (Num_neg (reward r)) (done r) (info r)).
End DraftSingle.
End DraftSingle.

(** *** [LOCMDraftSelfPlayEnv] *)
Module DraftSelfPlay.
Section DraftSelfPlay.
Context `{Eng : Engine} `{Ag : !Agents} `{Base : !BaseEnv}.

Record Env : Type := mkEnv {
  parent : Draft.Env;
  play_first : bool;
  adversary_policy : option (Obs -> PyVal Action)
}.

Definition set_parent (p : Draft.Env) (env : Env) : Env :=
  mkEnv p (play_first env) (adversary_policy env).

Definition super_step (fuel : nat) (action : PyVal Action) : M Env Draft.Result :=
  super parent set_parent (Draft.step fuel action).

(** [self.adversary_policy(obs)] *)
Definition ask_policy (obs : Obs) : M Env (PyVal Action) :=
  env <- get ;;
  match adversary_policy env with
  | Some policy => ret (policy obs)
  | None => raise TypeError
  end.

(** [LOCMDraftSelfPlayEnv.step] *)
Definition step (fuel : nat) (action : PyVal Action) : M Env Draft.Result :=
  obs0 <- super parent set_parent Draft.encode_state ;;
  env <- get ;;
  if play_first env then
    super_step fuel action ;;;
    a <- ask_policy obs0 ;;
    super_step fuel a
  else
    a <- ask_policy obs0 ;;
    super_step fuel a ;;;
    r <- super_step fuel action ;;
    ret (mkStep (obs r) (Num_neg (reward r)) (done r) (info r)).
End DraftSelfPlay.
End DraftSelfPlay.


(** *** [LOCMDraftSingleTabularEnv] *)
Module DraftSingleTabular.
Section DraftSingleTabular.
Context `{Eng : Engine} `{Ag : !Agents} `{Base : !BaseEnv}.

(** The 64-bit signed integers of a numpy [int64] array, and the value
    that such an array holds for the exact result [z] of an operation on
    its cells: the arithmetic wraps around. *)
Definition int64_min : Z := -9223372036854775808.
Definition int64_max : Z := 9223372036854775807.

Definition wrap64 (z : Z) : Z :=
  (z - int64_min) mod 18446744073709551616 + int64_min.

(** [LOCMDraftSingleTabularEnv._encode_state_draft]:
<<
    np.array(sorted(map(attrgetter("id"), self.state.current_player.hand))) - 1
>>
    [sorted] works on the ids as Python integers.  When they all fit 64
    bits, [np.array] makes of them an [int64] array (numpy's default
    integer, 64 bits wide on the platforms the package names) and [- 1]
    is taken cell by cell in that type.  With an id outside 64 bits
    numpy chooses another element type; that case is outside this model
    and gives [None]. *)
Definition _encode_state_draft (env : DraftSingle.Env) : option (list Z) :=
  let ids :=
    sorted (fun id => id)
           (card_id <$> hand (current_player (Draft.state (DraftSingle.parent env)))) in
  if bool_decide (Forall (fun id => int64_min <= id <= int64_max) ids)
  then Some ((fun id => wrap64 (id - 1)) <$> ids)
  else None.
End DraftSingleTabular.
End DraftSingleTabular.


(* ===================================================================== *)
(** ** util/experiment.py *)
(* ===================================================================== *)

(** The bookkeeping of [evaluate] inside [Configuration.run].  The model
    and the vectorised environment are not part of the repository: what
    the successive calls of [env.step] returned is taken as the list
    [steps] of the pairs [(rewards, dones)].  Floats are rationals, as
    above. *)
Module Experiment.
Section Experiment.

Definition sum_Q (l : list Q) : Q := foldr Qplus 0%Q l.

(** The loop over the environments, run after each [env.step]:
<<
    for i in range(env.num_envs):
        episode_rewards[i][-1] += rewards[i]
        if dones[i]:
            episode_rewards[i].append(0.0)
>> *)
Definition record_step (num_envs : Z) (episode_rewards : list (list Q))
    (rewards : list Q) (dones : list bool) : Exc (list (list Q)) :=
  exc_foldl
    (fun episode_rewards i =>
       (try! part := py_index episode_rewards i in
        try! reward := py_index rewards i in
        try! part := add_to_last (fun x => x + reward)%Q part in
        try! d := py_index dones i in
        let part := if d : bool then part ++ [0%Q] else part in
        inr (<[Z.to_nat i := part]> episode_rewards))%exc)
    episode_rewards (py_range num_envs).

(** [evaluate], from [episode_rewards = [[0.0] for _ in range(env.num_envs)]]
    to the list [all_rewards] whose mean and deviation it returns. *)
Definition all_rewards (num_envs : Z) (steps : list (list Q * list bool))
  : Exc (list Q) :=
  let episode_rewards := (fun _ => [0%Q]) <$> py_range num_envs in
  (try! episode_rewards :=
     exc_foldl (fun episode_rewards step =>
                  record_step num_envs episode_rewards (fst step) (snd step))
               episode_rewards steps in
   inr (concat episode_rewards))%exc.

(** How many episodes ended during the evaluation. *)
Definition finished (steps : list (list Q * list bool)) : nat :=
  length (filter (fun d => d = true) (concat (snd <$> steps))).
End Experiment.
End Experiment.


(* ===================================================================== *)
(** ** A small engine on which the definitions can be run *)
(* ===================================================================== *)

Module Toy.
(** A card is its [(id, cost)]. *)
Record ToyPlayer : Type := mkPlayer {
  tp_id : PlayerOrder;
  tp_hand : list (Z * Z);
  tp_lanes : list (Z * Z) * list (Z * Z)
}.

Record ToyGame : Type := mkGame {
  tg_phase : Phase;
  tg_turn : Z;
  tg_winner : option PlayerOrder;
  tg_current : ToyPlayer;
  tg_opposing : ToyPlayer;
  tg_picks_left : nat
}.

(** [Pick o] takes a card in the draft, [Pass] ends a battle turn,
    [Strike] wins the battle for the player who moves, [Fumble] is never
    legal. *)
Inductive ToyAction : Type := Pick (o : Z) | Pass | Strike | Fumble.

Definition toy_act (s : State ToyGame) (a : ToyAction) : State ToyGame :=
  let g := game s in
  match tg_phase g, a with
  | DRAFT, Pick _ =>
      let left := Nat.pred (tg_picks_left g) in
      mkState (mkGame (if Nat.eqb left 0 then BATTLE else DRAFT) (tg_turn g + 1)
                      (tg_winner g) (tg_opposing g) (tg_current g) left) false
  | BATTLE, Pass =>
      mkState (mkGame BATTLE (tg_turn g + 1) (tg_winner g)
                      (tg_opposing g) (tg_current g) (tg_picks_left g)) false
  | BATTLE, Strike =>
      mkState (mkGame ENDED (tg_turn g) (Some (tp_id (tg_current g)))
                      (tg_current g) (tg_opposing g) (tg_picks_left g)) false
  | _, _ => mkState g true
  end.

#[export] Instance engine : Engine := {|
  Card := Z * Z;
  Player := ToyPlayer;
  Action := ToyAction;
  Game := ToyGame;
  card_id := fst;
  cost := snd;
  origin := fun a => match a with Pick o => Some o | _ => None end;
  player_id := tp_id;
  hand := tp_hand;
  lanes := tp_lanes;
  game_phase := tg_phase;
  game_turn := tg_turn;
  game_winner := tg_winner;
  game_current_player := tg_current;
  game_opposing_player := tg_opposing;
  game_action_mask := fun _ => [];
  act := toy_act
|}.

(** A scripted agent plays its list of moves, then passes; [reset] and
    [seed] do not rewind the list. *)
#[export] Instance agents : Agents := {|
  Agent := list ToyAction;
  agent_reset := fun a => a;
  agent_seed := fun _ a => a;
  agent_act := fun a _ => match a with [] => (Pass, []) | x :: a' => (x, a') end
|}.

Definition toy_decode (s : State ToyGame) (items : bool) (code : Z)
  : Exc (option ToyAction) :=
  match tg_phase (game s) with
  | DRAFT => if (0 <=? code) && (code <? 3) then inr (Some (Pick code))
             else inl MalformedActionError
  | _ => if code =? 0 then inr (Some Pass)
         else if code =? 1 then inr (Some Strike)
         else if code =? 2 then inr (Some Fumble)
         else if code =? 3 then inr None
         else inl MalformedActionError
  end.

Definition lone (id : PlayerOrder) : ToyPlayer := mkPlayer id [] ([], []).

Definition fresh : State ToyGame :=
  mkState (mkGame DRAFT 1 None
                  (mkPlayer FIRST [(7, 2); (3, 5); (5, 0)] ([], []))
                  (mkPlayer SECOND [(7, 2); (3, 5); (5, 0)] ([], [])) 2) false.

#[export] Instance base : BaseEnv := {|
  int_of_str := fun _ => None;
  encode_card := fun c => inject_Z (fst c) :: inject_Z (snd c) :: replicate 14 0%Q;
  encode_friendly_card_on_board := fun c => inject_Z (fst c) :: replicate 8 0%Q;
  encode_enemy_card_on_board := fun c => inject_Z (fst c) :: replicate 7 0%Q;
  encode_players := fun p0 p1 => replicate 8 1%Q;
  decode_action := toy_decode;
  _draft_is_finished := fun s => negb (Phase_eqb (tg_phase (game s)) DRAFT);
  _battle_is_finished := fun s => bool_decide (tg_winner (game s) <> None);
  assembler_of := fun p => match p with
                           | DRAFT => Some DraftAssembler
                           | BATTLE => Some BattleAssembler
                           | ENDED => Some BattleAssembler
                           end;
  base_reset := fun sd _ _ _ _ => (sd, fresh)
|}.

(** A battle in progress, [who] to move. *)
Definition battle (who : PlayerOrder) (hand : list (Z * Z)) : State ToyGame :=
  let other := match who with FIRST => SECOND | SECOND => FIRST end in
  mkState (mkGame BATTLE 1 None (mkPlayer who hand ([(4, 1)], []))
                  (mkPlayer other [] ([], [(9, 3)])) 0) false.

Definition battle_env (items : bool) (st : State ToyGame) : Battle.Env :=
  Battle.mkEnv st [0] [[]; []] false items 3 30 None.

Definition draft_env (st : State ToyGame) (history mana sort : bool)
    (battles : Z) (choices : list (Z * Z) * list (Z * Z))
    (agents : list ToyAction * list ToyAction) : Draft.Env :=
  Draft.mkEnv st [] choices [0; 1; 2] [Fin 0] agents battles sort history mana
              true 3 30 None.

(** A draft with one pick left, [FIRST] to pick. *)
Definition last_pick : State ToyGame :=
  mkState (mkGame DRAFT 1 None
                  (mkPlayer FIRST [(7, 2); (3, 5); (5, 0)] ([], []))
                  (mkPlayer SECOND [(7, 2); (3, 5); (5, 0)] ([], [])) 1) false.

(** A battle that [who] has won. *)
Definition won (who : PlayerOrder) : State ToyGame :=
  mkState (mkGame ENDED 4 (Some who) (lone FIRST) (lone SECOND) 0) false.

Definition no_battle_result : Battle.Result :=
  mkStep None 0 false (Battle.mkInfo DRAFT 0 None false None).

Definition no_draft_result : Draft.Result :=
  mkStep None NaN false (Draft.mkInfo DRAFT None []).
End Toy.

(* ===================================================================== *)
(** ** Notions the theorems are stated with *)
(* ===================================================================== *)

(** Every returning run of [m] relates the environment before to the
    environment after by [R]. *)
Definition framed {E A} (R : E -> E -> Prop) (m : M E A) : Prop :=
  forall e a e', m e = Ok a e' -> R e e'.

(** The battle observation in the words of the specification: both
    players' attributes, then the acting player's hand packed to 8 slots,
    then the acting player's two lanes and the opponent's two lanes, each
    packed to 3 slots.  A packed block holds the features of the cards in
    the order of the cards, one slot each, and zeros in the slots that
    are left.  These definitions do not use [fill_cards] or the blocks of
    the code. *)
Module BattleLayout.
Section BattleLayout.
Context `{Eng : Engine} `{Ag : !Agents} `{Base : !BaseEnv}.

Definition packed (features : Card -> list Q) (width capacity : nat)
    (cards : list Card) : list Q :=
  concat (features <$> cards)
  ++ replicate (width * (capacity - length cards)) 0%Q.

(** The features of a card in hand: all 16 with items, without items the
    12 that are left when the first four are dropped. *)
Definition hand_features (items : bool) (card : Card) : list Q :=
  if items then encode_card card else drop 4 (encode_card card).

Definition hand_width (items : bool) : nat := if items then 16 else 12.

Definition spec_layout (items : bool) (st : State Game) : list Q :=
  let p0 := current_player st in
  let p1 := opposing_player st in
  encode_players p0 p1
  ++ packed (hand_features items) (hand_width items) 8 (hand p0)
  ++ packed encode_friendly_card_on_board 9 3 (fst (lanes p0))
  ++ packed encode_friendly_card_on_board 9 3 (snd (lanes p0))
  ++ packed encode_enemy_card_on_board 8 3 (fst (lanes p1))
  ++ packed encode_enemy_card_on_board 8 3 (snd (lanes p1)).
End BattleLayout.
End BattleLayout.

(** The evaluation battles in the words of the specification.  A match
    is played to completion by the two battle agents: while there is no
    winner, the agent of the player to move chooses and the engine
    applies the move.  Each of the trials starts from a clone of the
    state the draft left, with both agents reset just before it; the
    agents go from one trial to the next as the last one left them.
    These definitions do not use [do_match] or the loops of the code. *)
Module DraftEvaluator.
Section DraftEvaluator.
Context `{Eng : Engine} `{Ag : !Agents} `{Base : !BaseEnv}.

Inductive played
  : State Game -> Agent * Agent -> PlayerOrder -> State Game -> Agent * Agent -> Prop :=
| played_over st agents w :
    winner st = Some w -> played st agents w st agents
| played_move st agents action agent w st' agents' :
    winner st = None ->
    agent_act (Draft.at_player agents (player_id (current_player st))) st
    = (action, agent) ->
    played (act st action)
           (Draft.set_at_player agents (player_id (current_player st)) agent)
           w st' agents' ->
    played st agents w st' agents'.

Inductive trials (st : State Game)
  : Agent * Agent -> nat -> list PlayerOrder -> Agent * Agent -> Prop :=
| trials_none agents : trials st agents 0 [] agents
| trials_more agents n w st' agents1 ws agents' :
    played (clone st) (agent_reset (fst agents), agent_reset (snd agents))
           w st' agents1 ->
    trials st agents1 n ws agents' ->
    trials st agents (S n) (w :: ws) agents'.
End DraftEvaluator.
End DraftEvaluator.

Module DraftFrames.
Section DraftFrames.
Context `{Eng : Engine} `{Ag : !Agents} `{Base : !BaseEnv}.

(** Only [draft_ordering] differs. *)
Definition ordering_only (e e' : Draft.Env) : Prop :=
  e' = Draft.set_draft_ordering (Draft.draft_ordering e') e.

(** Only [battle_agents] differs. *)
Definition agents_only (e e' : Draft.Env) : Prop :=
  e' = Draft.set_battle_agents (Draft.battle_agents e') e.

(** [choices] is the same. *)
Definition choices_kept (e e' : Draft.Env) : Prop :=
  Draft.choices e' = Draft.choices e.
End DraftFrames.
End DraftFrames.

(** The blocks of the draft observation, and the two ways to order them. *)
Module DraftLayout.
Section DraftLayout.
Context `{Eng : Engine} `{Ag : !Agents} `{Base : !BaseEnv}.
Import Draft.

(** The choice history of the acting player. *)
Definition chosen (env : Env) : list Card :=
  at_player (choices env) (player_id (current_player (state env))).

(** How many cards of [cards] cost [c]. *)
Definition count_cost (cards : list Card) (c : Z) : Z :=
  Z.of_nat (length (filter (fun card => cost card = c) cards)).

(** Mana-curve block: one count per cost 0..12. *)
Definition mana_curve (cards : list Card) : list Q :=
  (fun c => inject_Z (count_cost cards c)) <$> py_range 13.

(** History block: the chosen cards, oldest first or by id, then zeros
    up to [n] card slots. *)
Definition history (env : Env) : list Card :=
  if sort_cards env then sorted card_id (chosen env) else chosen env.

Definition history_block (env : Env) : list Q :=
  features_of (encode_card <$> history env)
  ++ replicate (16 * (Z.to_nat (n env) - length (history env))) 0%Q.

(** Current-choice block: the [k] offered cards, as offered or by id;
    zeros once the draft is finished. *)
Definition offered (env : Env) : list Card :=
  py_slice (hand (current_player (state env))) (Some 0) (Some (k env)).

Definition shown (env : Env) : list Card :=
  if sort_cards env then sorted card_id (offered env) else offered env.

Definition choice_block (env : Env) : list Q :=
  if _draft_is_finished (state env) then replicate (16 * Z.to_nat (k env)) 0%Q
  else features_of (encode_card <$> shown env).

(** The ordering the assembler leaves in [draft_ordering]: the positions
    of the offered cards, as they are or stably sorted by card id. *)
Definition new_ordering (env : Env) : list Z :=
  if _draft_is_finished (state env) then draft_ordering env
  else if sort_cards env
       then fst <$> sorted (fun d => card_id (snd d)) (zip (py_range (k env)) (offered env))
       else py_range (k env).

Definition optional (b : bool) (block : list Q) : list Q :=
  if b then block else [].

(** The order of the blocks in the array that the code returns. *)
Definition code_layout (env : Env) : list Q :=
  optional (use_mana_curve env) (mana_curve (chosen env))
  ++ optional (use_draft_history env) (history_block env)
  ++ choice_block env.

(** The order of the blocks in the words of the specification: history
    first, current choice next, mana curve appended at the very end. *)
Definition spec_layout (env : Env) : list Q :=
  optional (use_draft_history env) (history_block env)
  ++ choice_block env
  ++ optional (use_mana_curve env) (mana_curve (chosen env)).
End DraftLayout.
End DraftLayout.


(** The configuration of a draft environment is the same. *)
Module DraftConfig.
Section DraftConfig.
Context `{Eng : Engine} `{Ag : !Agents} `{Base : !BaseEnv}.

Definition config_kept (e e' : Draft.Env) : Prop :=
  Draft.k e' = Draft.k e /\ Draft.n e' = Draft.n e
  /\ Draft.items e' = Draft.items e
  /\ Draft.sort_cards e' = Draft.sort_cards e
  /\ Draft.use_draft_history e' = Draft.use_draft_history e
  /\ Draft.use_mana_curve e' = Draft.use_mana_curve e
  /\ Draft.evaluation_battles e' = Draft.evaluation_battles e.
End DraftConfig.
End DraftConfig.

(** The two halves of [Battle.well_formed], apart: encoders of the
    declared widths, and a list beyond its capacity. *)
Module BattleCapacity.
Section BattleCapacity.
Context `{Eng : Engine} `{Ag : !Agents} `{Base : !BaseEnv}.

Definition encoders_fit (st : State Game) : bool :=
  let p0 := current_player st in
  let p1 := opposing_player st in
  Nat.eqb (length (encode_players p0 p1)) 8
  && Battle.widths encode_card 16 (hand p0)
  && forallb (Battle.widths encode_friendly_card_on_board 9)
             [fst (lanes p0); snd (lanes p0)]
  && forallb (Battle.widths encode_enemy_card_on_board 8)
             [fst (lanes p1); snd (lanes p1)].

Definition over_capacity (st : State Game) : bool :=
  let p0 := current_player st in
  let p1 := opposing_player st in
  Nat.ltb 8 (length (hand p0))
  || existsb (fun lane => Nat.ltb 3 (length lane))
             [fst (lanes p0); snd (lanes p0); fst (lanes p1); snd (lanes p1)].
End BattleCapacity.
End BattleCapacity.


(** The declared [reward_range = (-1, 1)] of the draft environments, and
    what the evaluation battles record. *)
Module DraftRewards.
Section DraftRewards.

Definition in_reward_range (x : Num) : Prop :=
  match x with
  | Fin q => (-1 <= q <= 1)%Q
  | NaN => False
  end.

Definition decided (results : list Z) : Prop :=
  Forall (fun x => x = 1 \/ x = -1) results.
End DraftRewards.
End DraftRewards.



(** What [get_episode_rewards] of a battle environment holds after a run
    that started with the list [before]: the winner's raw reward, if
    there is a winner, added to the last entry. *)
Module EpisodeRewards.
Section EpisodeRewards.
Context `{Eng : Engine} `{Ag : !Agents} `{Base : !BaseEnv}.

Definition credited (before : list Z) (env : Battle.Env) : Prop :=
  match winner (Battle.state env) with
  | None => Battle.rewards env = before
  | Some w =>
      add_to_last (fun r => r + raw_reward (Some w)) before
      = inr (Battle.rewards env)
  end.
End EpisodeRewards.
End EpisodeRewards.



(** What the bookkeeping of an evaluation keeps: one list per
    environment, none empty; and the entries of a vector that a loop
    over the indices [idx] reads. *)
Module EvaluationBooks.
Section EvaluationBooks.

Definition books_ok (n : nat) (books : list (list Q)) : Prop :=
  length books = n /\ Forall (fun part => part <> []) books.

Definition picked {A} (d : A) (l : list A) (idx : list Z) : list A :=
  (fun i => default d (l !! Z.to_nat i)) <$> idx.
End EvaluationBooks.
End EvaluationBooks.


(* ##################################################################### *)
(** * Theorems *)
(* ##################################################################### *)

(* ===================================================================== *)
(** ** Facts about the primitives *)
(* ===================================================================== *)

Lemma py_range_length n : length (py_range n) = Z.to_nat n.
Proof. unfold py_range. by rewrite length_fmap, length_seq. Qed.

Lemma fmap_const_replicate {A B} (b : B) (l : list A) :
  (fun _ => b) <$> l = replicate (length l) b.
Proof. induction l as [|a l IH]; csimpl; [done | by rewrite IH]. Qed.

Lemma fill_cards_eq card_list up_to features :
  fill_cards card_list up_to features
  = card_list ++ replicate (Z.to_nat (up_to - Z.of_nat (length card_list)))
                           (replicate (Z.to_nat features) 0%Q).
Proof.
  unfold fill_cards. by rewrite fmap_const_replicate, py_range_length.
Qed.

Lemma fill_cards_length card_list up_to features :
  Z.of_nat (length card_list) <= up_to ->
  Z.of_nat (length (fill_cards card_list up_to features)) = up_to.
Proof.
  intros Hle. rewrite fill_cards_eq, length_app, length_replicate. lia.
Qed.

(** C9. For a collection of at most [C] encoded cards, [fill_cards] returns
    exactly [C] entries: the given vectors first and in their order, then
    placeholders that are all zero and [features] wide. *)
Theorem fill_cards_packs (card_list : list (list Q)) (C features : Z) :
  Z.of_nat (length card_list) <= C ->
  length (fill_cards card_list C features) = Z.to_nat C
  /\ take (length card_list) (fill_cards card_list C features) = card_list
  /\ drop (length card_list) (fill_cards card_list C features)
     = replicate (Z.to_nat C - length card_list)
                 (replicate (Z.to_nat features) 0%Q)
  /\ (forall i v, (length card_list <= i)%nat ->
        fill_cards card_list C features !! i = Some v ->
        length v = Z.to_nat features /\ Forall (fun x => x = 0%Q) v).
Proof.
  intros Hle. rewrite fill_cards_eq.
  assert (Hn : Z.to_nat (C - Z.of_nat (length card_list))
               = (Z.to_nat C - length card_list)%nat) by lia.
  rewrite Hn. split; [|split; [|split]]; [| | |intros i v Hi Hv; split].
  - rewrite length_app, length_replicate. lia.
  - by rewrite take_app_length.
  - by rewrite drop_app_length.
  - rewrite lookup_app_r in Hv by done.
    apply lookup_replicate in Hv as [-> _]. apply length_replicate.
  - rewrite lookup_app_r in Hv by done.
    apply lookup_replicate in Hv as [-> _].
    apply Forall_forall. intros x Hx. by apply elem_of_replicate in Hx as [-> _].
Qed.


Lemma concat_length_uniform {A} (l : list (list A)) (w : nat) :
  Forall (fun v => length v = w) l -> length (concat l) = (length l * w)%nat.
Proof.
  induction 1 as [|v l Hv _ IH]; simpl; [done |].
  rewrite length_app, IH, Hv. lia.
Qed.

Lemma fill_cards_uniform card_list up_to features :
  Forall (fun v => length v = Z.to_nat features) card_list ->
  Forall (fun v => length v = Z.to_nat features) (fill_cards card_list up_to features).
Proof.
  intros Hall. rewrite fill_cards_eq. apply Forall_app. split; [done |].
  apply Forall_replicate, length_replicate.
Qed.

Lemma fill_cards_features_length card_list up_to features :
  Z.of_nat (length card_list) <= up_to ->
  Forall (fun v => length v = Z.to_nat features) card_list ->
  length (features_of (fill_cards card_list up_to features))
  = (Z.to_nat up_to * Z.to_nat features)%nat.
Proof.
  intros Hle Hall. unfold features_of.
  rewrite (concat_length_uniform _ (Z.to_nat features))
    by by apply fill_cards_uniform.
  f_equal. pose proof (fill_cards_length card_list up_to features Hle). lia.
Qed.

Lemma concat_slot {A} (w : nat) (bs : list (list A)) (rest : list A) (j : nat)
    (b : list A) :
  Forall (fun b => length b = w) bs -> bs !! j = Some b ->
  take w (drop (w * j) (concat bs ++ rest)) = b.
Proof.
  intros Hall. revert j. induction Hall as [|b0 bs Hb0 Hall IH]; intros j Hj; [done |].
  destruct j as [|j]; simpl in Hj.
  - injection Hj as ->. rewrite Nat.mul_0_r. simpl drop. cbn [concat].
    rewrite <- app_assoc. by apply take_app_length'.
  - cbn [concat]. rewrite <- app_assoc.
    replace (w * S j)%nat with (length b0 + w * j)%nat by lia.
    rewrite drop_app_add. by apply IH.
Qed.

Lemma np_assign_slice_head (a v : list Q) (w : nat) :
  length v = w -> (w <= length a)%nat ->
  np_assign_slice a None (Some (Z.of_nat w)) v = inr (v ++ drop w a).
Proof.
  intros Hv Hw. unfold np_assign_slice, py_bound.
  destruct (Z.ltb_spec (Z.of_nat w) 0) as [?|_]; [lia |].
  replace (Z.to_nat (Z.min (Z.of_nat w) (Z.of_nat (length a)))) with w by lia.
  rewrite Nat.sub_0_r, Hv, Nat.eqb_refl. by rewrite take_0.
Qed.

Lemma np_assign_slice_tail (a v : list Q) (w : nat) :
  (w <= length a)%nat -> length v = (length a - w)%nat ->
  np_assign_slice a (Some (Z.of_nat w)) None v = inr (take w a ++ v).
Proof.
  intros Hw Hv. unfold np_assign_slice, py_bound.
  destruct (Z.ltb_spec (Z.of_nat w) 0) as [?|_]; [lia |].
  replace (Z.to_nat (Z.min (Z.of_nat w) (Z.of_nat (length a)))) with w by lia.
  rewrite Hv, Nat.eqb_refl.
  rewrite drop_ge by lia. by rewrite app_nil_r.
Qed.

(* ===================================================================== *)
(** ** The battle observation *)
(* ===================================================================== *)

Section BattleObservation.
Context `{Eng : Engine} `{Ag : !Agents} `{Base : !BaseEnv}.

Lemma state_shape_value items :
  Battle.state_shape items = 8 + 8 * (if items then 16 else 12) + 2 * 3 * 9 + 2 * 3 * 8
  /\ Battle.state_shape items = if items then 238 else 206.
Proof. by destruct items. Qed.

Lemma widths_Forall enc w cards :
  Battle.widths enc w cards = true -> Forall (fun c => length (enc c) = w) cards.
Proof.
  unfold Battle.widths. rewrite forallb_forall, Forall_forall.
  intros Hall c Hc. apply Nat.eqb_eq, Hall. by apply list_elem_of_In.
Qed.

Lemma hand_block_length items p0 :
  (length (hand p0) <= 8)%nat -> Battle.widths encode_card 16 (hand p0) = true ->
  length (Battle.hand_block items p0) = 8%nat
  /\ length (features_of (Battle.hand_block items p0))
     = (8 * (if items then 16 else 12))%nat.
Proof.
  intros Hle Hw. apply widths_Forall in Hw. unfold Battle.hand_block.
  destruct items; simpl negb; cbv iota.
  - split.
    + pose proof (fill_cards_length (encode_card <$> hand p0) 8 16) as Hl.
      rewrite length_fmap in Hl. lia.
    + rewrite fill_cards_features_length.
      * done.
      * rewrite length_fmap. lia.
      * by apply Forall_fmap.
  - assert (Hall : Forall (fun v : list Q => length v = Z.to_nat 12)
                          (drop 4 <$> (encode_card <$> hand p0))).
    { apply Forall_fmap, Forall_fmap. eapply Forall_impl; [exact Hw |].
      intros c Hc. simpl. rewrite length_drop, Hc. done. }
    split.
    + pose proof (fill_cards_length (drop 4 <$> (encode_card <$> hand p0)) 8 12) as Hl.
      rewrite !length_fmap in Hl. lia.
    + rewrite fill_cards_features_length.
      * done.
      * rewrite !length_fmap. lia.
      * done.
Qed.

Lemma lane_block_length enc (w : nat) lane :
  (length lane <= 3)%nat -> Battle.widths enc w lane = true ->
  length (Battle.lane_block enc (Z.of_nat w) lane) = 3%nat
  /\ length (features_of (Battle.lane_block enc (Z.of_nat w) lane)) = (3 * w)%nat.
Proof.
  intros Hle Hw. apply widths_Forall in Hw. unfold Battle.lane_block. split.
  - pose proof (fill_cards_length (enc <$> lane) 3 (Z.of_nat w)) as Hl.
    rewrite length_fmap in Hl. lia.
  - rewrite fill_cards_features_length.
    + by rewrite Nat2Z.id.
    + rewrite length_fmap. lia.
    + apply Forall_fmap. eapply Forall_impl; [exact Hw |].
      intros c Hc. simpl. by rewrite Nat2Z.id.
Qed.

Lemma all_cards_layout items p0 p1 :
  Battle.all_cards items p0 p1
  = features_of (Battle.hand_block items p0)
    ++ features_of (Battle.lane_block encode_friendly_card_on_board 9 (fst (lanes p0)))
    ++ features_of (Battle.lane_block encode_friendly_card_on_board 9 (snd (lanes p0)))
    ++ features_of (Battle.lane_block encode_enemy_card_on_board 8 (fst (lanes p1)))
    ++ features_of (Battle.lane_block encode_enemy_card_on_board 8 (snd (lanes p1))).
Proof. unfold Battle.all_cards. simpl. by rewrite <- !app_assoc. Qed.

Lemma encode_state_battle_layout env :
  Battle.well_formed (Battle.state env) = true ->
  Battle._encode_state_battle env
  = inr (Battle.layout (Battle.items env) (Battle.state env))
  /\ Z.of_nat (length (Battle.layout (Battle.items env) (Battle.state env)))
     = Battle.state_shape (Battle.items env).
Proof.
  unfold Battle.well_formed. simpl forallb. rewrite !andb_true_r.
  rewrite !andb_true_iff, !Nat.eqb_eq, !Nat.leb_le.
  intros ((((Hp & Hh) & Hhw) & (Hf1 & Hf1w) & Hf2 & Hf2w) & (He1 & He1w) & He2 & He2w).
  set (st := Battle.state env) in *. set (items := Battle.items env).
  destruct (hand_block_length items (current_player st) Hh Hhw) as [_ Lh].
  destruct (lane_block_length _ 9 _ Hf1 Hf1w) as [_ Lf1].
  destruct (lane_block_length _ 9 _ Hf2 Hf2w) as [_ Lf2].
  destruct (lane_block_length _ 8 _ He1 He1w) as [_ Le1].
  destruct (lane_block_length _ 8 _ He2 He2w) as [_ Le2].
  change (Z.of_nat 9) with 9 in *. change (Z.of_nat 8) with 8 in *.
  assert (Hall : length (Battle.all_cards items (current_player st) (opposing_player st))
                 = (8 * (if items then 16 else 12) + 3 * 9 + 3 * 9 + 3 * 8 + 3 * 8)%nat).
  { rewrite all_cards_layout, !length_app, Lh, Lf1, Lf2, Le1, Le2. lia. }
  assert (Hlen : length (np_zeros (Battle.state_shape items))
                 = (8 + (8 * (if items then 16 else 12) + 3 * 9 + 3 * 9 + 3 * 8 + 3 * 8))%nat).
  { unfold np_zeros. rewrite length_replicate. by destruct items. }
  split.
  - unfold Battle._encode_state_battle. fold st items.
    rewrite (np_assign_slice_head _ _ 8 Hp) by (rewrite Hlen; lia).
    simpl exc_bind.
    rewrite (np_assign_slice_tail _ _ 8).
    + rewrite take_app_length' by done.
      unfold Battle.layout. by rewrite all_cards_layout.
    + rewrite length_app, length_drop, Hlen, Hp. lia.
    + rewrite length_app, length_drop, Hlen, Hp, Hall. lia.
  - unfold Battle.layout. fold st.
    rewrite !length_app, Hp, Lh, Lf1, Lf2, Le1, Le2. by destruct items.
Qed.

Lemma encode_state_pure env o env' :
  Battle.encode_state env = Ok o env' -> env' = env.
Proof.
  unfold Battle.encode_state, lift_exc, Battle._encode_state_draft.
  repeat case_match; congruence.
Qed.

Lemma play_through_draft_items fuel env u env' :
  Battle.play_through_draft fuel env = Ok u env' ->
  Battle.items env' = Battle.items env.
Proof.
  revert env. induction fuel as [|fuel IH]; intros env; simpl; [done |].
  case_match; [|congruence].
  case_match. intros Hrun. by apply IH in Hrun.
Qed.

Lemma reset_returns_encoding fuel env o env' :
  Battle.reset fuel env = Ok o env' ->
  Battle.encode_state env' = Ok o env' /\ Battle.items env' = Battle.items env.
Proof.
  unfold Battle.reset, bind, modify. 
  destruct (base_reset _ _ _ _ _) as [sd st].
  destruct (Battle.play_through_draft fuel _) as [[] env1| |] eqn:Hplay; try done.
  apply play_through_draft_items in Hplay. simpl in Hplay.
  intros Henc. pose proof (encode_state_pure _ _ _ Henc) as ->.
  split; [done |]. by rewrite <- Hplay.
Qed.

Lemma concat_zero_slots (m w : nat) :
  concat (replicate m (replicate w 0%Q)) = replicate (w * m) 0%Q.
Proof.
  induction m as [|m IH]; simpl.
  - by rewrite Nat.mul_0_r.
  - rewrite IH, <- replicate_add. f_equal. lia.
Qed.

(** The slot packer on encoded cards is the packed block of the
    specification. *)
Lemma fill_cards_packed (features : Card -> list Q) (w C : nat) (cards : list Card) :
  (length cards <= C)%nat ->
  fill_cards (features <$> cards) (Z.of_nat C) (Z.of_nat w)
  = (features <$> cards) ++ replicate (C - length cards) (replicate w 0%Q)
  /\ features_of (fill_cards (features <$> cards) (Z.of_nat C) (Z.of_nat w))
     = BattleLayout.packed features w C cards.
Proof.
  intros Hle.
  assert (Heq : fill_cards (features <$> cards) (Z.of_nat C) (Z.of_nat w)
                = (features <$> cards)
                  ++ replicate (C - length cards) (replicate w 0%Q)).
  { rewrite fill_cards_eq, length_fmap, Nat2Z.id. do 2 f_equal. lia. }
  split; [exact Heq |].
  rewrite Heq. unfold features_of, BattleLayout.packed.
  by rewrite concat_app, concat_zero_slots.
Qed.

Lemma hand_block_packed items p0 :
  (length (hand p0) <= 8)%nat ->
  Battle.hand_block items p0
  = (BattleLayout.hand_features items <$> hand p0)
    ++ replicate (8 - length (hand p0))
                 (replicate (BattleLayout.hand_width items) 0%Q)
  /\ features_of (Battle.hand_block items p0)
     = BattleLayout.packed (BattleLayout.hand_features items)
                           (BattleLayout.hand_width items) 8 (hand p0).
Proof.
  intros Hle. unfold Battle.hand_block.
  destruct items; simpl negb; cbv iota.
  - exact (fill_cards_packed encode_card 16 8 (hand p0) Hle).
  - rewrite <- list_fmap_compose.
    exact (fill_cards_packed (fun c => drop 4 (encode_card c)) 12 8 (hand p0) Hle).
Qed.

Lemma lane_block_packed enc (w : nat) lane :
  (length lane <= 3)%nat ->
  Battle.lane_block enc (Z.of_nat w) lane
  = (enc <$> lane) ++ replicate (3 - length lane) (replicate w 0%Q)
  /\ features_of (Battle.lane_block enc (Z.of_nat w) lane)
     = BattleLayout.packed enc w 3 lane.
Proof. intros Hle. exact (fill_cards_packed enc w 3 lane Hle). Qed.

Lemma layout_as_specified items st :
  Battle.well_formed st = true ->
  Battle.layout items st = BattleLayout.spec_layout items st.
Proof.
  unfold Battle.well_formed. simpl forallb. rewrite !andb_true_r.
  rewrite !andb_true_iff, !Nat.leb_le.
  intros ((((_ & Hh) & _) & (Hf1 & _) & Hf2 & _) & (He1 & _) & He2 & _).
  unfold Battle.layout, BattleLayout.spec_layout.
  destruct (hand_block_packed items (current_player st) Hh) as [_ ->].
  destruct (lane_block_packed encode_friendly_card_on_board 9 _ Hf1) as [_ Ef1].
  destruct (lane_block_packed encode_friendly_card_on_board 9 _ Hf2) as [_ Ef2].
  destruct (lane_block_packed encode_enemy_card_on_board 8 _ He1) as [_ Ee1].
  destruct (lane_block_packed encode_enemy_card_on_board 8 _ He2) as [_ Ee2].
  change (Z.of_nat 9) with 9 in *. change (Z.of_nat 8) with 8 in *.
  by rewrite Ef1, Ef2, Ee1, Ee2.
Qed.

(** A packed block, slot by slot. *)
Lemma packed_slots (features : Card -> list Q) (w C : nat) (cards : list Card)
    (rest : list Q) :
  Forall (fun c => length (features c) = w) cards -> (length cards <= C)%nat ->
  length (BattleLayout.packed features w C cards) = (w * C)%nat
  /\ (forall i card, cards !! i = Some card ->
        take w (drop (w * i) (BattleLayout.packed features w C cards ++ rest))
        = features card)
  /\ (forall i, (length cards <= i < C)%nat ->
        take w (drop (w * i) (BattleLayout.packed features w C cards ++ rest))
        = replicate w 0%Q).
Proof.
  intros Hw Hle. unfold BattleLayout.packed.
  assert (Hall : Forall (fun b : list Q => length b = w) (features <$> cards))
    by by apply Forall_fmap.
  assert (Hlen : length (concat (features <$> cards)) = (w * length cards)%nat).
  { rewrite (concat_length_uniform _ w Hall), length_fmap. lia. }
  split; [|split].
  - rewrite length_app, Hlen, length_replicate. nia.
  - intros i card Hi. rewrite <- !app_assoc.
    apply concat_slot; [done |]. by rewrite list_lookup_fmap, Hi.
  - intros i [Hlo Hhi]. rewrite <- !app_assoc.
    replace (w * i)%nat with (w * length cards + w * (i - length cards))%nat by nia.
    rewrite <- drop_drop, drop_app_length' by done.
    replace (w * (C - length cards))%nat
      with (w * (i - length cards) + (w + w * (C - S i)))%nat by nia.
    rewrite replicate_add, <- app_assoc, drop_app_length'
      by by rewrite length_replicate.
    rewrite replicate_add, <- app_assoc.
    by rewrite take_app_length' by by rewrite length_replicate.
Qed.

(** C2. In the battle phase, on a state within the engine's capacities,
    [encode_state] returns the flat vector that the specification lays
    out: both players' 8 attributes, the acting player's hand packed to 8
    slots, its two lanes packed to 3 slots of 9 features each, the
    opponent's two lanes packed to 3 slots of 8 features each.  Packed
    means: the slots hold the features of the cards in the order of the
    cards and the slots that are left are zero, for the array and for the
    blocks that the code builds with [fill_cards].  The length is
    [8 + 8*H_w + 2*3*9 + 2*3*8], that is 238 with items and 206 without.
    What [reset] returns is that vector for the state it leaves, so its
    length is the same after every reset of an instance. *)
Theorem battle_observation_shape (fuel : nat) (env0 env : Battle.Env) (o : Obs) :
  assembler_of (phase (Battle.state env)) = Some BattleAssembler ->
  Battle.well_formed (Battle.state env) = true ->
  let items := Battle.items env in
  let p0 := current_player (Battle.state env) in
  let p1 := opposing_player (Battle.state env) in
  let v := BattleLayout.spec_layout items (Battle.state env) in
  let H_w := if items then 16 else 12 in
  let hw := BattleLayout.hand_width items in
  Battle.encode_state env = Ok (Some v) env
  /\ Z.of_nat (length v) = 8 + 8 * H_w + 2 * 3 * 9 + 2 * 3 * 8
  /\ length v = (if items then 238 else 206)%nat
  /\ take 8 v = encode_players p0 p1
  /\ (forall i card, hand p0 !! i = Some card ->
        take hw (drop (8 + hw * i) v) = BattleLayout.hand_features items card)
  /\ (forall i, (length (hand p0) <= i < 8)%nat ->
        take hw (drop (8 + hw * i) v) = replicate hw 0%Q)
  /\ take (3 * 9) (drop (8 + 8 * hw) v)
     = BattleLayout.packed encode_friendly_card_on_board 9 3 (fst (lanes p0))
  /\ take (3 * 9) (drop (8 + 8 * hw + 3 * 9) v)
     = BattleLayout.packed encode_friendly_card_on_board 9 3 (snd (lanes p0))
  /\ take (3 * 8) (drop (8 + 8 * hw + 2 * (3 * 9)) v)
     = BattleLayout.packed encode_enemy_card_on_board 8 3 (fst (lanes p1))
  /\ drop (8 + 8 * hw + 2 * (3 * 9) + 3 * 8) v
     = BattleLayout.packed encode_enemy_card_on_board 8 3 (snd (lanes p1))
  /\ Forall (fun lane =>
              (forall i card, lane !! i = Some card ->
                 take 9 (drop (9 * i)
                           (BattleLayout.packed encode_friendly_card_on_board 9 3 lane))
                 = encode_friendly_card_on_board card)
              /\ (forall i, (length lane <= i < 3)%nat ->
                    take 9 (drop (9 * i)
                              (BattleLayout.packed encode_friendly_card_on_board 9 3 lane))
                    = replicate 9 0%Q))
            [fst (lanes p0); snd (lanes p0)]
  /\ Forall (fun lane =>
              (forall i card, lane !! i = Some card ->
                 take 8 (drop (8 * i)
                           (BattleLayout.packed encode_enemy_card_on_board 8 3 lane))
                 = encode_enemy_card_on_board card)
              /\ (forall i, (length lane <= i < 3)%nat ->
                    take 8 (drop (8 * i)
                              (BattleLayout.packed encode_enemy_card_on_board 8 3 lane))
                    = replicate 8 0%Q))
            [fst (lanes p1); snd (lanes p1)]
  /\ Battle.hand_block items p0
     = (BattleLayout.hand_features items <$> hand p0)
       ++ replicate (8 - length (hand p0)) (replicate hw 0%Q)
  /\ length (Battle.hand_block items p0) = 8%nat
  /\ Forall (fun lane =>
              Battle.lane_block encode_friendly_card_on_board 9 lane
              = (encode_friendly_card_on_board <$> lane)
                ++ replicate (3 - length lane) (replicate 9 0%Q)
              /\ length (Battle.lane_block encode_friendly_card_on_board 9 lane)
                 = 3%nat)
            [fst (lanes p0); snd (lanes p0)]
  /\ Forall (fun lane =>
              Battle.lane_block encode_enemy_card_on_board 8 lane
              = (encode_enemy_card_on_board <$> lane)
                ++ replicate (3 - length lane) (replicate 8 0%Q)
              /\ length (Battle.lane_block encode_enemy_card_on_board 8 lane)
                 = 3%nat)
            [fst (lanes p1); snd (lanes p1)]
  /\ (Battle.reset fuel env0 = Ok o env ->
      o = Some v /\ Battle.items env = Battle.items env0
      /\ Z.of_nat (length v) = Battle.state_shape (Battle.items env0)).
Proof.
  intros Hasm Hwf items p0 p1 v H_w hw.
  destruct (encode_state_battle_layout env Hwf) as [Henc Hlen].
  rewrite (layout_as_specified _ _ Hwf) in Henc, Hlen. fold items v in Henc, Hlen.
  assert (Hrun : Battle.encode_state env = Ok (Some v) env).
  { unfold Battle.encode_state. rewrite Hasm, Henc. done. }
  destruct (state_shape_value items) as [Hs1 Hs2].
  assert (Hparts := Hwf). revert Hparts. unfold Battle.well_formed.
  simpl forallb. rewrite !andb_true_r, !andb_true_iff, !Nat.leb_le, Nat.eqb_eq.
  fold p0 p1.
  intros ((((Hp & Hh) & Hhw) & (Hf1 & Hf1w) & Hf2 & Hf2w) & (He1 & He1w) & He2 & He2w).
  pose proof Hf1w as Bf1. pose proof Hf2w as Bf2.
  pose proof He1w as Be1. pose proof He2w as Be2.
  apply widths_Forall in Hf1w, Hf2w, He1w, He2w.
  assert (Hhf : Forall (fun c => length (BattleLayout.hand_features items c) = hw)
                       (hand p0)).
  { apply widths_Forall in Hhw. eapply Forall_impl; [exact Hhw |].
    intros c Hc. unfold BattleLayout.hand_features, hw, BattleLayout.hand_width.
    destruct items; [done |]. rewrite length_drop, Hc. done. }
  set (HB := BattleLayout.packed (BattleLayout.hand_features items) hw 8 (hand p0)).
  set (F1 := BattleLayout.packed encode_friendly_card_on_board 9 3 (fst (lanes p0))).
  set (F2 := BattleLayout.packed encode_friendly_card_on_board 9 3 (snd (lanes p0))).
  set (E1 := BattleLayout.packed encode_enemy_card_on_board 8 3 (fst (lanes p1))).
  set (E2 := BattleLayout.packed encode_enemy_card_on_board 8 3 (snd (lanes p1))).
  assert (Hv : v = encode_players p0 p1 ++ HB ++ F1 ++ F2 ++ E1 ++ E2) by done.
  destruct (packed_slots _ hw 8 (hand p0) (F1 ++ F2 ++ E1 ++ E2) Hhf Hh)
    as (LH & Hcard & Hzero). fold HB in LH, Hcard, Hzero.
  destruct (packed_slots _ 9 3 _ [] Hf1w Hf1) as (LF1 & Sf1 & Zf1).
  destruct (packed_slots _ 9 3 _ [] Hf2w Hf2) as (LF2 & Sf2 & Zf2).
  destruct (packed_slots _ 8 3 _ [] He1w He1) as (LE1 & Se1 & Ze1).
  destruct (packed_slots _ 8 3 _ [] He2w He2) as (LE2 & Se2 & Ze2).
  fold F1 in LF1. fold F2 in LF2. fold E1 in LE1. fold E2 in LE2.
  split; [done |]. split; [subst H_w; lia |].
  split; [destruct items; lia |].
  split; [rewrite Hv; by apply take_app_length' |].
  split.
  { intros i card Hi. rewrite Hv, <- drop_drop, drop_app_length' by done.
    by apply Hcard. }
  split.
  { intros i Hi. rewrite Hv, <- drop_drop, drop_app_length' by done.
    by apply Hzero. }
  split.
  { rewrite Hv, <- drop_drop, drop_app_length' by done.
    rewrite drop_app_length' by lia. by apply take_app_length'. }
  split.
  { rewrite Hv, <- !drop_drop, drop_app_length' by done.
    rewrite drop_app_length' by lia. rewrite drop_app_length' by lia.
    by apply take_app_length'. }
  split.
  { rewrite Hv. replace (8 + 8 * hw + 2 * (3 * 9))%nat
      with (8 + 8 * hw + 3 * 9 + 3 * 9)%nat by lia.
    rewrite <- !drop_drop, drop_app_length' by done.
    rewrite drop_app_length' by lia. rewrite drop_app_length' by lia.
    rewrite drop_app_length' by lia. by apply take_app_length'. }
  split.
  { rewrite Hv. replace (8 + 8 * hw + 2 * (3 * 9) + 3 * 8)%nat
      with (8 + 8 * hw + 3 * 9 + 3 * 9 + 3 * 8)%nat by lia.
    rewrite <- !drop_drop, drop_app_length' by done.
    rewrite drop_app_length' by lia. rewrite drop_app_length' by lia.
    rewrite drop_app_length' by lia. by rewrite drop_app_length' by lia. }
  assert (Hone : forall enc w lane,
               Forall (fun c => length (enc c) = w) lane -> (length lane <= 3)%nat ->
               (forall i card, lane !! i = Some card ->
                  take w (drop (w * i) (BattleLayout.packed enc w 3 lane)) = enc card)
               /\ (forall i, (length lane <= i < 3)%nat ->
                     take w (drop (w * i) (BattleLayout.packed enc w 3 lane))
                     = replicate w 0%Q)).
  { intros enc w lane Hw Hl.
    destruct (packed_slots enc w 3 lane [] Hw Hl) as (_ & Hs & Hz).
    rewrite app_nil_r in Hs, Hz. by split. }
  split.
  { do 2 (apply Forall_cons_2; [by apply Hone |]). apply Forall_nil_2. }
  split.
  { do 2 (apply Forall_cons_2; [by apply Hone |]). apply Forall_nil_2. }
  split; [by apply hand_block_packed |].
  split; [by apply hand_block_length |].
  split.
  { do 2 (apply Forall_cons_2;
          [split; [by apply (lane_block_packed _ 9) | by apply (lane_block_length _ 9)] |]).
    apply Forall_nil_2. }
  split.
  { do 2 (apply Forall_cons_2;
          [split; [by apply (lane_block_packed _ 8) | by apply (lane_block_length _ 8)] |]).
    apply Forall_nil_2. }
  intros Hreset. apply reset_returns_encoding in Hreset as [Ho Hitems].
  rewrite Hrun in Ho. injection Ho as <-. rewrite <- Hitems. done.
Qed.
End BattleObservation.

(* ===================================================================== *)
(** ** Stepping a finished phase *)
(* ===================================================================== *)

Section AlreadyEnded.
Context `{Eng : Engine} `{Ag : !Agents} `{Base : !BaseEnv}.

Lemma battle_step_ended env action :
  _battle_is_finished (Battle.state env) = true ->
  Battle.step action env = Raise GameIsEndedError env.
Proof. intros Hfin. unfold Battle.step. by rewrite Hfin. Qed.

Lemma draft_step_ended fuel env action :
  _draft_is_finished (Draft.state env) = true ->
  Draft.step fuel action env = Raise GameIsEndedError env.
Proof. intros Hfin. unfold Draft.step, bind, get, raise. by rewrite Hfin. Qed.

(** C7. Once the phase of the environment is finished, [step] raises
    [GameIsEndedError] before it looks at the action, and the
    environment, the engine state in it included, is as it was.  This
    holds for [LOCMBattleEnv.step] and [LOCMDraftEnv.step] whatever the
    argument, and for the single-opponent and self-play battle
    schedulers, which call the former first.  [LOCMDraftSingleEnv.step]
    raises the same error with the parent part, the engine state in it,
    as it was; when the learner plays second it has asked the draft
    agent for its move by then. *)
Theorem step_after_end_raises :
  (forall (env : Battle.Env) action,
      _battle_is_finished (Battle.state env) = true ->
      Battle.step action env = Raise GameIsEndedError env)
  /\ (forall fuel (env : Draft.Env) action,
      _draft_is_finished (Draft.state env) = true ->
      Draft.step fuel action env = Raise GameIsEndedError env)
  /\ (forall fuel (env : BattleSingle.Env) action,
      _battle_is_finished (BattleSingle.state env) = true ->
      BattleSingle.step fuel action env = Raise GameIsEndedError env)
  /\ (forall fuel (env : BattleSelfPlay.Env) action,
      _battle_is_finished (BattleSelfPlay.state env) = true ->
      BattleSelfPlay.step fuel action env = Raise GameIsEndedError env)
  /\ (forall fuel (env : DraftSingle.Env) action,
      _draft_is_finished (Draft.state (DraftSingle.parent env)) = true ->
      exists env', DraftSingle.step fuel action env = Raise GameIsEndedError env'
                   /\ DraftSingle.parent env' = DraftSingle.parent env).
Proof.
  split; [exact battle_step_ended |]. split; [exact draft_step_ended |].
  split; [|split].
  - intros fuel env action Hfin.
    unfold BattleSingle.step, BattleSingle.step_calls, BattleSingle.super_step,
      bind, get, super.
    rewrite (battle_step_ended _ _ Hfin). by destruct env.
  - intros fuel env action Hfin.
    unfold BattleSelfPlay.step, BattleSelfPlay.step_calls, BattleSelfPlay.super_step,
      bind, get, super.
    rewrite (battle_step_ended _ _ Hfin). by destruct env.
  - intros fuel env action Hfin.
    unfold DraftSingle.step, DraftSingle.super_step, DraftSingle.ask_agent,
      bind, get, super.
    destruct (DraftSingle.play_first env).
    + rewrite (draft_step_ended _ _ _ Hfin). eexists. split; [done |]. by destruct env.
    + destruct (agent_act _ _) as [a agent]. simpl.
      rewrite (draft_step_ended _ _ _ Hfin). eexists. split; done.
Qed.
End AlreadyEnded.

(* ===================================================================== *)
(** ** Inputs of [step] that are not actions *)
(* ===================================================================== *)

Section MalformedInput.
Context `{Eng : Engine} `{Ag : !Agents} `{Base : !BaseEnv}.

(** What [int] raises decides what [step] raises: only [ValueError]
    becomes [MalformedActionError]. *)
Lemma action_of_input_raises st items (x : PyVal Action) e :
  (forall a, x <> PyAction a) -> py_int x = inl e ->
  action_of_input st items x
  = inl (if Exn_eqb e ValueError then MalformedActionError else e).
Proof.
  intros Hx Hint. unfold action_of_input.
  destruct x; try (by rewrite Hint; destruct e); by destruct (Hx a).
Qed.

Lemma battle_step_bad_input env (x : PyVal Action) e :
  _battle_is_finished (Battle.state env) = false ->
  (forall a, x <> PyAction a) -> py_int x = inl e ->
  Battle.step x env
  = Raise (if Exn_eqb e ValueError then MalformedActionError else e) env.
Proof.
  intros Hfin Hx Hint. unfold Battle.step.
  by rewrite Hfin, (action_of_input_raises _ _ _ _ Hx Hint).
Qed.

Lemma draft_step_bad_input fuel env (x : PyVal Action) e :
  _draft_is_finished (Draft.state env) = false ->
  (forall a, x <> PyAction a) -> py_int x = inl e ->
  Draft.step fuel x env
  = Raise (if Exn_eqb e ValueError then MalformedActionError else e) env.
Proof.
  intros Hfin Hx Hint. unfold Draft.step, bind, get, lift_exc.
  by rewrite Hfin, (action_of_input_raises _ _ _ _ Hx Hint).
Qed.
End MalformedInput.

(* ===================================================================== *)
(** ** The draft action remapping *)
(* ===================================================================== *)

Section DraftCodec.
Context `{Eng : Engine} `{Ag : !Agents} `{Base : !BaseEnv}.

Lemma py_index_lookup {A} (l : list A) (i : nat) (x : A) :
  l !! i = Some x -> py_index l (Z.of_nat i) = inr x.
Proof.
  intros Hl. pose proof (lookup_lt_Some _ _ _ Hl) as Hlt.
  unfold py_index, py_pos.
  destruct (Z.leb_spec 0 (Z.of_nat i)); [|lia].
  destruct (Z.ltb_spec (Z.of_nat i) (Z.of_nat (length l))); [|lia].
  simpl. by rewrite Nat2Z.id, Hl.
Qed.

End DraftCodec.

(* ===================================================================== *)
(** ** The turn schedulers of the battle environments *)
(* ===================================================================== *)

Section WellScheduled.
Context {A : Type}.
Implicit Types calls : list (Call A).



End WellScheduled.

Section BattleStep.
Context `{Eng : Engine} `{Ag : !Agents} `{Base : !BaseEnv}.

Lemma raw_reward_code w :
  (if PlayerOrder_eqb w FIRST then 1 else -1) = raw_reward (Some w).
Proof. by destruct w. Qed.

(** What a returning [LOCMBattleEnv.step] reports is read off the state
    it leaves. *)
Lemma battle_step_ok action env r env' :
  Battle.step action env = Ok r env' ->
  reward r = raw_reward (winner (Battle.state env'))
  /\ done r = bool_decide (winner (Battle.state env') <> None)
  /\ Battle.info_invalid (info r) = was_last_action_invalid (Battle.state env')
  /\ Battle.info_winner (info r) = winner (Battle.state env')
  /\ _battle_is_finished (Battle.state env) = false.
Proof.
  unfold Battle.step.
  destruct (_battle_is_finished (Battle.state env)); [done |].
  destruct (action_of_input _ _ action) as [e|a]; [done |].
  set (st := match a with Some a0 => act (Battle.state env) a0
                     | None => set_was_last_action_invalid (Battle.state env) true end).
  assert (Hsettled : forall rw rs,
    (o <- Battle.encode_state ;;
     ret (mkStep o rw (bool_decide (winner st <> None))
            (Battle.mkInfo (phase st) (turn st) (winner st) (was_last_action_invalid st)
               (if Battle.return_action_mask (Battle.set_state st env)
                then Some (action_mask st) else None))))%env
      (Battle.set_rewards rs (Battle.set_state st env)) = Ok r env' ->
    rw = raw_reward (winner st) ->
    reward r = raw_reward (winner (Battle.state env'))
    /\ done r = bool_decide (winner (Battle.state env') <> None)
    /\ Battle.info_invalid (info r) = was_last_action_invalid (Battle.state env')
    /\ Battle.info_winner (info r) = winner (Battle.state env')
    /\ false = false).
  { intros rw rs Hrun Hrw. unfold bind, ret in Hrun.
    destruct (Battle.encode_state _) as [o e1| |] eqn:Henc; try done.
    apply encode_state_pure in Henc as ->. injection Hrun as <- <-. by simpl. }
  destruct (winner st) as [w|] eqn:Hw.
  - unfold exc_map, exc_bind.
    destruct (add_to_last _ _) as [e|rs]; [done |].
    intros Hrun. apply (Hsettled _ _ Hrun). apply raw_reward_code.
  - intros Hrun. by apply (Hsettled _ _ Hrun).
Qed.
End BattleStep.

Section SingleScheduler.
Context `{Eng : Engine} `{Ag : !Agents} `{Base : !BaseEnv}.
Import BattleSingle.

Lemma single_super_step action env r env' :
  super_step action env = Ok r env' ->
  Battle.step action (parent env) = Ok r (parent env')
  /\ play_first env' = play_first env.
Proof.
  unfold super_step, super.
  destruct (Battle.step action (parent env)) as [a p| |] eqn:Hstep; try done.
  intros [= <- <-]. by destruct env.
Qed.

Lemma single_super_step_ok action env r env' :
  super_step action env = Ok r env' ->
  reward r = raw_reward (winner (state env'))
  /\ done r = bool_decide (winner (state env') <> None)
  /\ play_first env' = play_first env.
Proof.
  intros Hstep. apply single_super_step in Hstep as [Hstep Hpf].
  apply battle_step_ok in Hstep as (Hr & Hd & _). by unfold state.
Qed.

Lemma single_opponent_loop fuel player (prev : Battle.Result) env rs env' :
  opponent_loop fuel player prev env = Ok rs env' ->
  reward prev = raw_reward (winner (state env)) ->
  done prev = bool_decide (winner (state env) <> None) ->
  reward (fst rs) = raw_reward (winner (state env'))
  /\ done (fst rs) = bool_decide (winner (state env') <> None)
  /\ play_first env' = play_first env
  /\ well_scheduled (snd rs) = true
  /\ Forall (fun c => call_forced c = true -> call_input c = PyInt 0) (snd rs)
  /\ (snd rs = [] -> fst rs = prev)
  /\ (forall c, last (snd rs) = Some c -> call_done c = done (fst rs)).
Proof.
  revert prev env rs env'. induction fuel as [|fuel IH]; intros prev env rs env'; [done |].
  simpl. case_match.
  2:{ intros [= <- <-] Hr Hd. simpl. repeat split; try done. }
  unfold bind at 1. unfold ask_agent.
  destruct (agent_act _ _) as [action agent].
  set (env1 := set_battle_agent agent env).
  unfold bind at 1.
  destruct (super_step (PyAction action) env1) as [r env2| |] eqn:Hstep; try done.
  pose proof (single_super_step_ok _ _ _ _ Hstep) as (Hr2 & Hd2 & Hpf2).
  destruct (Battle.info_invalid (info r) && negb (done r)) eqn:Hbad.
  - unfold bind, ret.
    destruct (super_step (PyInt 0) env2) as [r3 env3| |] eqn:Hforce; try done.
    pose proof (single_super_step_ok _ _ _ _ Hforce) as (Hr3 & Hd3 & Hpf3).
    intros [= <- <-] _ _. simpl. rewrite Hbad.
    repeat split; try done.
    + by rewrite Hpf3, Hpf2.
    + repeat constructor; simpl; done.
    + intros c [= <-]. done.
  - unfold bind at 1.
    destruct (opponent_loop fuel player r env2) as [rs2 env3| |] eqn:Hloop; try done.
    destruct (IH _ _ _ _ Hloop Hr2 Hd2) as (Hr3 & Hd3 & Hpf3 & Hws & Hin & Hnil & Hlast).
    intros [= <- <-] _ _. simpl. rewrite Hbad.
    repeat split; try done.
    + by rewrite Hpf3, Hpf2.
    + constructor; [done | exact Hin].
    + intros c. destruct (snd rs2) as [|c2 rest] eqn:Hcalls.
      * simpl. intros [= <-]. simpl. by rewrite Hnil.
      * intros Hc. apply Hlast. exact Hc.
Qed.
End SingleScheduler.

Section SelfPlayScheduler.
Context `{Eng : Engine} `{Ag : !Agents} `{Base : !BaseEnv}.
Import BattleSelfPlay.

Lemma selfplay_super_step_ok action env r env' :
  super_step action env = Ok r env' ->
  reward r = raw_reward (winner (state env'))
  /\ done r = bool_decide (winner (state env') <> None)
  /\ play_first env' = play_first env.
Proof.
  unfold super_step, super.
  destruct (Battle.step action (parent env)) as [a p| |] eqn:Hstep; try done.
  intros [= <- <-]. apply battle_step_ok in Hstep as (Hr & Hd & _).
  by destruct env.
Qed.

Lemma ask_policy_pure env a env' : ask_policy env = Ok a env' -> env' = env.
Proof.
  unfold ask_policy, bind, super, get.
  destruct (Battle.encode_state (parent env)) as [o p| |] eqn:Henc; try done.
  apply encode_state_pure in Henc as ->.
  simpl. destruct (adversary_policy env); [|done].
  intros [= _ <-]. by destruct env.
Qed.

(** One round of the adversary: one opponent move, and the forced move
    exactly when that move came back invalid with the game still on. *)
Lemma adversary_round_ok env r calls brk env' :
  adversary_round env = Ok (r, calls, brk) env' ->
  reward r = raw_reward (winner (state env'))
  /\ done r = bool_decide (winner (state env') <> None)
  /\ play_first env' = play_first env
  /\ exists c, call_forced c = false
       /\ if brk
          then call_invalid c = true /\ call_done c = false
               /\ calls = [c; mkCall (PyInt 0) true (Battle.info_invalid (info r)) (done r)]
          else call_invalid c && negb (call_done c) = false
               /\ call_done c = done r /\ calls = [c].
Proof.
  unfold adversary_round. unfold bind at 1.
  destruct (ask_policy env) as [a env1| |] eqn:Hask; try done.
  apply ask_policy_pure in Hask as ->.
  unfold bind at 1.
  destruct (super_step a env) as [r1 env2| |] eqn:Hstep; try done.
  pose proof (selfplay_super_step_ok _ _ _ _ Hstep) as (Hr2 & Hd2 & Hpf2).
  destruct (Battle.info_invalid (info r1) && negb (done r1)) eqn:Hbad.
  - unfold bind, ret.
    destruct (super_step (PyInt 0) env2) as [r3 env3| |] eqn:Hforce; try done.
    pose proof (selfplay_super_step_ok _ _ _ _ Hforce) as (Hr3 & Hd3 & Hpf3).
    intros [= <- <- <- <-].
    apply andb_true_iff in Hbad as [Hinv Hdone]. apply negb_true_iff in Hdone.
    repeat split; try done; [by rewrite Hpf3, Hpf2 |].
    by eexists (mkCall a false _ _).
  - unfold ret. intros [= <- <- <- <-].
    repeat split; try done.
    by eexists (mkCall a false _ _).
Qed.

Lemma selfplay_opponent_loop fuel player (prev : Battle.Result) env rs env' :
  opponent_loop fuel player prev env = Ok rs env' ->
  reward prev = raw_reward (winner (state env)) ->
  done prev = bool_decide (winner (state env) <> None) ->
  reward (fst rs) = raw_reward (winner (state env'))
  /\ done (fst rs) = bool_decide (winner (state env') <> None)
  /\ play_first env' = play_first env
  /\ well_scheduled (snd rs) = true
  /\ Forall (fun c => call_forced c = true -> call_input c = PyInt 0) (snd rs)
  /\ (snd rs = [] -> fst rs = prev)
  /\ (forall c, last (snd rs) = Some c -> call_done c = done (fst rs)).
Proof.
  revert prev env rs env'.
  induction fuel as [|fuel IH]; intros prev env rs env'; [done |].
  simpl. case_match.
  2:{ intros [= <- <-] Hr Hd. simpl. repeat split; try done. }
  unfold bind at 1.
  destruct (adversary_round env) as [[[r calls] brk] env2| |] eqn:Hround; try done.
  apply adversary_round_ok in Hround as (Hr2 & Hd2 & Hpf2 & c & Hcf & Hshape).
  simpl. destruct brk.
  - destruct Hshape as (Hinv & Hdone & ->).
    unfold ret. intros [= <- <-] _ _. simpl. rewrite Hcf, Hinv, Hdone. simpl.
    repeat split; try done.
    + constructor; [intros; congruence | constructor; [done | constructor]].
    + by intros c' [= <-].
  - destruct Hshape as (Hbad & Hcd & ->).
    unfold bind, ret.
    destruct (opponent_loop fuel player r env2) as [rs2 env3| |] eqn:Hloop; try done.
    destruct (IH _ _ _ _ Hloop Hr2 Hd2) as (Hr3 & Hd3 & Hpf3 & Hws & Hin & Hnil & Hlast).
    intros [= <- <-] _ _. simpl. rewrite Hcf, Hbad. simpl.
    repeat split; try done.
    + by rewrite Hpf3, Hpf2.
    + constructor; [congruence | exact Hin].
    + intros c'. destruct (snd rs2) as [|c2 rest] eqn:Hcalls.
      * simpl. intros [= <-]. by rewrite Hnil.
      * intros Hc. by apply Hlast.
Qed.

Lemma selfplay_opening_play_first fuel env cs env' :
  opening fuel env = Ok cs env' -> play_first env' = play_first env.
Proof.
  revert env cs env'. induction fuel as [|fuel IH]; intros env cs env'; [done |].
  simpl. case_match; [|by intros [= <- <-]].
  unfold bind at 1.
  destruct (adversary_round env) as [[[r calls] brk] env2| |] eqn:Hround; try done.
  apply adversary_round_ok in Hround as (_ & _ & Hpf2 & _).
  simpl. destruct brk.
  - unfold ret. by intros [= <- <-].
  - unfold bind, ret.
    destruct (opening fuel env2) as [cs2 env3| |] eqn:Hloop; try done.
    intros [= <- <-]. rewrite <- Hpf2. by eapply IH.
Qed.
End SelfPlayScheduler.

Section SchedulerTheorems.
Context `{Eng : Engine} `{Ag : !Agents} `{Base : !BaseEnv}.

Lemma single_step_calls_ok fuel action env r calls env' :
  BattleSingle.step_calls fuel action env = Ok (r, calls) env' ->
  reward r
  = (if BattleSingle.play_first env
     then raw_reward (winner (BattleSingle.state env'))
     else - raw_reward (winner (BattleSingle.state env')))
  /\ done r = bool_decide (winner (BattleSingle.state env') <> None)
  /\ BattleSingle.play_first env' = BattleSingle.play_first env
  /\ well_scheduled calls = true
  /\ Forall (fun c => call_forced c = true -> call_input c = PyInt 0) calls
  /\ (forall c, last calls = Some c -> call_done c = done r).
Proof.
  unfold BattleSingle.step_calls, bind at 1, get. unfold bind at 1.
  destruct (BattleSingle.super_step action env) as [r1 env1| |] eqn:Hstep; try done.
  pose proof (single_super_step_ok _ _ _ _ Hstep) as (Hr1 & Hd1 & Hpf1).
  unfold bind at 1.
  destruct (BattleSingle.opponent_loop _ _ _ _) as [rs env2| |] eqn:Hloop; try done.
  destruct (single_opponent_loop _ _ _ _ _ _ Hloop Hr1 Hd1)
    as (Hr2 & Hd2 & Hpf2 & Hws & Hin & _ & Hlast).
  unfold bind, ret. intros [= <- <- <-]. simpl.
  rewrite Hpf2, Hpf1, Hr2. repeat split; try done.
  by destruct (BattleSingle.play_first env).
Qed.

Lemma selfplay_step_calls_ok fuel action env r calls env' :
  BattleSelfPlay.step_calls fuel action env = Ok (r, calls) env' ->
  reward r
  = (if BattleSelfPlay.play_first env
     then raw_reward (winner (BattleSelfPlay.state env'))
     else - raw_reward (winner (BattleSelfPlay.state env')))
  /\ done r = bool_decide (winner (BattleSelfPlay.state env') <> None)
  /\ BattleSelfPlay.play_first env' = BattleSelfPlay.play_first env
  /\ well_scheduled calls = true
  /\ Forall (fun c => call_forced c = true -> call_input c = PyInt 0) calls
  /\ (forall c, last calls = Some c -> call_done c = done r).
Proof.
  unfold BattleSelfPlay.step_calls, bind at 1, get. unfold bind at 1.
  destruct (BattleSelfPlay.super_step action env) as [r1 env1| |] eqn:Hstep; try done.
  pose proof (selfplay_super_step_ok _ _ _ _ Hstep) as (Hr1 & Hd1 & Hpf1).
  unfold bind at 1.
  destruct (BattleSelfPlay.opponent_loop _ _ _ _) as [rs env2| |] eqn:Hloop; try done.
  destruct (selfplay_opponent_loop _ _ _ _ _ _ Hloop Hr1 Hd1)
    as (Hr2 & Hd2 & Hpf2 & Hws & Hin & _ & Hlast).
  unfold bind, ret. intros [= <- <- <-]. simpl.
  rewrite Hpf2, Hpf1, Hr2. repeat split; try done.
  by destruct (BattleSelfPlay.play_first env).
Qed.

Lemma single_step_as_calls fuel action env r env' :
  BattleSingle.step fuel action env = Ok r env' ->
  exists calls, BattleSingle.step_calls fuel action env = Ok (r, calls) env'.
Proof.
  unfold BattleSingle.step, bind, ret.
  destruct (BattleSingle.step_calls fuel action env) as [[r1 calls] e| |]; try done.
  intros [= <- <-]. by exists calls.
Qed.

Lemma selfplay_step_as_calls fuel action env r env' :
  BattleSelfPlay.step fuel action env = Ok r env' ->
  exists calls, BattleSelfPlay.step_calls fuel action env = Ok (r, calls) env'.
Proof.
  unfold BattleSelfPlay.step, bind, ret.
  destruct (BattleSelfPlay.step_calls fuel action env) as [[r1 calls] e| |]; try done.
  intros [= <- <-]. by exists calls.
Qed.

End SchedulerTheorems.

(* ===================================================================== *)
(** ** Play order of the self-play battle environment *)
(* ===================================================================== *)

Section SelfPlayReset.
Context `{Eng : Engine} `{Ag : !Agents} `{Base : !BaseEnv}.
Import BattleSelfPlay.

Lemma selfplay_reset_calls_ok fuel env o cs env' :
  reset_calls fuel env = Ok (o, cs) env' ->
  play_first env' = negb (play_first env)
  /\ exists p, Battle.reset fuel (parent env) = Ok o p
       /\ if play_first env
          then opening fuel (mkEnv p false (adversary_policy env)) = Ok cs env'
          else cs = [] /\ env' = mkEnv p true (adversary_policy env).
Proof.
  unfold reset_calls. unfold bind at 1, super.
  destruct (Battle.reset fuel (parent env)) as [o1 p| |] eqn:Hreset; try done.
  unfold bind at 1, modify. unfold bind at 1, get. simpl.
  destruct (play_first env) eqn:Hpf; simpl.
  - unfold bind, ret.
    destruct (opening fuel _) as [cs1 env1| |] eqn:Hopen; try done.
    intros [= <- <- <-].
    apply selfplay_opening_play_first in Hopen as Hpf'. simpl in Hpf'.
    split; [done |]. exists p. split; [done |]. exact Hopen.
  - unfold bind, ret. intros [= <- <- <-]. split; [done |]. by exists p.
Qed.

Lemma selfplay_reset_play_first fuel env o env' :
  reset fuel env = Ok o env' -> play_first env' = negb (play_first env).
Proof.
  unfold reset, bind, ret.
  destruct (reset_calls fuel env) as [[o1 cs] env1| |] eqn:Hrun; try done.
  intros [= <- <-]. by apply selfplay_reset_calls_ok in Hrun as [? _].
Qed.

Lemma selfplay_step_play_first fuel action env r env' :
  step fuel action env = Ok r env' -> play_first env' = play_first env.
Proof.
  intros Hrun. apply selfplay_step_as_calls in Hrun as [calls Hrun].
  by apply selfplay_step_calls_ok in Hrun as (_ & _ & ? & _).
Qed.

(** C10. A [reset] of the self-play battle environment that returns has
    negated [play_first], and it did so before the opening loop, which
    runs exactly when the negated flag is false.  So the first episode
    after construction is played with the opposite of the constructed
    value, and over any run of resets and steps the flag is the initial
    one negated once per reset. *)
Theorem selfplay_reset_alternates (fuel : nat) :
  (forall env o cs env',
      reset_calls fuel env = Ok (o, cs) env' ->
      play_first env' = negb (play_first env)
      /\ exists p, Battle.reset fuel (parent env) = Ok o p
           /\ if play_first env
              then opening fuel (mkEnv p false (adversary_policy env)) = Ok cs env'
              else cs = [] /\ env' = mkEnv p true (adversary_policy env))
  /\ (forall p pf policy o env',
      reset fuel (__init__ p pf policy) = Ok o env' -> play_first env' = negb pf)
  /\ (forall requests env env',
      session fuel requests env = Ok tt env' ->
      play_first env'
      = if Nat.even (length (filter (fun q => is_reset q = true) requests))
        then play_first env else negb (play_first env)).
Proof.
  split; [intros; by apply selfplay_reset_calls_ok |].
  split; [intros p pf policy o env' Hrun;
          by apply selfplay_reset_play_first in Hrun |].
  intros requests. induction requests as [|q requests IH]; intros env env'.
  - by intros [= <-].
  - destruct q as [|action]; cbn [session]; unfold bind at 1.
    + destruct (reset fuel env) as [o env1| |] eqn:Hreset; try done.
      intros Hrest. apply IH in Hrest. apply selfplay_reset_play_first in Hreset.
      rewrite filter_cons_True by done. rewrite Hrest, Hreset.
      cbn [length]. rewrite Nat.even_succ, <- Nat.negb_even.
      destruct (Nat.even _), (play_first env); done.
    + destruct (step fuel action env) as [r env1| |] eqn:Hstep; try done.
      intros Hrest. apply IH in Hrest. apply selfplay_step_play_first in Hstep.
      rewrite filter_cons_False by done. by rewrite Hrest, Hstep.
Qed.
End SelfPlayReset.

(* ===================================================================== *)
(** ** Runs and what they leave unchanged *)
(* ===================================================================== *)

Section Framed.
Context {E : Type} (R : E -> E -> Prop).
Hypothesis R_refl : forall e, R e e.
Hypothesis R_trans : forall e1 e2 e3, R e1 e2 -> R e2 e3 -> R e1 e3.

Lemma framed_ret {A} (a : A) : framed R (ret a).
Proof. intros e a' e' [= _ <-]. apply R_refl. Qed.

Lemma framed_get : framed R get.
Proof. intros e a' e' [= _ <-]. apply R_refl. Qed.

Lemma framed_raise {A} x : framed R (@raise E A x).
Proof. by intros e a' e'. Qed.

Lemma framed_lift_exc {A} (m : Exc A) : framed R (lift_exc m).
Proof. intros e a' e'. unfold lift_exc. destruct m; [done |]. intros [= _ <-]. apply R_refl. Qed.

Lemma framed_modify (f : E -> E) : (forall e, R e (f e)) -> framed R (modify f).
Proof. intros Hf e a' e' [= _ <-]. apply Hf. Qed.

Lemma framed_bind {A B} (m : M E A) (f : A -> M E B) :
  framed R m -> (forall a, framed R (f a)) -> framed R (bind m f).
Proof.
  intros Hm Hf e b e'. unfold bind.
  destruct (m e) as [a e1| |] eqn:Hrun; [|done..].
  intros Hrun2. eapply R_trans; [by eapply Hm | by eapply Hf].
Qed.
End Framed.

Section DraftStep.
Context `{Eng : Engine} `{Ag : !Agents} `{Base : !BaseEnv}.
Import Draft DraftFrames.

Lemma ordering_only_refl e : ordering_only e e.
Proof. by destruct e. Qed.

Lemma ordering_only_trans e1 e2 e3 :
  ordering_only e1 e2 -> ordering_only e2 e3 -> ordering_only e1 e3.
Proof. unfold ordering_only. intros H1 H2. rewrite H2, H1. by destruct e1. Qed.

Lemma agents_only_refl e : agents_only e e.
Proof. by destruct e. Qed.

Lemma agents_only_trans e1 e2 e3 :
  agents_only e1 e2 -> agents_only e2 e3 -> agents_only e1 e3.
Proof. unfold agents_only. intros H1 H2. rewrite H2, H1. by destruct e1. Qed.

(** Splits a run into its steps, each of which leaves [R] alone. *)
Ltac framed_steps Hrefl Htrans :=
  repeat first
    [ apply (framed_bind _ Htrans)
    | apply (framed_ret _ Hrefl)
    | apply (framed_get _ Hrefl)
    | apply (framed_lift_exc _ Hrefl)
    | apply framed_raise
    | apply framed_modify; intros []; reflexivity
    | match goal with |- forall _, _ => intro end
    | match goal with
      | |- framed _ (if ?b then _ else _) => destruct b eqn:?
      | |- framed _ (match ?x with _ => _ end) => destruct x eqn:?
      end ].

Lemma encode_choices_framed v : framed ordering_only (encode_choices v).
Proof.
  unfold encode_choices. framed_steps ordering_only_refl ordering_only_trans.
Qed.

Lemma _encode_state_draft_framed : framed ordering_only _encode_state_draft.
Proof.
  unfold _encode_state_draft.
  framed_steps ordering_only_refl ordering_only_trans;
    apply encode_choices_framed.
Qed.

Lemma draft_encode_state_framed : framed ordering_only encode_state.
Proof.
  unfold encode_state, _encode_state_battle.
  framed_steps ordering_only_refl ordering_only_trans;
    apply _encode_state_draft_framed.
Qed.

Lemma match_loop_ok fuel st env w st' env' :
  match_loop fuel st env = Ok (w, st') env' ->
  winner st' = Some w /\ agents_only env env'.
Proof.
  revert st env. induction fuel as [|fuel IH]; intros st env; [done |].
  simpl. destruct (winner st) as [w0|] eqn:Hw.
  - intros [= <- <- <-]. split; [done |]. apply agents_only_refl.
  - destruct (agent_act _ _) as [action agent]. intros Hrun.
    apply IH in Hrun as [Hw' Henv]. split; [done |].
    eapply agents_only_trans; [|exact Henv]. by destruct env.
Qed.

Lemma do_match_ok fuel st env w st' env' :
  do_match fuel st env = Ok (w, st') env' ->
  winner st' = Some w /\ agents_only env env'.
Proof.
  unfold do_match, bind, modify. intros Hrun.
  apply match_loop_ok in Hrun as [Hw Henv]. split; [done |].
  eapply agents_only_trans; [|exact Henv]. by destruct env.
Qed.
End DraftStep.

Section RunInversion.
Context {E : Type}.

Lemma bind_Ok {A B} (m : M E A) (f : A -> M E B) e b e' :
  bind m f e = Ok b e' -> exists a e1, m e = Ok a e1 /\ f a e1 = Ok b e'.
Proof.
  unfold bind. destruct (m e) as [a e1| |]; [|done..]. intros Hf. by exists a, e1.
Qed.

Lemma get_Ok (e a e' : E) : get e = Ok a e' -> a = e /\ e' = e.
Proof. by intros [= <- <-]. Qed.

Lemma ret_Ok {A} (x a : A) (e e' : E) : ret x e = Ok a e' -> a = x /\ e' = e.
Proof. by intros [= <- <-]. Qed.

Lemma modify_Ok (f : E -> E) e a e' : modify f e = Ok a e' -> e' = f e.
Proof. by intros [= _ <-]. Qed.

Lemma lift_exc_Ok {A} (m : Exc A) (e : E) a e' :
  lift_exc m e = Ok a e' -> m = inr a /\ e' = e.
Proof. unfold lift_exc. destruct m; [done |]. by intros [= <- <-]. Qed.
End RunInversion.

Section DraftEvaluation.
Context `{Eng : Engine} `{Ag : !Agents} `{Base : !BaseEnv}.
Import Draft DraftFrames.

Lemma outcome_sign w : outcome w = 1 \/ outcome w = -1.
Proof. destruct w; [by left | by right]. Qed.

Lemma evaluation_loop_ok fuel trials env ws env' :
  evaluation_loop fuel trials env = Ok ws env' ->
  length ws = length trials
  /\ env' = set_results (results env ++ (outcome <$> ws))
                        (set_battle_agents (battle_agents env') env)
  /\ Forall (fun w => exists e1 e2 st',
               Draft.state e1 = Draft.state env
               /\ do_match fuel (clone (Draft.state env)) e1 = Ok (w, st') e2
               /\ winner st' = Some w) ws.
Proof.
  revert env ws. induction trials as [|t trials IH]; intros env ws; simpl.
  - intros [= <- <-]. split; [done |]. split; [|constructor].
    rewrite app_nil_r. by destruct env.
  - intros Hrun.
    apply bind_Ok in Hrun as (e0 & ? & [-> ->]%get_Ok & Hrun).
    apply bind_Ok in Hrun as ([w st'] & e1 & Hmatch & Hrun).
    pose proof (do_match_ok _ _ _ _ _ _ Hmatch) as [Hw He1].
    apply bind_Ok in Hrun as (? & e2 & ->%modify_Ok & Hrun).
    apply bind_Ok in Hrun as (ws1 & e3 & Hloop & [-> ->]%ret_Ok).
    apply IH in Hloop as (Hlen & He3 & Hall). simpl in *.
    split; [by rewrite Hlen |]. split.
    + rewrite He3. unfold agents_only in He1. rewrite He1.
      destruct env; simpl. unfold set_results, set_battle_agents.
      simpl. by rewrite <- app_assoc.
    + constructor.
      * by exists env, e1, st'.
      * eapply Forall_impl; [exact Hall |]. intros w' (x1 & x2 & st2 & Hst & Hm & Hw2).
        exists x1, x2, st2. unfold agents_only in He1.
        rewrite He1 in Hst, Hm. by destruct env.
Qed.

(** The evaluation with more than one battle, or with none. *)
Lemma evaluate_many fuel inf env rw inf' env' :
  evaluate fuel inf env = Ok (rw, inf') env' ->
  evaluation_battles env <> 1 ->
  exists ws,
    length ws = Z.to_nat (evaluation_battles env)
    /\ results env' = results env ++ (outcome <$> ws)
    /\ rw = np_mean (results env')
    /\ inf' = mkInfo (info_phase inf) None (info_winner inf ++ ws)
    /\ Draft.state env' = Draft.state env
    /\ evaluation_battles env' = evaluation_battles env
    /\ Forall (fun w => exists e1 e2 st',
                 Draft.state e1 = Draft.state env
                 /\ do_match fuel (clone (Draft.state env)) e1 = Ok (w, st') e2
                 /\ winner st' = Some w) ws.
Proof.
  intros Hrun HN. unfold evaluate in Hrun.
  apply bind_Ok in Hrun as (e0 & ? & [-> ->]%get_Ok & Hrun).
  apply bind_Ok in Hrun as (winners & e1 & Hws & Hrun).
  destruct (Z.eqb_spec (evaluation_battles env) 1) as [?|_]; [done |].
  apply bind_Ok in Hws as (ws & e2 & Hloop & [-> ->]%ret_Ok).
  apply evaluation_loop_ok in Hloop as (Hlen & He2 & Hall).
  apply bind_Ok in Hrun as (e3 & ? & [-> ->]%get_Ok & Hrun).
  apply bind_Ok in Hrun as (rws & e4 & [Hadd ->]%lift_exc_Ok & Hrun).
  apply bind_Ok in Hrun as (? & e5 & ->%modify_Ok & [[= -> ->] ->]%ret_Ok).
  exists ws. rewrite py_range_length in Hlen.
  rewrite He2. by destruct env.
Qed.

(** What a returning [LOCMDraftEnv.step] did, in the order of its code. *)
Lemma draft_step_inv fuel action env r env' :
  step fuel action env = Ok r env' ->
  _draft_is_finished (Draft.state env) = false
  /\ exists a idx card,
      action_of_input (Draft.state env) (items env) action = inr (Some a)
      /\ chosen_index env a = inr idx
      /\ py_index (hand (current_player (Draft.state env))) idx = inr card
      /\ let id := player_id (current_player (Draft.state env)) in
         let env1 :=
           set_state (act (Draft.state env) a)
             (set_choices (set_at_player (choices env) id
                             (at_player (choices env) id ++ [card])) env) in
         let inf := mkInfo (phase (Draft.state env1))
                           (Some (turn (Draft.state env1))) [] in
         if _draft_is_finished (Draft.state env1) then
           exists env2,
             evaluate fuel inf env1 = Ok (reward r, info r) env2
             /\ encode_state env2 = Ok (obs r) env' /\ done r = true
         else
           encode_state env1 = Ok (obs r) env'
           /\ reward r = Fin 0 /\ done r = false /\ info r = inf.
Proof.
  intros Hrun. unfold step in Hrun.
  apply bind_Ok in Hrun as (e0 & ? & [-> ->]%get_Ok & Hrun).
  destruct (_draft_is_finished (Draft.state env)) eqn:Hfin; [done |].
  split; [done |].
  apply bind_Ok in Hrun as (oa & ? & [Hdec ->]%lift_exc_Ok & Hrun).
  apply bind_Ok in Hrun as (a & e1 & Ha & Hrun).
  destruct oa as [a'|]; [|done]. apply ret_Ok in Ha as [-> ->].
  apply bind_Ok in Hrun as (idx & ? & [Hidx ->]%lift_exc_Ok & Hrun).
  apply bind_Ok in Hrun as (card & ? & [Hcard ->]%lift_exc_Ok & Hrun).
  apply bind_Ok in Hrun as (? & e2 & ->%modify_Ok & Hrun).
  apply bind_Ok in Hrun as (? & e3 & ->%modify_Ok & Hrun).
  apply bind_Ok in Hrun as (e4 & ? & [-> ->]%get_Ok & Hrun).
  apply bind_Ok in Hrun as (ri & e5 & Hri & Hrun).
  apply bind_Ok in Hrun as (o & e6 & Henc & [-> ->]%ret_Ok).
  exists a', idx, card. repeat (split; [done |]). simpl.
  simpl in Hri, Henc.
  destruct (_draft_is_finished (act (Draft.state env) a')).
  - apply bind_Ok in Hri as ([rw inf'] & e7 & Hev & [-> ->]%ret_Ok).
    simpl. by exists e7.
  - apply ret_Ok in Hri as [-> ->]. done.
Qed.

Lemma draft_reset_results env o env' :
  reset env = Ok o env' -> results env' = [].
Proof.
  intros Hrun. unfold reset in Hrun.
  apply bind_Ok in Hrun as (? & e1 & ->%modify_Ok & Hrun).
  apply bind_Ok in Hrun as (? & e2 & ->%modify_Ok & Hrun).
  apply bind_Ok in Hrun as (? & e3 & ->%modify_Ok & Hrun).
  apply bind_Ok in Hrun as (? & e4 & ->%modify_Ok & Hrun).
  apply bind_Ok in Hrun as (? & e5 & ->%modify_Ok & Hrun).
  apply bind_Ok in Hrun as (? & e6 & ->%modify_Ok & Hrun).
  apply draft_encode_state_framed in Hrun. unfold ordering_only in Hrun.
  by rewrite Hrun.
Qed.

Lemma draft_step_results fuel action env r env' :
  step fuel action env = Ok r env' -> done r = false -> results env' = results env.
Proof.
  intros Hrun Hdone.
  apply draft_step_inv in Hrun as (Hfin & a & idx & card & Hdec & Hidx & Hcard & Hrest).
  simpl in Hrest. destruct (_draft_is_finished (act (Draft.state env) a)).
  - destruct Hrest as (env2 & _ & _ & Hd). congruence.
  - destruct Hrest as (Henc & _).
    apply draft_encode_state_framed in Henc. unfold ordering_only in Henc.
    by rewrite Henc.
Qed.

Lemma match_loop_played fuel st env w st' env' :
  match_loop fuel st env = Ok (w, st') env' ->
  DraftEvaluator.played st (battle_agents env) w st' (battle_agents env').
Proof.
  revert st env. induction fuel as [|fuel IH]; intros st env; [done |].
  simpl. destruct (winner st) as [w0|] eqn:Hw.
  - intros [= <- <- <-]. by apply DraftEvaluator.played_over.
  - destruct (agent_act _ _) as [action agent] eqn:Hact. intros Hrun.
    apply IH in Hrun. by eapply DraftEvaluator.played_move.
Qed.

Lemma do_match_played fuel st env w st' env' :
  do_match fuel st env = Ok (w, st') env' ->
  DraftEvaluator.played st
    (agent_reset (fst (battle_agents env)), agent_reset (snd (battle_agents env)))
    w st' (battle_agents env').
Proof.
  unfold do_match, bind, modify. intros Hrun.
  by apply match_loop_played in Hrun.
Qed.

Lemma evaluation_loop_trials fuel trials env ws env' :
  evaluation_loop fuel trials env = Ok ws env' ->
  DraftEvaluator.trials (Draft.state env) (battle_agents env) (length trials) ws
                        (battle_agents env').
Proof.
  revert env ws. induction trials as [|t trials IH]; intros env ws; simpl.
  - intros [= <- <-]. apply DraftEvaluator.trials_none.
  - intros Hrun.
    apply bind_Ok in Hrun as (e0 & ? & [-> ->]%get_Ok & Hrun).
    apply bind_Ok in Hrun as ([w st'] & e1 & Hmatch & Hrun).
    pose proof (do_match_ok _ _ _ _ _ _ Hmatch) as [_ He1].
    apply do_match_played in Hmatch.
    apply bind_Ok in Hrun as (? & e2 & ->%modify_Ok & Hrun).
    apply bind_Ok in Hrun as (ws1 & e3 & Hloop & [-> ->]%ret_Ok).
    apply IH in Hloop. cbn [fst].
    eapply DraftEvaluator.trials_more; [exact Hmatch |].
    unfold agents_only in He1.
    replace (Draft.state env) with (Draft.state e1) by (by rewrite He1).
    exact Hloop.
Qed.

Lemma evaluate_many_trials fuel inf env rw inf' env' :
  evaluate fuel inf env = Ok (rw, inf') env' ->
  evaluation_battles env <> 1 ->
  exists ws,
    inf' = mkInfo (info_phase inf) None (info_winner inf ++ ws)
    /\ DraftEvaluator.trials (Draft.state env) (battle_agents env)
         (Z.to_nat (evaluation_battles env)) ws (battle_agents env').
Proof.
  intros Hrun HN. unfold evaluate in Hrun.
  apply bind_Ok in Hrun as (e0 & ? & [-> ->]%get_Ok & Hrun).
  apply bind_Ok in Hrun as (winners & e1 & Hws & Hrun).
  destruct (Z.eqb_spec (evaluation_battles env) 1) as [?|_]; [done |].
  apply bind_Ok in Hws as (ws & e2 & Hloop & [-> ->]%ret_Ok).
  apply evaluation_loop_trials in Hloop. rewrite py_range_length in Hloop.
  apply bind_Ok in Hrun as (e3 & ? & [-> ->]%get_Ok & Hrun).
  apply bind_Ok in Hrun as (rws & e4 & [Hadd ->]%lift_exc_Ok & Hrun).
  apply bind_Ok in Hrun as (? & e5 & ->%modify_Ok & [[= -> ->] ->]%ret_Ok).
  exists ws. split; [done |]. exact Hloop.
Qed.

(** C3. [results] is empty after [reset] and stays as it is over every
    [step] that does not complete the draft.  When a [step] completes the
    draft of an environment set for [N > 1] evaluation battles, it runs
    [N] trials as the specification describes them: each on a clone of
    the state the draft left, with both battle agents reset before the
    trial, played by these agents to a decided winner.  It records one
    outcome in [{-1, +1}] per trial, returns their arithmetic mean as
    reward and lists the [N] winners in [info].  The state the draft left
    is not touched by the matches; the battle agents are left as the last
    trial left them.  Outcomes [1, 1, -1] have mean [1/3]. *)
Theorem draft_evaluation_mean (fuel : nat) :
  (forall env o env', reset env = Ok o env' -> results env' = [])
  /\ (forall action env r env',
      step fuel action env = Ok r env' -> done r = false ->
      results env' = results env)
  /\ (forall (action : PyVal Action) (env env' : Draft.Env) (r : Draft.Result) (N : Z),
      evaluation_battles env = N -> 1 < N -> results env = [] ->
      step fuel action env = Ok r env' -> done r = true ->
      let winners := info_winner (info r) in
      length winners = Z.to_nat N
      /\ results env' = outcome <$> winners
      /\ Forall (fun x => x = 1 \/ x = -1) (results env')
      /\ reward r = np_mean (results env')
      /\ reward r = Fin (sum_Z (results env') # Z.to_pos N)
      /\ DraftEvaluator.trials (Draft.state env') (battle_agents env) (Z.to_nat N)
                                winners (battle_agents env')
      /\ Forall (fun w => exists e1 e2 st',
                   Draft.state e1 = Draft.state env'
                   /\ do_match fuel (clone (Draft.state env')) e1 = Ok (w, st') e2
                   /\ winner st' = Some w) winners
      /\ (exists a, action_of_input (Draft.state env) (items env) action = inr (Some a)
                    /\ Draft.state env' = act (Draft.state env) a)
      /\ info_turn (info r) = None)
  /\ np_mean [1; 1; -1] = Fin (1 # 3).
Proof.
  split; [exact draft_reset_results |].
  split; [exact (draft_step_results fuel) |].
  split; [|done].
  intros action env env' r N HN Hgt Hres Hrun Hdone winners. subst winners.
  apply draft_step_inv in Hrun as (Hfin & a & idx & card & Hdec & Hidx & Hcard & Hrest).
  simpl in Hrest. destruct (_draft_is_finished (act (Draft.state env) a)).
  2:{ destruct Hrest as (_ & _ & Hd & _). congruence. }
  destruct Hrest as (env2 & Hev & Henc & _).
  pose proof (evaluate_many_trials _ _ _ _ _ _ Hev ltac:(simpl; lia))
    as (ws' & Hinf' & Htrials).
  apply evaluate_many in Hev; [|simpl; lia].
  destruct Hev as (ws & Hlen & Hres2 & Hrw & Hinf & Hst & HN2 & Hall).
  rewrite Hinf in Hinf'. injection Hinf' as <-.
  simpl in Htrials. rewrite HN in Htrials.
  simpl in Hlen, Hres2, Hst, HN2, Hall. rewrite Hres in Hres2. simpl in Hres2.
  apply draft_encode_state_framed in Henc. unfold ordering_only in Henc.
  assert (Hres' : results env' = outcome <$> ws) by (rewrite Henc; exact Hres2).
  assert (Hst' : Draft.state env' = act (Draft.state env) a)
    by (rewrite Henc; exact Hst).
  rewrite Hinf. simpl. rewrite Hres', Hst'.
  split; [by rewrite Hlen, HN |]. split; [done |]. split.
  { apply Forall_fmap, Forall_forall. intros w _. apply outcome_sign. }
  rewrite Hrw, Hres2.
  split; [done |]. split.
  { unfold np_mean. destruct ws as [|w ws]; [simpl in Hlen; lia |].
    csimpl. do 2 f_equal. rewrite length_fmap.
    change (S (length ws)) with (length (w :: ws)). rewrite Hlen, HN. lia. }
  split.
  { replace (battle_agents env') with (battle_agents env2) by (by rewrite Henc).
    exact Htrials. }
  split; [exact Hall |]. split; [by exists a |]. done.
Qed.
End DraftEvaluation.

Section DraftReward.
Context `{Eng : Engine} `{Ag : !Agents} `{Base : !BaseEnv}.
Import Draft DraftFrames.

(** The evaluation with exactly one battle: it is played on the live
    state. *)
Lemma evaluate_one fuel inf env rw inf' env' :
  evaluate fuel inf env = Ok (rw, inf') env' ->
  evaluation_battles env = 1 ->
  exists w e1,
    do_match fuel (Draft.state env) env = Ok (w, Draft.state env') e1
    /\ winner (Draft.state env') = Some w
    /\ results env' = [outcome w]
    /\ rw = Fin (inject_Z (raw_reward (Some w)))
    /\ inf' = mkInfo (info_phase inf) None [w]
    /\ evaluation_battles env' = evaluation_battles env.
Proof.
  intros Hrun HN. unfold evaluate in Hrun.
  apply bind_Ok in Hrun as (e0 & ? & [-> ->]%get_Ok & Hrun).
  apply bind_Ok in Hrun as (winners & e1 & Hws & Hrun).
  rewrite HN in Hws. simpl in Hws.
  apply bind_Ok in Hws as ([w st'] & e2 & Hmatch & Hws).
  pose proof (do_match_ok _ _ _ _ _ _ Hmatch) as [Hw He2].
  apply bind_Ok in Hws as (? & e3 & ->%modify_Ok & Hws).
  apply bind_Ok in Hws as (? & e4 & ->%modify_Ok & [-> ->]%ret_Ok).
  apply bind_Ok in Hrun as (e5 & ? & [-> ->]%get_Ok & Hrun).
  apply bind_Ok in Hrun as (rws & e6 & [Hadd ->]%lift_exc_Ok & Hrun).
  apply bind_Ok in Hrun as (? & e7 & ->%modify_Ok & [[= -> ->] ->]%ret_Ok).
  exists w, e2. simpl. unfold agents_only in He2.
  repeat split; try done.
  - by destruct w.
  - rewrite He2. by destruct env.
Qed.

Lemma draft_step_reward fuel action env r env' :
  step fuel action env = Ok r env' ->
  evaluation_battles env' = evaluation_battles env
  /\ (done r = false -> reward r = Fin 0 /\ results env' = results env)
  /\ (done r = true ->
      evaluation_battles env = 1 ->
      exists w, info_winner (info r) = [w]
                /\ winner (Draft.state env') = Some w
                /\ reward r = Fin (inject_Z (raw_reward (Some w)))).
Proof.
  intros Hrun.
  apply draft_step_inv in Hrun as (Hfin & a & idx & card & Hdec & Hidx & Hcard & Hrest).
  simpl in Hrest. destruct (_draft_is_finished (act (Draft.state env) a)).
  - destruct Hrest as (env2 & Hev & Henc & Hdone).
    apply draft_encode_state_framed in Henc. unfold ordering_only in Henc.
    destruct (Z.eq_dec (evaluation_battles env) 1) as [HN|HN].
    + apply evaluate_one in Hev as (w & e1 & _ & Hw & Hres & Hrw & Hinf & HN2); [|done].
      split; [rewrite Henc; exact HN2 |]. split; [congruence |].
      intros _ _. exists w. rewrite Hinf, Hrw, Henc. done.
    + apply evaluate_many in Hev as (ws & _ & _ & _ & _ & _ & HN2 & _); [|done].
      split; [rewrite Henc; exact HN2 |]. split; [congruence | done].
  - destruct Hrest as (Henc & Hrw & Hdone & Hinf).
    apply draft_encode_state_framed in Henc. unfold ordering_only in Henc.
    split; [by rewrite Henc |]. split; [|congruence].
    intros _. split; [done |]. by rewrite Henc.
Qed.
End DraftReward.

Section LearnerReward.
Context `{Eng : Engine} `{Ag : !Agents} `{Base : !BaseEnv}.

Lemma draft_single_super_step fuel action env r env' :
  DraftSingle.super_step fuel action env = Ok r env' ->
  Draft.step fuel action (DraftSingle.parent env) = Ok r (DraftSingle.parent env')
  /\ DraftSingle.play_first env' = DraftSingle.play_first env.
Proof.
  unfold DraftSingle.super_step, super.
  destruct (Draft.step fuel action _) as [a p| |]; try done.
  intros [= <- <-]. by destruct env.
Qed.

Lemma draft_selfplay_super_step fuel action env r env' :
  DraftSelfPlay.super_step fuel action env = Ok r env' ->
  Draft.step fuel action (DraftSelfPlay.parent env) = Ok r (DraftSelfPlay.parent env')
  /\ DraftSelfPlay.play_first env' = DraftSelfPlay.play_first env
  /\ DraftSelfPlay.adversary_policy env' = DraftSelfPlay.adversary_policy env.
Proof.
  unfold DraftSelfPlay.super_step, super.
  destruct (Draft.step fuel action _) as [a p| |]; try done.
  intros [= <- <-]. by destruct env.
Qed.

Lemma draft_selfplay_ask_policy o env a env' :
  DraftSelfPlay.ask_policy o env = Ok a env' -> env' = env.
Proof.
  unfold DraftSelfPlay.ask_policy, bind, get.
  destruct (DraftSelfPlay.adversary_policy env); [|done]. by intros [= _ <-].
Qed.



End LearnerReward.

(* ===================================================================== *)
(** ** The card a draft action picks *)
(* ===================================================================== *)

Section DraftChoice.
Context `{Eng : Engine} `{Ag : !Agents} `{Base : !BaseEnv}.
Import Draft DraftFrames.

Lemma choices_kept_refl e : choices_kept e e.
Proof. done. Qed.

Lemma choices_kept_trans e1 e2 e3 :
  choices_kept e1 e2 -> choices_kept e2 e3 -> choices_kept e1 e3.
Proof. unfold choices_kept. congruence. Qed.

Lemma do_match_choices fuel st : framed choices_kept (do_match fuel st).
Proof.
  intros e [w st'] e' Hrun. apply do_match_ok in Hrun as [_ Hrun].
  unfold agents_only in Hrun. unfold choices_kept. by rewrite Hrun.
Qed.

Lemma evaluation_loop_choices fuel trials :
  framed choices_kept (evaluation_loop fuel trials).
Proof.
  intros e ws e' Hrun. apply evaluation_loop_ok in Hrun as (_ & Hrun & _).
  unfold choices_kept. by rewrite Hrun.
Qed.

Lemma evaluate_choices fuel inf : framed choices_kept (evaluate fuel inf).
Proof.
  unfold evaluate.
  repeat first
    [ apply do_match_choices
    | apply evaluation_loop_choices
    | apply (framed_bind _ choices_kept_trans)
    | apply (framed_ret _ choices_kept_refl)
    | apply (framed_get _ choices_kept_refl)
    | apply (framed_lift_exc _ choices_kept_refl)
    | apply framed_modify; intros []; reflexivity
    | match goal with |- forall _, _ => intro end
    | match goal with
      | |- framed _ (if ?b then _ else _) => destruct b eqn:?
      end ].
Qed.

Lemma draft_step_records_choice fuel input env r env' :
  step fuel input env = Ok r env' ->
  exists a idx card,
    action_of_input (Draft.state env) (items env) input = inr (Some a)
    /\ chosen_index env a = inr idx
    /\ selected_index env input = inr idx
    /\ py_index (hand (current_player (Draft.state env))) idx = inr card
    /\ choices env'
       = set_at_player (choices env) (player_id (current_player (Draft.state env)))
           (at_player (choices env) (player_id (current_player (Draft.state env)))
            ++ [card]).
Proof.
  intros Hrun.
  apply draft_step_inv in Hrun as (Hfin & a & idx & card & Hdec & Hidx & Hcard & Hrest).
  exists a, idx, card. repeat (split; [done |]).
  split; [unfold selected_index; by rewrite Hdec |]. split; [done |].
  simpl in Hrest. destruct (_draft_is_finished (act (Draft.state env) a)).
  - destruct Hrest as (env2 & Hev & Henc & _).
    apply draft_encode_state_framed in Henc. unfold ordering_only in Henc.
    apply evaluate_choices in Hev. unfold choices_kept in Hev.
    rewrite Henc. exact Hev.
  - destruct Hrest as (Henc & _).
    apply draft_encode_state_framed in Henc. unfold ordering_only in Henc.
    by rewrite Henc.
Qed.

(** C5. An action with origin [o] selects hand index [draft_ordering[o]]
    when [0 <= o < k] and hand index 0 otherwise, and the card at the
    selected index of the acting player's hand is the one [step] records
    as chosen.  So with [k = 3], a permutation of 0, 1, 2 in
    [draft_ordering] and the codes decoded to actions that carry them as
    origin, the codes 0, 1, 2 select the permutation's three values,
    which are distinct. *)
Theorem draft_choice_remap (env : Draft.Env) :
  (forall action o, origin action = Some o ->
     chosen_index env action
     = if (0 <=? o) && (o <? k env)
       then py_index (draft_ordering env) o else inr 0)
  /\ (forall fuel input r env',
      step fuel input env = Ok r env' ->
      exists idx card,
        selected_index env input = inr idx
        /\ py_index (hand (current_player (Draft.state env))) idx = inr card
        /\ at_player (choices env') (player_id (current_player (Draft.state env)))
           = at_player (choices env) (player_id (current_player (Draft.state env)))
             ++ [card])
  /\ (k env = 3 ->
      draft_ordering env ≡ₚ [0; 1; 2] ->
      (forall code, 0 <= code < 3 ->
         exists a, decode_action (Draft.state env) (items env) code = inr (Some a)
                   /\ origin a = Some code) ->
      exists i0 i1 i2,
        draft_ordering env = [i0; i1; i2]
        /\ selected_index env (PyInt 0) = inr i0
        /\ selected_index env (PyInt 1) = inr i1
        /\ selected_index env (PyInt 2) = inr i2
        /\ NoDup [i0; i1; i2]
        /\ [i0; i1; i2] ≡ₚ [0; 1; 2]).
Proof.
  split; [|split].
  - intros action o Ho. unfold chosen_index. by rewrite Ho.
  - intros fuel input r env' Hrun.
    apply draft_step_records_choice in Hrun
      as (a & idx & card & _ & _ & Hsel & Hcard & Hch).
    exists idx, card. split; [done |]. split; [done |].
    rewrite Hch. by destruct (player_id _).
  - intros Hk Hperm Hdec.
    pose proof (Permutation_length Hperm) as Hlen.
    destruct (draft_ordering env) as [|i0 [|i1 [|i2 [|? ?]]]] eqn:Hord;
      try discriminate.
    exists i0, i1, i2. split; [done |].
    assert (Hsel : forall (c : nat) i, (c < 3)%nat -> [i0; i1; i2] !! c = Some i ->
              selected_index env (PyInt (Z.of_nat c)) = inr i).
    { intros c i Hc Hi. destruct (Hdec (Z.of_nat c)) as (a & Ha & Hor); [lia |].
      unfold selected_index. simpl. rewrite Ha. simpl.
      unfold chosen_index. rewrite Hor, Hk, Hord.
      destruct (Z.leb_spec 0 (Z.of_nat c)); [|lia].
      destruct (Z.ltb_spec (Z.of_nat c) 3); [|lia].
      simpl. by apply py_index_lookup. }
    split; [exact (Hsel 0%nat i0 ltac:(lia) eq_refl) |].
    split; [exact (Hsel 1%nat i1 ltac:(lia) eq_refl) |].
    split; [exact (Hsel 2%nat i2 ltac:(lia) eq_refl) |].
    split; [|done].
    rewrite Hperm. apply (bool_decide_unpack _). by vm_compute.
Qed.
End DraftChoice.

(* ===================================================================== *)
(** ** Loops over arrays: block writes, counters, sorting *)
(* ===================================================================== *)

Section ArrayLoops.
Lemma exc_foldl_raised {A B} (f : B -> A -> Exc B) (e : Exn) (l : list A) :
  foldl (fun acc a => exc_bind acc (fun b => f b a)) (inl e) l = inl e.
Proof. induction l as [|a l IH]; simpl; [done | exact IH]. Qed.

Lemma exc_foldl_cons {A B} (f : B -> A -> Exc B) (b : B) (a : A) (l : list A) :
  exc_foldl f b (a :: l) = exc_bind (f b a) (fun b' => exc_foldl f b' l).
Proof.
  unfold exc_foldl. simpl. destruct (f b a) as [e|b']; simpl; [|done].
  apply exc_foldl_raised.
Qed.

Lemma exc_foldl_nil {A B} (f : B -> A -> Exc B) (b : B) : exc_foldl f b [] = inr b.
Proof. done. Qed.

Lemma py_range_lookup (n : Z) (j : nat) (x : Z) :
  py_range n !! j = Some x -> x = Z.of_nat j /\ Z.of_nat j < n.
Proof.
  unfold py_range. rewrite list_lookup_fmap.
  destruct (seq 0 (Z.to_nat n) !! j) as [y|] eqn:Hj; [|done].
  apply lookup_seq in Hj as [-> Hlt]. intros [= <-]. lia.
Qed.

Lemma py_range_succ (m : nat) :
  py_range (Z.of_nat (S m)) = py_range (Z.of_nat m) ++ [Z.of_nat m].
Proof.
  unfold py_range. rewrite !Nat2Z.id, seq_S, fmap_app. done.
Qed.

(** One block write: the sixteen cells that lie [slots] blocks before
    the end are replaced. *)
Lemma write_block_spec (pre old rest v : list Q) (slots : Z) :
  length old = 16%nat -> length v = 16%nat ->
  1 <= slots -> Z.of_nat (length rest) = 16 * (slots - 1) ->
  Draft.write_block (pre ++ old ++ rest) slots v = inr (pre ++ v ++ rest).
Proof.
  intros Hold Hv Hs Hrest.
  unfold Draft.write_block, Draft.block_bounds, Draft.card_features, np_assign_slice.
  rewrite !length_app, Hold.
  assert (Hstart : py_bound (length pre + (16 + length rest)) 0 (Some (- slots * 16))
                   = length pre).
  { unfold py_bound. destruct (Z.ltb_spec (- slots * 16) 0); lia. }
  assert (Hstop : py_bound (length pre + (16 + length rest))
                    (length pre + (16 + length rest))
                    (if - slots * 16 + 16 <? 0 then Some (- slots * 16 + 16) else None)
                  = (length pre + 16)%nat).
  { destruct (Z.ltb_spec (- slots * 16 + 16) 0); unfold py_bound.
    - destruct (Z.ltb_spec (- slots * 16 + 16) 0); lia.
    - lia. }
  rewrite Hstart, Hstop.
  replace (length pre + 16 - length pre)%nat with 16%nat by lia.
  rewrite Hv. simpl Nat.eqb. cbv iota.
  rewrite take_app_length, drop_app_add.
  by rewrite drop_app_length' by done.
Qed.

(** A loop of block writes, one per element of [xs], fills a run of
    zeroed blocks from the left. *)
Lemma blocks_written {X} (body : list Q -> X -> Exc (list Q)) (S0 : Z)
    (xs : list X) (vs : list (list Q)) (m t : nat) (pre post : list Q) :
  Forall (fun v => length v = 16%nat) vs ->
  length post = (16 * t)%nat ->
  S0 = Z.of_nat (m + length vs + t) ->
  length xs = length vs ->
  (forall j x v st, xs !! j = Some x -> vs !! j = Some v ->
     body st x = Draft.write_block st (S0 - Z.of_nat (m + j)) v) ->
  exc_foldl body (pre ++ replicate (16 * length vs) 0%Q ++ post) xs
  = inr (pre ++ concat vs ++ post).
Proof.
  revert vs m pre. induction xs as [|x xs IH]; intros vs m pre Hw Hpost HS Hlen Hbody.
  - destruct vs; [|done]. done.
  - destruct vs as [|v vs]; [done |]. simpl in Hlen.
    apply Forall_cons in Hw as [Hv Hw].
    rewrite exc_foldl_cons.
    rewrite (Hbody 0%nat x v) by done.
    replace (16 * length (v :: vs))%nat with (16 + 16 * length vs)%nat
      by (simpl; lia).
    rewrite replicate_add, <- (app_assoc (replicate 16 0%Q)).
    rewrite write_block_spec.
    + cbn [exc_bind].
      replace (pre ++ v ++ replicate (16 * length vs) 0%Q ++ post)
        with ((pre ++ v) ++ replicate (16 * length vs) 0%Q ++ post)
        by by rewrite <- app_assoc.
      rewrite (IH vs (S m)).
      * cbn [concat]. by rewrite <- !app_assoc.
      * done.
      * done.
      * simpl in HS. lia.
      * lia.
      * intros j x' v' st Hx Hv'. rewrite (Hbody (S j) x' v') by done.
        do 2 f_equal. lia.
    + apply length_replicate.
    + done.
    + simpl in HS. lia.
    + rewrite length_app, length_replicate, Hpost. simpl in HS. lia.
Qed.
End ArrayLoops.

Section Sorting.
Context {A : Type}.

Lemma insert_by_perm (key : A -> Z) (x : A) (l : list A) :
  insert_by key x l ≡ₚ x :: l.
Proof.
  induction l as [|y l IH]; simpl; [done |].
  case_match; [done |]. rewrite IH. apply Permutation_swap.
Qed.

Lemma sorted_perm (key : A -> Z) (l : list A) : sorted key l ≡ₚ l.
Proof.
  induction l as [|x l IH]; simpl; [done |].
  by rewrite insert_by_perm, IH.
Qed.

Lemma insert_by_fmap {B} (h : A -> B) (key : B -> Z) (x : A) (l : list A) :
  insert_by key (h x) (h <$> l) = h <$> insert_by (fun a => key (h a)) x l.
Proof.
  induction l as [|y l IH]; csimpl; [done |].
  case_match; csimpl; [done |]. by rewrite IH.
Qed.

Lemma sorted_fmap {B} (h : A -> B) (key : B -> Z) (l : list A) :
  sorted key (h <$> l) = h <$> sorted (fun a => key (h a)) l.
Proof.
  induction l as [|x l IH]; csimpl; [done |].
  by rewrite IH, insert_by_fmap.
Qed.

Lemma exc_mapM_fmap {B} (f : A -> Exc B) (g : A -> B) (l : list A) :
  Forall (fun x => f x = inr (g x)) l -> exc_mapM f l = inr (g <$> l).
Proof.
  induction 1 as [|x l Hx _ IH]; csimpl; [done |].
  by rewrite Hx, IH.
Qed.
End Sorting.

(* ===================================================================== *)
(** ** The draft observation *)
(* ===================================================================== *)

Section DraftObservation.
Context `{Eng : Engine} `{Ag : !Agents} `{Base : !BaseEnv}.
Import Draft DraftLayout.

Lemma count_cost_snoc cards card c :
  count_cost (cards ++ [card]) c
  = count_cost cards c + (if decide (cost card = c) then 1 else 0).
Proof.
  unfold count_cost. rewrite filter_app, length_app.
  rewrite filter_cons, filter_nil. case_decide; simpl; lia.
Qed.

Lemma count_cost_perm cards cards' c :
  cards ≡ₚ cards' -> count_cost cards c = count_cost cards' c.
Proof. intros Hp. unfold count_cost. by rewrite Hp. Qed.

Lemma mana_curve_perm cards cards' :
  cards ≡ₚ cards' -> mana_curve cards = mana_curve cards'.
Proof.
  intros Hp. unfold mana_curve. apply list_fmap_ext. intros _ c _.
  by rewrite (count_cost_perm _ _ _ Hp).
Qed.

Lemma mana_curve_length cards : length (mana_curve cards) = 13%nat.
Proof. unfold mana_curve. by rewrite length_fmap, py_range_length. Qed.

Lemma mana_curve_lookup cards (c : nat) :
  (c < 13)%nat ->
  mana_curve cards !! c = Some (inject_Z (count_cost cards (Z.of_nat c))).
Proof.
  intros Hc. unfold mana_curve, py_range.
  rewrite !list_lookup_fmap, lookup_seq_lt by (simpl; lia). done.
Qed.

Lemma inject_Z_succ z : (inject_Z z + 1)%Q = inject_Z (z + 1).
Proof. unfold Qplus, inject_Z. simpl. f_equal. lia. Qed.

(** One increment moves the curve of the cards seen so far to the curve
    with the new card. *)
Lemma np_incr_curve seen card rest :
  0 <= cost card < 13 ->
  np_incr (mana_curve seen ++ rest) (cost card)
  = inr (mana_curve (seen ++ [card]) ++ rest).
Proof.
  intros Hc. unfold np_incr, py_pos.
  rewrite length_app, mana_curve_length.
  destruct (Z.leb_spec 0 (cost card)); [|lia].
  destruct (Z.ltb_spec (cost card) (Z.of_nat (13 + length rest))); [|lia].
  cbn [andb]. f_equal.
  rewrite alter_app_l by (rewrite mana_curve_length; lia). f_equal.
  apply list_eq. intros i.
  destruct (decide (i < 13)%nat) as [Hi|Hi].
  - rewrite (mana_curve_lookup _ i Hi), count_cost_snoc.
    destruct (decide (Z.to_nat (cost card) = i)) as [<-|Hne].
    + rewrite list_lookup_alter_eq, (mana_curve_lookup _ _ Hi). simpl.
      rewrite Z2Nat.id by lia. rewrite decide_True by done.
      by rewrite inject_Z_succ.
    + rewrite list_lookup_alter_ne by done.
      rewrite (mana_curve_lookup _ i Hi).
      rewrite decide_False by lia. by rewrite Z.add_0_r.
  - rewrite !lookup_ge_None_2; [done | |].
    + rewrite mana_curve_length. lia.
    + rewrite length_alter, mana_curve_length. lia.
Qed.

Lemma mana_curve_counted cards seen rest :
  Forall (fun card => 0 <= cost card < 13) cards ->
  encode_mana_curve cards (mana_curve seen ++ rest)
  = inr (mana_curve (seen ++ cards) ++ rest).
Proof.
  unfold encode_mana_curve. revert seen.
  induction cards as [|card cards IH]; intros seen Hall.
  - by rewrite app_nil_r.
  - apply Forall_cons in Hall as [Hc Hall].
    rewrite exc_foldl_cons, np_incr_curve by done. cbn [exc_bind].
    rewrite IH by done. by rewrite <- app_assoc.
Qed.
End DraftObservation.

Section DraftBlocks.
Context `{Eng : Engine} `{Ag : !Agents} `{Base : !BaseEnv}.
Import Draft DraftLayout.

Hypothesis encode_card_width : forall c, length (encode_card c) = 16%nat.

Lemma encoded_cards_width (cards : list Card) :
  Forall (fun v => length v = 16%nat) (encode_card <$> cards).
Proof. apply Forall_fmap, Forall_forall. intros c _. apply encode_card_width. Qed.

Lemma encoded_cards_length (cards : list Card) :
  length (features_of (encode_card <$> cards)) = (16 * length cards)%nat.
Proof.
  unfold features_of.
  rewrite (concat_length_uniform _ 16) by apply encoded_cards_width.
  rewrite length_fmap. lia.
Qed.

(** The positions an ordering lists, each with the offered card it
    points to. *)
Lemma positions_good (cc : list Card) (k : Z) :
  length cc = Z.to_nat k ->
  (zip (py_range k) cc).*1 = py_range k
  /\ (zip (py_range k) cc).*2 = cc
  /\ Forall (fun d => py_index cc (fst d) = inr (snd d)) (zip (py_range k) cc).
Proof.
  intros Hlen. split; [|split].
  - apply fst_zip. rewrite py_range_length. lia.
  - apply snd_zip. rewrite py_range_length. lia.
  - apply Forall_lookup_2. intros j [p c] [Hp Hc]%lookup_zip_Some. simpl in *.
    apply py_range_lookup in Hp as [-> _]. by apply py_index_lookup.
Qed.

Lemma choices_loop (cc : list Card) (P : list (Z * Card)) (k : Z) (pre : list Q) :
  Forall (fun d => py_index cc (fst d) = inr (snd d)) P ->
  length P = Z.to_nat k -> 0 <= k ->
  exc_foldl
    (fun encoded_state i =>
       (try! index := py_index (P.*1) i in
        try! card := py_index cc index in
        write_block encoded_state (k - i) (encode_card card))%exc)
    (pre ++ replicate (16 * Z.to_nat k) 0%Q) (py_range k)
  = inr (pre ++ features_of (encode_card <$> P.*2)).
Proof.
  intros Hgood Hlen Hk.
  pose proof (blocks_written
    (fun encoded_state i =>
       (try! index := py_index (P.*1) i in
        try! card := py_index cc index in
        write_block encoded_state (k - i) (encode_card card))%exc)
    k (py_range k) (encode_card <$> P.*2) 0 0 pre []) as Hloop.
  rewrite !length_fmap, Hlen, !app_nil_r in Hloop. apply Hloop.
  - apply encoded_cards_width.
  - done.
  - lia.
  - by rewrite py_range_length.
  - intros j x v st Hx Hv. apply py_range_lookup in Hx as [-> _].
    rewrite !list_lookup_fmap in Hv.
    destruct (P !! j) as [[p c]|] eqn:Hj; [|done]. simpl in Hv. injection Hv as <-.
    rewrite (py_index_lookup (P.*1) j p) by by rewrite list_lookup_fmap, Hj.
    cbn [exc_bind].
    pose proof (Forall_lookup_1 _ _ _ _ Hgood Hj) as Hc. simpl in Hc.
    rewrite Hc. cbn [exc_bind]. done.
Qed.

Lemma history_loop (hist : list Card) (S0 : Z) (t : nat) (pre post : list Q) :
  S0 = Z.of_nat (length hist + t) -> length post = (16 * t)%nat ->
  exc_foldl
    (fun encoded_state '(j, card) =>
       write_block encoded_state (S0 - j) (encode_card card))
    (pre ++ replicate (16 * length hist) 0%Q ++ post) (enumerate hist)
  = inr (pre ++ features_of (encode_card <$> hist) ++ post).
Proof.
  intros HS Hpost.
  pose proof (blocks_written
    (fun encoded_state '(j, card) =>
       write_block encoded_state (S0 - j) (encode_card card))
    S0 (enumerate hist) (encode_card <$> hist) 0 t pre post) as Hloop.
  rewrite !length_fmap in Hloop. apply Hloop.
  - apply encoded_cards_width.
  - done.
  - lia.
  - unfold enumerate. rewrite length_zip, py_range_length. lia.
  - intros j [i c] v st [Hi Hc]%lookup_zip_Some Hv. simpl in *.
    apply py_range_lookup in Hi as [-> _].
    rewrite list_lookup_fmap, Hc in Hv. injection Hv as <-. done.
Qed.

Lemma sorted_positions (cc : list Card) (k : Z) :
  length cc = Z.to_nat k ->
  sorted_exc (fun p => exc_map card_id (py_index cc p)) (py_range k)
  = inr (fst <$> sorted (fun d => card_id (snd d)) (zip (py_range k) cc)).
Proof.
  intros Hlen. destruct (positions_good cc k Hlen) as (Hfst & _ & Hgood).
  unfold sorted_exc.
  set (D := zip (py_range k) cc) in *.
  assert (Hkeys : exc_mapM
            (fun x => exc_map (fun kx => (kx, x)) (exc_map card_id (py_index cc x)))
            (py_range k)
          = inr ((fun d => (card_id (snd d), fst d)) <$> D)).
  { rewrite <- Hfst. clear Hfst. induction Hgood as [|d D' Hd _ IH]; [done |].
    csimpl. rewrite Hd. cbn [exc_map exc_bind]. rewrite IH. done. }
  rewrite Hkeys. cbn [exc_map exc_bind]. f_equal.
  rewrite sorted_fmap, <- list_fmap_compose. done.
Qed.
End DraftBlocks.

Section DraftAssembler.
Context `{Eng : Engine} `{Ag : !Agents} `{Base : !BaseEnv}.
Import Draft DraftLayout.

Lemma zeros_split env :
  0 <= k env -> 0 <= n env ->
  np_zeros (state_shape env)
  = replicate (if use_mana_curve env then 13 else 0) 0%Q
    ++ replicate (if use_draft_history env then 16 * Z.to_nat (n env) else 0) 0%Q
    ++ replicate (16 * Z.to_nat (k env)) 0%Q.
Proof.
  intros Hk Hn. unfold np_zeros, state_shape, cards_in_state, card_features.
  rewrite <- !replicate_add. f_equal.
  destruct (use_mana_curve env), (use_draft_history env); lia.
Qed.

Lemma offered_length env :
  0 <= k env -> k env <= Z.of_nat (length (hand (current_player (state env)))) ->
  length (offered env) = Z.to_nat (k env).
Proof.
  intros Hk Hhand. unfold offered, py_slice, py_bound.
  destruct (Z.ltb_spec 0 0); [lia |].
  destruct (Z.ltb_spec (k env) 0); [lia |].
  rewrite length_take, length_drop. lia.
Qed.

Lemma encode_choices_layout env (pre : list Q) :
  (forall c, length (encode_card c) = 16%nat) ->
  0 <= k env -> _draft_is_finished (state env) = false ->
  k env <= Z.of_nat (length (hand (current_player (state env)))) ->
  encode_choices (pre ++ replicate (16 * Z.to_nat (k env)) 0%Q) env
  = Ok (pre ++ choice_block env) (set_draft_ordering (new_ordering env) env).
Proof.
  intros Hw Hk Hfin Hhand.
  pose proof (offered_length env Hk Hhand) as Hlen.
  destruct (positions_good (offered env) (k env) Hlen) as (Hfst & Hsnd & Hgood).
  unfold choice_block, new_ordering, shown. rewrite Hfin.
  unfold encode_choices, bind, get, modify, lift_exc, ret.
  fold (offered env).
  destruct (sort_cards env) eqn:Hsort; cbn [draft_ordering set_draft_ordering k].
  - rewrite (sorted_positions (offered env) (k env) Hlen).
    set (P := sorted (fun d => card_id (snd d)) (zip (py_range (k env)) (offered env))).
    assert (HP : P ≡ₚ zip (py_range (k env)) (offered env)) by apply sorted_perm.
    cbn [draft_ordering set_draft_ordering k].
    rewrite Hlen, Z2Nat.id by done.
    rewrite (choices_loop Hw (offered env) P).
    + assert (Hshown : P.*2 = sorted card_id (offered env)).
      { unfold P. rewrite <- (sorted_fmap snd card_id). by rewrite Hsnd. }
      rewrite Hshown. by destruct env.
    + by rewrite HP.
    + rewrite HP, length_zip, py_range_length. lia.
    + done.
  - rewrite Hlen, Z2Nat.id by done.
    assert (Hloop := choices_loop Hw (offered env)
                       (zip (py_range (k env)) (offered env)) (k env) pre Hgood).
    rewrite Hfst, Hsnd in Hloop. rewrite Hloop.
    + by destruct env.
    + rewrite length_zip, py_range_length. lia.
    + done.
Qed.
End DraftAssembler.

Section DraftAssemblerLayout.
Context `{Eng : Engine} `{Ag : !Agents} `{Base : !BaseEnv}.
Import Draft DraftLayout.

Lemma history_length env : length (history env) = length (chosen env).
Proof.
  unfold history. destruct (sort_cards env); [|done].
  by rewrite sorted_perm.
Qed.

Lemma history_perm env : history env ≡ₚ chosen env.
Proof. unfold history. destruct (sort_cards env); [apply sorted_perm | done]. Qed.

Lemma encode_history_layout env (pre post : list Q) :
  (forall c, length (encode_card c) = 16%nat) ->
  0 <= n env -> 0 <= k env ->
  Z.of_nat (length (chosen env)) <= n env ->
  length post = (16 * Z.to_nat (k env))%nat ->
  encode_history env (chosen env)
                 (pre ++ replicate (16 * Z.to_nat (n env)) 0%Q ++ post)
  = inr (history env, pre ++ history_block env ++ post).
Proof.
  intros Hw Hn Hk Hlen Hpost. unfold encode_history. fold (history env).
  pose proof (history_length env) as Hh.
  replace (16 * Z.to_nat (n env))%nat
    with (16 * length (history env)
          + 16 * (Z.to_nat (n env) - length (history env)))%nat by lia.
  rewrite replicate_add, <- app_assoc.
  rewrite (history_loop Hw (history env) (n env + k env)
             (Z.to_nat (n env) - length (history env) + Z.to_nat (k env))).
  - unfold exc_map, exc_bind, history_block. by rewrite <- !app_assoc.
  - lia.
  - rewrite length_app, length_replicate, Hpost. lia.
Qed.

Lemma choice_block_length env :
  (forall c, length (encode_card c) = 16%nat) ->
  0 <= k env ->
  (_draft_is_finished (state env) = false ->
   k env <= Z.of_nat (length (hand (current_player (state env))))) ->
  length (choice_block env) = (16 * Z.to_nat (k env))%nat.
Proof.
  intros Hw Hk Hhand. unfold choice_block.
  destruct (_draft_is_finished (state env)); [apply length_replicate |].
  rewrite (encoded_cards_length Hw). f_equal.
  unfold shown. destruct (sort_cards env).
  - rewrite sorted_perm. by apply offered_length, Hhand.
  - by apply offered_length, Hhand.
Qed.

Lemma history_block_length env :
  (forall c, length (encode_card c) = 16%nat) ->
  Z.of_nat (length (chosen env)) <= n env ->
  length (history_block env) = (16 * Z.to_nat (n env))%nat.
Proof.
  intros Hw Hlen. unfold history_block.
  rewrite length_app, (encoded_cards_length Hw), length_replicate, history_length.
  lia.
Qed.

(** The assembler, block by block. *)
Lemma encode_state_draft_layout env :
  (forall c, length (encode_card c) = 16%nat) ->
  0 <= k env -> 0 <= n env ->
  (_draft_is_finished (state env) = false ->
   k env <= Z.of_nat (length (hand (current_player (state env))))) ->
  (use_draft_history env = true -> Z.of_nat (length (chosen env)) <= n env) ->
  (use_mana_curve env = true ->
   Forall (fun card => 0 <= cost card < 13) (chosen env)) ->
  _encode_state_draft env
  = Ok (code_layout env) (set_draft_ordering (new_ordering env) env).
Proof.
  intros Hw Hk Hn Hhand Hhist Hcost.
  pose proof (choice_block_length env Hw Hk Hhand) as Hcb.
  unfold _encode_state_draft. unfold bind at 1, get.
  rewrite (zeros_split env Hk Hn). fold (chosen env).
  set (Z0 := replicate (if use_mana_curve env then 13 else 0)%nat 0%Q).
  set (H0 := replicate (if use_draft_history env then 16 * Z.to_nat (n env) else 0)%nat 0%Q).
  set (env1 := set_draft_ordering (new_ordering env) env).
  assert (Hstage1 :
    (if negb (_draft_is_finished (state env))
     then encode_choices (Z0 ++ H0 ++ replicate (16 * Z.to_nat (k env)) 0%Q)
     else ret (Z0 ++ H0 ++ replicate (16 * Z.to_nat (k env)) 0%Q)) env
    = Ok (Z0 ++ H0 ++ choice_block env) env1).
  { destruct (_draft_is_finished (state env)) eqn:Hfin; simpl negb; cbv iota.
    - unfold ret, env1, new_ordering, choice_block. rewrite Hfin. by destruct env.
    - rewrite (app_assoc Z0 H0), (app_assoc Z0 H0 (choice_block env)).
      by apply encode_choices_layout; [| |  | apply Hhand]. }
  unfold bind at 1. rewrite Hstage1. unfold bind at 1, get.
  assert (Hflags : use_draft_history env1 = use_draft_history env
                   /\ use_mana_curve env1 = use_mana_curve env) by done.
  destruct Hflags as [-> ->].
  assert (Hstage2 :
    (if use_draft_history env
     then lift_exc (encode_history env1 (chosen env) (Z0 ++ H0 ++ choice_block env))
     else ret (chosen env, Z0 ++ H0 ++ choice_block env)) env1
    = Ok (if use_draft_history env then history env else chosen env,
          Z0 ++ optional (use_draft_history env) (history_block env)
             ++ choice_block env) env1).
  { unfold H0. destruct (use_draft_history env) eqn:Hhis; simpl optional.
    - change (chosen env) with (chosen env1) at 1.
      rewrite (encode_history_layout env1 Z0 (choice_block env) Hw Hn Hk).
      + done.
      + by apply Hhist.
      + exact Hcb.
    - done. }
  unfold bind at 1. rewrite Hstage2.
  unfold code_layout. destruct (use_mana_curve env) eqn:Hmana; simpl optional.
  - assert (Hperm : (if use_draft_history env then history env else chosen env)
                    ≡ₚ chosen env)
      by (destruct (use_draft_history env); [apply history_perm | done]).
    unfold lift_exc. subst Z0.
    change (replicate 13 0%Q) with (mana_curve []).
    rewrite mana_curve_counted.
    + cbn [app]. by rewrite (mana_curve_perm _ _ Hperm).
    + rewrite Hperm. by apply Hcost.
  - done.
Qed.
End DraftAssemblerLayout.

Section DraftManaCurve.
Context `{Eng : Engine} `{Ag : !Agents} `{Base : !BaseEnv}.
Import Draft DraftLayout.

(** C1, as the code has it.  With the mana-curve feature enabled, on a
    state within the engine's bounds (16 features per card, [k] cards on
    offer, at most [n] cards chosen, costs between 0 and 12), the
    assembler returns the mana-curve block in the first 13 cells, then
    the history block when it is enabled, then the current-choice block
    in the last [k*16] cells; cell [c] of the mana-curve block is the
    number of cards in the acting player's choice history that cost
    [c]. *)
Theorem draft_observation_mana_curve_first (env : Env) :
  use_mana_curve env = true ->
  (forall c, length (encode_card c) = 16%nat) ->
  0 <= k env -> 0 <= n env ->
  (_draft_is_finished (state env) = false ->
   k env <= Z.of_nat (length (hand (current_player (state env))))) ->
  (use_draft_history env = true -> Z.of_nat (length (chosen env)) <= n env) ->
  Forall (fun card => 0 <= cost card < 13) (chosen env) ->
  let v := code_layout env in
  _encode_state_draft env = Ok v (set_draft_ordering (new_ordering env) env)
  /\ v = mana_curve (chosen env)
         ++ optional (use_draft_history env) (history_block env)
         ++ choice_block env
  /\ Z.of_nat (length v) = state_shape env
  /\ take 13 v = mana_curve (chosen env)
  /\ drop (length v - 16 * Z.to_nat (k env)) v = choice_block env
  /\ (use_draft_history env = true ->
      take (16 * Z.to_nat (n env)) (drop 13 v) = history_block env)
  /\ (forall c, 0 <= c < 13 ->
      v !! Z.to_nat c = Some (inject_Z (count_cost (chosen env) c))).
Proof.
  intros Hmana Hw Hk Hn Hhand Hhist Hcost v.
  pose proof (choice_block_length env Hw Hk Hhand) as Hcb.
  pose proof (mana_curve_length (chosen env)) as Hmc.
  assert (Hv : v = mana_curve (chosen env)
                   ++ optional (use_draft_history env) (history_block env)
                   ++ choice_block env).
  { unfold v, code_layout. by rewrite Hmana. }
  assert (Hhb : length (optional (use_draft_history env) (history_block env))
                = (if use_draft_history env then 16 * Z.to_nat (n env) else 0)%nat).
  { destruct (use_draft_history env); [|done].
    by apply history_block_length, Hhist. }
  split; [by apply encode_state_draft_layout |]. split; [exact Hv |].
  rewrite Hv. split; [|split; [|split; [|split]]].
  - rewrite !length_app, Hmc, Hhb, Hcb.
    unfold state_shape, cards_in_state, card_features. rewrite Hmana.
    destruct (use_draft_history env); lia.
  - by rewrite take_app_length'.
  - rewrite app_assoc. apply drop_app_length'.
    rewrite !length_app, Hcb. lia.
  - intros Hhis. rewrite drop_app_length' by done.
    rewrite Hhis in *. simpl optional in *. by rewrite take_app_length'.
  - intros c Hc. rewrite lookup_app_l by (rewrite Hmc; lia).
    rewrite mana_curve_lookup by lia. by rewrite Z2Nat.id by lia.
Qed.
End DraftManaCurve.

Section UncaughtInput.
Context `{Eng : Engine} `{Ag : !Agents} `{Base : !BaseEnv}.

(** C8, where the code departs from it.  [step] turns only the
    [ValueError] of [int(action)] into [MalformedActionError]: a string
    that is no number is rejected that way, but [None] and a list make
    [int] raise [TypeError], and an infinite float [OverflowError], and
    these leave [step] as they are.  In each case the environment is as
    it was. *)
Theorem step_rejects_by_value_error_only :
  (forall (env : Battle.Env) (x : PyVal Action) e,
      _battle_is_finished (Battle.state env) = false ->
      (forall a, x <> PyAction a) -> py_int x = inl e ->
      Battle.step x env
      = Raise (if Exn_eqb e ValueError then MalformedActionError else e) env)
  /\ (forall fuel (env : Draft.Env) (x : PyVal Action) e,
      _draft_is_finished (Draft.state env) = false ->
      (forall a, x <> PyAction a) -> py_int x = inl e ->
      Draft.step fuel x env
      = Raise (if Exn_eqb e ValueError then MalformedActionError else e) env)
  /\ (forall (env : Battle.Env),
      _battle_is_finished (Battle.state env) = false ->
      Battle.step PyNone env = Raise TypeError env
      /\ Battle.step (PyList [0; 1]) env = Raise TypeError env
      /\ Battle.step PyInf env = Raise OverflowError env
      /\ Battle.step PyNaN env = Raise MalformedActionError env)
  /\ (forall fuel (env : Draft.Env),
      _draft_is_finished (Draft.state env) = false ->
      Draft.step fuel PyNone env = Raise TypeError env
      /\ Draft.step fuel (PyList [0; 1]) env = Raise TypeError env
      /\ Draft.step fuel PyInf env = Raise OverflowError env
      /\ Draft.step fuel PyNaN env = Raise MalformedActionError env).
Proof.
  split; [intros; by apply battle_step_bad_input |].
  split; [intros; by apply draft_step_bad_input |].
  split.
  - intros env Hfin.
    split; [exact (battle_step_bad_input env PyNone TypeError Hfin ltac:(done) eq_refl) |].
    split; [exact (battle_step_bad_input env (PyList [0; 1]) TypeError Hfin
                     ltac:(done) eq_refl) |].
    split; [exact (battle_step_bad_input env PyInf OverflowError Hfin
                     ltac:(done) eq_refl) |].
    exact (battle_step_bad_input env PyNaN ValueError Hfin ltac:(done) eq_refl).
  - intros fuel env Hfin.
    split; [exact (draft_step_bad_input fuel env PyNone TypeError Hfin
                     ltac:(done) eq_refl) |].
    split; [exact (draft_step_bad_input fuel env (PyList [0; 1]) TypeError Hfin
                     ltac:(done) eq_refl) |].
    split; [exact (draft_step_bad_input fuel env PyInf OverflowError Hfin
                     ltac:(done) eq_refl) |].
    exact (draft_step_bad_input fuel env PyNaN ValueError Hfin ltac:(done) eq_refl).
Qed.
End UncaughtInput.

(* ===================================================================== *)
(** ** The length of an observation *)
(* ===================================================================== *)

Section ArrayLength.
Lemma py_bound_le (len dflt : nat) (b : option Z) :
  (dflt <= len)%nat -> (py_bound len dflt b <= len)%nat.
Proof.
  intros Hd. unfold py_bound. destruct b as [i|]; [|done].
  destruct (Z.ltb_spec i 0); lia.
Qed.

(** A slice assignment that returns has not changed the length. *)
Lemma np_assign_slice_length (a v a' : list Q) (lo hi : option Z) :
  np_assign_slice a lo hi v = inr a' -> length a' = length a.
Proof.
  unfold np_assign_slice.
  pose proof (py_bound_le (length a) 0 lo ltac:(lia)) as Hstart.
  pose proof (py_bound_le (length a) (length a) hi ltac:(lia)) as Hstop.
  set (start := py_bound (length a) 0 lo) in *.
  set (stop := py_bound (length a) (length a) hi) in *.
  destruct (Nat.eqb_spec (length v) (stop - start)) as [Hv|Hv].
  - intros [= <-]. rewrite !length_app, length_take, length_drop, Hv. lia.
  - destruct v as [|x [|? ?]]; try done.
    intros [= <-]. rewrite !length_app, length_take, length_replicate, length_drop. lia.
Qed.

Lemma np_incr_length (a a' : list Q) (i : Z) :
  np_incr a i = inr a' -> length a' = length a.
Proof.
  unfold np_incr. destruct (py_pos _ _); [|done].
  intros [= <-]. apply length_alter.
Qed.

(** What every round of a loop keeps, the loop keeps. *)
Lemma exc_foldl_invariant {A B} (P : B -> Prop) (f : B -> A -> Exc B)
    (l : list A) (b b' : B) :
  (forall x y a, P x -> f x a = inr y -> P y) ->
  P b -> exc_foldl f b l = inr b' -> P b'.
Proof.
  intros Hf. revert b. induction l as [|a l IH]; intros b Hb.
  - by intros [= <-].
  - rewrite exc_foldl_cons. destruct (f b a) as [e|y] eqn:Hfa; [done |].
    simpl. apply IH. by eapply Hf.
Qed.

Lemma write_block_length (a a' v : list Q) (slots : Z) :
  Draft.write_block a slots v = inr a' -> length a' = length a.
Proof.
  unfold Draft.write_block. destruct (Draft.block_bounds slots) as [lo hi].
  apply np_assign_slice_length.
Qed.
End ArrayLength.

Section ObservationLength.
Context `{Eng : Engine} `{Ag : !Agents} `{Base : !BaseEnv}.

Lemma encode_state_battle_length env v :
  Battle._encode_state_battle env = inr v ->
  length v = Z.to_nat (Battle.state_shape (Battle.items env)).
Proof.
  unfold Battle._encode_state_battle.
  destruct (np_assign_slice _ None (Some 8) _) as [e|v1] eqn:H1; [done |].
  simpl. intros H2.
  apply np_assign_slice_length in H1, H2. rewrite H2, H1.
  unfold np_zeros. apply length_replicate.
Qed.

Lemma battle_encode_state_length env o env' v :
  Battle.encode_state env = Ok o env' -> o = Some v ->
  length v = Z.to_nat (Battle.state_shape (Battle.items env)).
Proof.
  unfold Battle.encode_state, Battle._encode_state_draft, lift_exc, exc_map, exc_bind.
  destruct (assembler_of _) as [[|]|]; try (by intros [= <- <-]).
  destruct (Battle._encode_state_battle env) as [e|v'] eqn:Henc; [done |].
  intros [= <- <-] [= <-]. by apply encode_state_battle_length.
Qed.

Lemma battle_step_obs_length action env r env' v :
  Battle.step action env = Ok r env' -> obs r = Some v ->
  length v = Z.to_nat (Battle.state_shape (Battle.items env))
  /\ Battle.items env' = Battle.items env.
Proof.
  unfold Battle.step.
  destruct (_battle_is_finished _); [done |].
  destruct (action_of_input _ _ _) as [e|a]; [done |].
  match goal with |- context [Battle.set_state ?st env] => set (env1 := Battle.set_state st env) end.
  destruct (match winner _ with Some _ => _ | None => _ end) as [e|[rw rs]]; [done |].
  intros Hrun Hobs.
  apply bind_Ok in Hrun as (o & e2 & Henc & [-> ->]%ret_Ok). simpl in Hobs.
  pose proof (encode_state_pure _ _ _ Henc) as ->.
  split; [|done].
  by apply (battle_encode_state_length _ _ _ _ Henc Hobs).
Qed.

Lemma encode_choices_length v env v' env' :
  Draft.encode_choices v env = Ok v' env' -> length v' = length v.
Proof.
  intros Hrun. unfold Draft.encode_choices in Hrun.
  apply bind_Ok in Hrun as (e0 & ? & [-> ->]%get_Ok & Hrun).
  apply bind_Ok in Hrun as (? & e1 & ->%modify_Ok & Hrun).
  apply bind_Ok in Hrun as (? & e2 & _ & Hrun).
  apply bind_Ok in Hrun as (e3 & ? & [-> ->]%get_Ok & Hrun).
  apply lift_exc_Ok in Hrun as [Hloop _].
  revert Hloop. apply (exc_foldl_invariant (fun x => length x = length v)); [|done].
  intros w1 w2 i Hw Hbody.
  destruct (py_index _ i) as [?|index]; [done |]. simpl in Hbody.
  destruct (py_index _ index) as [?|card]; [done |]. simpl in Hbody.
  apply write_block_length in Hbody. congruence.
Qed.

Lemma encode_history_length env cards v cards' v' :
  Draft.encode_history env cards v = inr (cards', v') -> length v' = length v.
Proof.
  unfold Draft.encode_history, exc_map, exc_bind.
  destruct (exc_foldl _ _ _) as [e|v1] eqn:Hloop; [done |]. intros [= _ <-].
  revert Hloop. apply (exc_foldl_invariant (fun x => length x = length v)); [|done].
  intros w1 w2 [j card] Hw Hbody. apply write_block_length in Hbody. congruence.
Qed.

Lemma encode_mana_curve_length cards v v' :
  Draft.encode_mana_curve cards v = inr v' -> length v' = length v.
Proof.
  unfold Draft.encode_mana_curve.
  apply (exc_foldl_invariant (fun x => length x = length v)); [|done].
  intros w1 w2 card Hw Hbody. apply np_incr_length in Hbody. congruence.
Qed.

Lemma encode_state_draft_length env v env' :
  Draft._encode_state_draft env = Ok v env' ->
  length v = Z.to_nat (Draft.state_shape env).
Proof.
  intros Hrun. unfold Draft._encode_state_draft in Hrun.
  apply bind_Ok in Hrun as (e0 & ? & [-> ->]%get_Ok & Hrun).
  apply bind_Ok in Hrun as (v1 & e1 & H1 & Hrun).
  assert (L1 : length v1 = Z.to_nat (Draft.state_shape env)).
  { destruct (negb _).
    - apply encode_choices_length in H1. rewrite H1. apply length_replicate.
    - apply ret_Ok in H1 as [-> _]. apply length_replicate. }
  apply bind_Ok in Hrun as (e2 & ? & [-> ->]%get_Ok & Hrun).
  apply bind_Ok in Hrun as ([cards v2] & e3 & H2 & Hrun).
  assert (L2 : length v2 = length v1).
  { destruct (Draft.use_draft_history _).
    - apply lift_exc_Ok in H2 as [H2 _]. by apply encode_history_length in H2.
    - by apply ret_Ok in H2 as [[= _ ->] _]. }
  destruct (Draft.use_mana_curve _).
  - apply lift_exc_Ok in Hrun as [H3 _].
    apply encode_mana_curve_length in H3. congruence.
  - apply ret_Ok in Hrun as [-> _]. congruence.
Qed.
End ObservationLength.

Section SchedulerInvariants.
Context `{Eng : Engine} `{Ag : !Agents} `{Base : !BaseEnv}.

(** What every parent [step] establishes, the opponent loops keep. *)
Lemma single_loop_invariant (I : Battle.Env -> Prop) (Q : Battle.Result -> Prop)
    fuel player prev env rs env' :
  (forall a p r p', I p -> Battle.step a p = Ok r p' -> Q r /\ I p') ->
  I (BattleSingle.parent env) -> Q prev ->
  BattleSingle.opponent_loop fuel player prev env = Ok rs env' ->
  Q (fst rs) /\ I (BattleSingle.parent env').
Proof.
  intros Hstep. revert prev env rs env'.
  induction fuel as [|fuel IH]; intros prev env rs env' HI HQ; [done |].
  simpl. case_match; [|by intros [= <- <-]].
  intros Hrun.
  apply bind_Ok in Hrun as (a & e1 & Hask & Hrun).
  unfold BattleSingle.ask_agent in Hask.
  destruct (agent_act _ _) as [a' agent]. injection Hask as <- <-.
  apply bind_Ok in Hrun as (r & e2 & Hs & Hrun).
  apply single_super_step in Hs as [Hs _].
  destruct (Hstep _ _ _ _ HI Hs) as [HQ2 HI2].
  destruct (Battle.info_invalid (info r) && negb (done r)).
  - apply bind_Ok in Hrun as (r3 & e3 & Hs3 & [-> ->]%ret_Ok).
    apply single_super_step in Hs3 as [Hs3 _].
    by destruct (Hstep _ _ _ _ HI2 Hs3).
  - apply bind_Ok in Hrun as (rs2 & e3 & Hloop & [-> ->]%ret_Ok).
    by apply (IH _ _ _ _ HI2 HQ2 Hloop).
Qed.

Lemma selfplay_super_step action env r env' :
  BattleSelfPlay.super_step action env = Ok r env' ->
  Battle.step action (BattleSelfPlay.parent env) = Ok r (BattleSelfPlay.parent env')
  /\ BattleSelfPlay.play_first env' = BattleSelfPlay.play_first env
  /\ BattleSelfPlay.adversary_policy env' = BattleSelfPlay.adversary_policy env.
Proof.
  unfold BattleSelfPlay.super_step, super.
  destruct (Battle.step action _) as [a p| |]; try done.
  intros [= <- <-]. by destruct env.
Qed.

Lemma selfplay_round_invariant (I : Battle.Env -> Prop) (Q : Battle.Result -> Prop)
    env r calls brk env' :
  (forall a p r p', I p -> Battle.step a p = Ok r p' -> Q r /\ I p') ->
  I (BattleSelfPlay.parent env) ->
  BattleSelfPlay.adversary_round env = Ok (r, calls, brk) env' ->
  Q r /\ I (BattleSelfPlay.parent env').
Proof.
  intros Hstep HI Hrun. unfold BattleSelfPlay.adversary_round in Hrun.
  apply bind_Ok in Hrun as (a & e1 & ->%ask_policy_pure & Hrun).
  apply bind_Ok in Hrun as (r1 & e2 & Hs & Hrun).
  apply selfplay_super_step in Hs as [Hs _].
  destruct (Hstep _ _ _ _ HI Hs) as [HQ2 HI2].
  destruct (Battle.info_invalid (info r1) && negb (done r1)).
  - apply bind_Ok in Hrun as (r3 & e3 & Hs3 & [[= -> _ _] ->]%ret_Ok).
    apply selfplay_super_step in Hs3 as [Hs3 _].
    by destruct (Hstep _ _ _ _ HI2 Hs3).
  - by apply ret_Ok in Hrun as [[= -> _ _] ->].
Qed.

Lemma selfplay_loop_invariant (I : Battle.Env -> Prop) (Q : Battle.Result -> Prop)
    fuel player prev env rs env' :
  (forall a p r p', I p -> Battle.step a p = Ok r p' -> Q r /\ I p') ->
  I (BattleSelfPlay.parent env) -> Q prev ->
  BattleSelfPlay.opponent_loop fuel player prev env = Ok rs env' ->
  Q (fst rs) /\ I (BattleSelfPlay.parent env').
Proof.
  intros Hstep. revert prev env rs env'.
  induction fuel as [|fuel IH]; intros prev env rs env' HI HQ; [done |].
  simpl. case_match; [|by intros [= <- <-]].
  intros Hrun.
  apply bind_Ok in Hrun as ([[r calls] brk] & e1 & Hround & Hrun).
  destruct (selfplay_round_invariant I Q _ _ _ _ _ Hstep HI Hround) as [HQ2 HI2].
  simpl in Hrun. destruct brk.
  - by apply ret_Ok in Hrun as [-> ->].
  - apply bind_Ok in Hrun as (rs2 & e3 & Hloop & [-> ->]%ret_Ok).
    by apply (IH _ _ _ _ HI2 HQ2 Hloop).
Qed.

(** The parent calls that make up one scheduler [step]. *)
Lemma single_step_invariant (I : Battle.Env -> Prop) (Q : Battle.Result -> Prop)
    fuel action env r env' :
  (forall a p r p', I p -> Battle.step a p = Ok r p' -> Q r /\ I p') ->
  I (BattleSingle.parent env) ->
  BattleSingle.step fuel action env = Ok r env' ->
  (exists r', Q r' /\ obs r = obs r' /\ done r = done r'
              /\ reward r = (if BattleSingle.play_first env then reward r'
                             else - reward r'))
  /\ I (BattleSingle.parent env').
Proof.
  intros Hstep HI Hrun.
  apply single_step_as_calls in Hrun as [calls Hrun].
  unfold BattleSingle.step_calls in Hrun.
  apply bind_Ok in Hrun as (e0 & ? & [-> ->]%get_Ok & Hrun).
  apply bind_Ok in Hrun as (r1 & e1 & Hs & Hrun).
  apply single_super_step in Hs as [Hs Hpf1].
  destruct (Hstep _ _ _ _ HI Hs) as [HQ1 HI1].
  apply bind_Ok in Hrun as (rs & e2 & Hloop & Hrun).
  destruct (single_loop_invariant I Q _ _ _ _ _ _ Hstep HI1 HQ1 Hloop) as [HQ2 HI2].
  apply single_opponent_loop in Hloop as (_ & _ & Hpf2 & _);
    [|by apply battle_step_ok in Hs as (? & _) | by apply battle_step_ok in Hs as (_ & ? & _)].
  apply bind_Ok in Hrun as (e3 & ? & [-> ->]%get_Ok & [[= -> _] ->]%ret_Ok).
  split; [|done]. exists (fst rs). simpl. rewrite Hpf2, Hpf1.
  repeat split; try done. by destruct (BattleSingle.play_first env).
Qed.

Lemma selfplay_step_invariant (I : Battle.Env -> Prop) (Q : Battle.Result -> Prop)
    fuel action env r env' :
  (forall a p r p', I p -> Battle.step a p = Ok r p' -> Q r /\ I p') ->
  I (BattleSelfPlay.parent env) ->
  BattleSelfPlay.step fuel action env = Ok r env' ->
  (exists r', Q r' /\ obs r = obs r' /\ done r = done r'
              /\ reward r = (if BattleSelfPlay.play_first env then reward r'
                             else - reward r'))
  /\ I (BattleSelfPlay.parent env').
Proof.
  intros Hstep HI Hrun.
  apply selfplay_step_as_calls in Hrun as [calls Hrun].
  unfold BattleSelfPlay.step_calls in Hrun.
  apply bind_Ok in Hrun as (e0 & ? & [-> ->]%get_Ok & Hrun).
  apply bind_Ok in Hrun as (r1 & e1 & Hs & Hrun).
  apply selfplay_super_step in Hs as (Hs & Hpf1 & _).
  destruct (Hstep _ _ _ _ HI Hs) as [HQ1 HI1].
  apply bind_Ok in Hrun as (rs & e2 & Hloop & Hrun).
  destruct (selfplay_loop_invariant I Q _ _ _ _ _ _ Hstep HI1 HQ1 Hloop) as [HQ2 HI2].
  apply selfplay_opponent_loop in Hloop as (_ & _ & Hpf2 & _);
    [|by apply battle_step_ok in Hs as (? & _) | by apply battle_step_ok in Hs as (_ & ? & _)].
  apply bind_Ok in Hrun as (e3 & ? & [-> ->]%get_Ok & [[= -> _] ->]%ret_Ok).
  split; [|done]. exists (fst rs). simpl. rewrite Hpf2, Hpf1.
  repeat split; try done. by destruct (BattleSelfPlay.play_first env).
Qed.
End SchedulerInvariants.

Section DraftConfigKept.
Context `{Eng : Engine} `{Ag : !Agents} `{Base : !BaseEnv}.
Import Draft DraftFrames DraftConfig.

Lemma config_kept_refl e : config_kept e e.
Proof. by repeat split. Qed.

Lemma config_kept_trans e1 e2 e3 :
  config_kept e1 e2 -> config_kept e2 e3 -> config_kept e1 e3.
Proof.
  unfold config_kept. intros (?&?&?&?&?&?&?) (?&?&?&?&?&?&?).
  repeat split; congruence.
Qed.

Lemma ordering_only_config e e' : ordering_only e e' -> config_kept e e'.
Proof. unfold ordering_only. intros ->. by repeat split. Qed.

Lemma agents_only_config e e' : agents_only e e' -> config_kept e e'.
Proof. unfold agents_only. intros ->. by repeat split. Qed.

Lemma do_match_config fuel st : framed config_kept (do_match fuel st).
Proof.
  intros e [w st'] e' Hrun. apply do_match_ok in Hrun as [_ Hrun].
  by apply agents_only_config.
Qed.

Lemma evaluation_loop_config fuel trials :
  framed config_kept (evaluation_loop fuel trials).
Proof.
  intros e ws e' Hrun. apply evaluation_loop_ok in Hrun as (_ & Hrun & _).
  rewrite Hrun. by repeat split.
Qed.

Lemma evaluate_config fuel inf : framed config_kept (evaluate fuel inf).
Proof.
  unfold evaluate.
  repeat first
    [ apply do_match_config
    | apply evaluation_loop_config
    | apply (framed_bind _ config_kept_trans)
    | apply (framed_ret _ config_kept_refl)
    | apply (framed_get _ config_kept_refl)
    | apply (framed_lift_exc _ config_kept_refl)
    | apply framed_modify; intros []; by repeat split
    | match goal with |- forall _, _ => intro end
    | match goal with
      | |- framed _ (if ?b then _ else _) => destruct b eqn:?
      end ].
Qed.

Lemma draft_encode_state_config : framed config_kept encode_state.
Proof.
  intros e o e' Hrun. by apply ordering_only_config, (draft_encode_state_framed e o).
Qed.

Lemma draft_step_config fuel action : framed config_kept (step fuel action).
Proof.
  intros env r env' Hrun.
  apply draft_step_inv in Hrun as (Hfin & a & idx & card & Hdec & Hidx & Hcard & Hrest).
  simpl in Hrest. destruct (_draft_is_finished (act (Draft.state env) a)).
  - destruct Hrest as (env2 & Hev & Henc & _).
    apply evaluate_config in Hev. apply draft_encode_state_config in Henc.
    eapply config_kept_trans; [|exact Henc].
    eapply config_kept_trans; [|exact Hev]. by repeat split.
  - destruct Hrest as (Henc & _). apply draft_encode_state_config in Henc.
    eapply config_kept_trans; [|exact Henc]. by repeat split.
Qed.

Lemma draft_reset_inv env o env' :
  reset env = Ok o env' ->
  exists e1,
    encode_state e1 = Ok o env'
    /\ config_kept env e1
    /\ results e1 = [] /\ choices e1 = ([], [])
    /\ rewards e1 = rewards env ++ [Fin 0]
    /\ Draft.state e1
       = snd (base_reset (_seed env) (Draft.state env) (items env) (k env) (n env)).
Proof.
  intros Hrun. unfold reset in Hrun.
  apply bind_Ok in Hrun as (? & e1 & ->%modify_Ok & Hrun).
  apply bind_Ok in Hrun as (? & e2 & ->%modify_Ok & Hrun).
  apply bind_Ok in Hrun as (? & e3 & ->%modify_Ok & Hrun).
  apply bind_Ok in Hrun as (? & e4 & ->%modify_Ok & Hrun).
  apply bind_Ok in Hrun as (? & e5 & ->%modify_Ok & Hrun).
  apply bind_Ok in Hrun as (? & e6 & ->%modify_Ok & Hrun).
  eexists. split; [exact Hrun |].
  destruct (base_reset _ _ _ _ _) as [sd st]. by repeat split.
Qed.

Lemma state_shape_config e e' : config_kept e e' -> state_shape e' = state_shape e.
Proof.
  intros (Hk & Hn & _ & _ & Hh & Hm & _).
  unfold state_shape, cards_in_state. by rewrite Hk, Hn, Hh, Hm.
Qed.

Lemma draft_encode_state_length env o env' v :
  encode_state env = Ok o env' -> o = Some v ->
  length v = Z.to_nat (state_shape env).
Proof.
  intros Hrun ->. unfold encode_state in Hrun.
  apply bind_Ok in Hrun as (e0 & ? & [-> ->]%get_Ok & Hrun).
  destruct (assembler_of _) as [[|]|].
  - apply bind_Ok in Hrun as (v' & e1 & Henc & [[= ->] ->]%ret_Ok).
    by apply encode_state_draft_length in Henc.
  - by apply ret_Ok in Hrun as [? _].
  - by apply ret_Ok in Hrun as [? _].
Qed.
End DraftConfigKept.

Section ObservationLengthTheorem.
Context `{Eng : Engine} `{Ag : !Agents} `{Base : !BaseEnv}.

(** An observation that [step] or [reset] returns as an array has the
    length declared at construction, [state_shape], on every state and
    for every configuration: a hand or lane beyond its capacity, or an
    encoder of another width, makes the assembler raise, never return a
    vector of another length. *)
Theorem observation_length_constant :
  (forall action env r env' v,
      Battle.step action env = Ok r env' -> obs r = Some v ->
      length v = Z.to_nat (Battle.state_shape (Battle.items env)))
  /\ (forall fuel env o env' v,
      Battle.reset fuel env = Ok o env' -> o = Some v ->
      length v = Z.to_nat (Battle.state_shape (Battle.items env)))
  /\ (forall fuel action env r env' v,
      BattleSingle.step fuel action env = Ok r env' -> obs r = Some v ->
      length v = Z.to_nat (Battle.state_shape (Battle.items (BattleSingle.parent env))))
  /\ (forall fuel action env r env' v,
      BattleSelfPlay.step fuel action env = Ok r env' -> obs r = Some v ->
      length v = Z.to_nat (Battle.state_shape (Battle.items (BattleSelfPlay.parent env))))
  /\ (forall fuel action env r env' v,
      Draft.step fuel action env = Ok r env' -> obs r = Some v ->
      length v = Z.to_nat (Draft.state_shape env))
  /\ (forall env o env' v,
      Draft.reset env = Ok o env' -> o = Some v ->
      length v = Z.to_nat (Draft.state_shape env)).
Proof.
  assert (Hbase : forall items0 a p r p',
    Battle.items p = items0 -> Battle.step a p = Ok r p' ->
    (forall v, obs r = Some v -> length v = Z.to_nat (Battle.state_shape items0))
    /\ Battle.items p' = items0).
  { intros items0 a p r p' <- Hrun.
    assert (Hitems : Battle.items p' = Battle.items p).
    { revert Hrun. unfold Battle.step.
      destruct (_battle_is_finished _); [done |].
      destruct (action_of_input _ _ _) as [e|act']; [done |].
      destruct (match winner _ with Some _ => _ | None => _ end) as [e|[rw rs]]; [done |].
      intros Hrun. apply bind_Ok in Hrun as (o & e2 & Henc & [-> ->]%ret_Ok).
      by apply encode_state_pure in Henc as ->. }
    split; [|done]. intros v Hv.
    by destruct (battle_step_obs_length _ _ _ _ _ Hrun Hv). }
  split; [|split; [|split; [|split; [|split]]]].
  - intros action env r env' v Hrun Hv.
    by apply (Hbase (Battle.items env) action env r env' eq_refl Hrun).
  - intros fuel env o env' v Hrun Hv.
    apply reset_returns_encoding in Hrun as [Henc <-].
    by apply (battle_encode_state_length _ _ _ _ Henc Hv).
  - intros fuel action env r env' v Hrun Hv.
    destruct (single_step_invariant
                (fun p => Battle.items p = Battle.items (BattleSingle.parent env))
                (fun r => forall v, obs r = Some v ->
                   length v = Z.to_nat (Battle.state_shape
                                          (Battle.items (BattleSingle.parent env))))
                fuel action env r env') as [(r' & HQ & Hobs & _) _]; try done.
    + intros a p r0 p'. apply Hbase.
    + apply HQ. by rewrite <- Hobs.
  - intros fuel action env r env' v Hrun Hv.
    destruct (selfplay_step_invariant
                (fun p => Battle.items p = Battle.items (BattleSelfPlay.parent env))
                (fun r => forall v, obs r = Some v ->
                   length v = Z.to_nat (Battle.state_shape
                                          (Battle.items (BattleSelfPlay.parent env))))
                fuel action env r env') as [(r' & HQ & Hobs & _) _]; try done.
    + intros a p r0 p'. apply Hbase.
    + apply HQ. by rewrite <- Hobs.
  - intros fuel action env r env' v Hrun Hv.
    apply draft_step_inv in Hrun as (Hfin & a & idx & card & Hdec & Hidx & Hcard & Hrest).
    simpl in Hrest. destruct (_draft_is_finished (act (Draft.state env) a)).
    + destruct Hrest as (env2 & Hev & Henc & _).
      apply evaluate_config, state_shape_config in Hev.
      rewrite (draft_encode_state_length _ _ _ _ Henc Hv), Hev. done.
    + destruct Hrest as (Henc & _).
      by rewrite (draft_encode_state_length _ _ _ _ Henc Hv).
  - intros env o env' v Hrun Hv.
    apply draft_reset_inv in Hrun as (e1 & Henc & Hcfg & _).
    rewrite (draft_encode_state_length _ _ _ _ Henc Hv).
    by rewrite (state_shape_config _ _ Hcfg).
Qed.
End ObservationLengthTheorem.

(* ===================================================================== *)
(** ** A hand or lane beyond its capacity *)
(* ===================================================================== *)

Section Overflow.
Context `{Eng : Engine} `{Ag : !Agents} `{Base : !BaseEnv}.

Lemma fill_cards_full card_list up_to features :
  up_to <= Z.of_nat (length card_list) ->
  fill_cards card_list up_to features = card_list.
Proof.
  intros Hle. rewrite fill_cards_eq.
  replace (Z.to_nat (up_to - Z.of_nat (length card_list))) with 0%nat by lia.
  apply app_nil_r.
Qed.

Lemma fill_cards_length_max card_list up_to features :
  length (fill_cards card_list up_to features)
  = Nat.max (length card_list) (Z.to_nat up_to).
Proof. rewrite fill_cards_eq, length_app, length_replicate. lia. Qed.

Lemma packed_features_length (cards : list (list Q)) (C w : nat) :
  Forall (fun v => length v = w) cards ->
  length (features_of (fill_cards cards (Z.of_nat C) (Z.of_nat w)))
  = (Nat.max (length cards) C * w)%nat.
Proof.
  intros Hall. unfold features_of.
  rewrite (concat_length_uniform _ w).
  - by rewrite fill_cards_length_max, Nat2Z.id.
  - pose proof (fill_cards_uniform cards (Z.of_nat C) (Z.of_nat w)) as Hu.
    rewrite Nat2Z.id in Hu. by apply Hu.
Qed.

(** [fill_cards] does not cut a list that is longer than the capacity, so
    with encoders of the declared widths a hand of more than 8 cards or a
    lane of more than 3 makes the battle assembler raise [ValueError]:
    the features do not fit the array, and nothing is truncated. *)
Theorem over_capacity_raises (env : Battle.Env) :
  BattleCapacity.encoders_fit (Battle.state env) = true ->
  BattleCapacity.over_capacity (Battle.state env) = true ->
  Battle._encode_state_battle env = inl ValueError
  /\ (forall cards C features,
        C <= Z.of_nat (length cards) -> fill_cards cards C features = cards).
Proof.
  intros Hfit Hover. split; [|intros; by apply fill_cards_full].
  revert Hfit Hover. unfold BattleCapacity.encoders_fit, BattleCapacity.over_capacity.
  set (p0 := current_player (Battle.state env)).
  set (p1 := opposing_player (Battle.state env)).
  simpl forallb. simpl existsb. rewrite !andb_true_r, !orb_false_r.
  rewrite !andb_true_iff, !orb_true_iff, !Nat.eqb_eq, !Nat.ltb_lt.
  intros (((Hp & Hh) & Hf1 & Hf2) & He1 & He2) Hover.
  apply widths_Forall in Hh, Hf1, Hf2, He1, He2.
  set (items := Battle.items env).
  assert (Lh : length (features_of (Battle.hand_block items p0))
               = (Nat.max (length (hand p0)) 8 * (if items then 16 else 12))%nat).
  { unfold Battle.hand_block. destruct items; simpl negb; cbv iota.
    - rewrite (packed_features_length _ 8 16), length_fmap; [done |].
      by apply Forall_fmap.
    - rewrite (packed_features_length _ 8 12), !length_fmap; [done |].
      apply Forall_fmap, Forall_fmap. eapply Forall_impl; [exact Hh |].
      intros c Hc. simpl. by rewrite length_drop, Hc. }
  assert (Ll : forall enc (w : nat) lane,
             Forall (fun c => length (enc c) = w) lane ->
             length (features_of (Battle.lane_block enc (Z.of_nat w) lane))
             = (Nat.max (length lane) 3 * w)%nat).
  { intros enc w lane Hw. unfold Battle.lane_block.
    rewrite (packed_features_length _ 3 w), length_fmap; [done |].
    by apply Forall_fmap. }
  pose proof (Ll _ 9%nat _ Hf1) as Lf1. pose proof (Ll _ 9%nat _ Hf2) as Lf2.
  pose proof (Ll _ 8%nat _ He1) as Le1. pose proof (Ll _ 8%nat _ He2) as Le2.
  change (Z.of_nat 9) with 9 in *. change (Z.of_nat 8) with 8 in *.
  assert (Hlen : length (np_zeros (Battle.state_shape items))
                 = (8 + (8 * (if items then 16 else 12) + 3 * 9 + 3 * 9 + 3 * 8 + 3 * 8))%nat).
  { unfold np_zeros. rewrite length_replicate. by destruct items. }
  assert (Hall : (8 * (if items then 16 else 12) + 3 * 9 + 3 * 9 + 3 * 8 + 3 * 8
                  < length (Battle.all_cards items p0 p1))%nat).
  { rewrite all_cards_layout, !length_app, Lh, Lf1, Lf2, Le1, Le2.
    destruct items; lia. }
  unfold Battle._encode_state_battle. fold p0 p1 items.
  rewrite (np_assign_slice_head _ _ 8 Hp) by (rewrite Hlen; lia).
  cbn [exc_bind]. unfold np_assign_slice, py_bound.
  rewrite length_app, length_drop, Hlen, Hp.
  destruct (Z.ltb_spec 8 0); [lia |].
  destruct (Nat.eqb_spec (length (Battle.all_cards items p0 p1))
              (8 + (8 + (8 * (if items then 16 else 12) + 3 * 9 + 3 * 9 + 3 * 8 + 3 * 8) - 8)
               - Z.to_nat (Z.min 8 (Z.of_nat
                   (8 + (8 + (8 * (if items then 16 else 12) + 3 * 9 + 3 * 9 + 3 * 8 + 3 * 8)
                         - 8))))))
    as [Heq|_]; [lia |].
  destruct (Battle.all_cards items p0 p1) as [|x [|y rest]]; [done | | done].
  simpl in Hall. destruct items; lia.
Qed.
End Overflow.

(* ===================================================================== *)
(** ** Sorting by card id *)
(* ===================================================================== *)

Section SortedFacts.
Context {A : Type} (key : A -> Z).

Local Abbreviation key_le := (fun a b : A => key a <= key b).

Lemma insert_by_sorted x l :
  StronglySorted key_le l -> StronglySorted key_le (insert_by key x l).
Proof.
  induction 1 as [|y l Hl IH Hy]; simpl.
  - repeat constructor.
  - destruct (Z.leb_spec (key x) (key y)) as [Hle|Hgt].
    + constructor; [by constructor |].
      constructor; [done |]. eapply Forall_impl; [exact Hy |].
      intros z Hz. simpl in *. lia.
    + constructor; [done |]. rewrite insert_by_perm.
      constructor; [simpl; lia | done].
Qed.

Lemma sorted_sorted l : StronglySorted key_le (sorted key l).
Proof.
  induction l as [|x l IH]; simpl; [constructor |]. by apply insert_by_sorted.
Qed.

(** The sort is stable, so a list already in order is returned as it is. *)
Lemma sorted_id l : StronglySorted key_le l -> sorted key l = l.
Proof.
  induction 1 as [|x l Hl IH Hx]; simpl; [done |]. rewrite IH.
  destruct l as [|y l]; [done |]. simpl.
  apply Forall_cons in Hx as [Hxy _]. simpl in Hxy.
  by destruct (Z.leb_spec (key x) (key y)); [|lia].
Qed.
End SortedFacts.

Lemma sorted_Z_unique (l1 l2 : list Z) :
  l1 ≡ₚ l2 -> sorted (fun i => i) l1 = sorted (fun i => i) l2.
Proof.
  intros Hp.
  apply (StronglySorted_unique Z.le).
  - apply (sorted_sorted (fun i : Z => i)).
  - apply (sorted_sorted (fun i : Z => i)).
  - by rewrite !sorted_perm.
Qed.

Lemma StronglySorted_fmap_inv {A B} (f : A -> B) (R : B -> B -> Prop) (l : list A) :
  StronglySorted R (f <$> l) -> StronglySorted (fun a b => R (f a) (f b)) l.
Proof.
  induction l as [|a l IH]; csimpl; [constructor |].
  intros [Hl Ha]%StronglySorted_inv. constructor; [by apply IH |].
  rewrite Forall_fmap in Ha. exact Ha.
Qed.

Section SortedPresentation.
Context `{Eng : Engine} `{Ag : !Agents} `{Base : !BaseEnv}.
Import Draft DraftLayout.

Lemma encode_choices_ordering v env v' env' :
  0 <= k env ->
  k env <= Z.of_nat (length (hand (current_player (Draft.state env)))) ->
  _draft_is_finished (Draft.state env) = false ->
  encode_choices v env = Ok v' env' ->
  env' = set_draft_ordering (new_ordering env) env.
Proof.
  intros Hk Hhand Hfin Hrun.
  pose proof (offered_length env Hk Hhand) as Hlen.
  unfold new_ordering. rewrite Hfin.
  unfold encode_choices, bind, get, modify, lift_exc, ret in Hrun.
  fold (offered env) in Hrun.
  destruct (sort_cards env); cbn [draft_ordering set_draft_ordering k] in Hrun.
  - rewrite (sorted_positions (offered env) (k env) Hlen) in Hrun.
    cbn [draft_ordering set_draft_ordering k] in Hrun.
    destruct (exc_foldl _ _ _) in Hrun; [done |].
    injection Hrun as _ <-. by destruct env.
  - destruct (exc_foldl _ _ _) in Hrun; [done |].
    injection Hrun as _ <-. by destruct env.
Qed.

Lemma encode_state_draft_ordering env v env' :
  0 <= k env ->
  k env <= Z.of_nat (length (hand (current_player (Draft.state env)))) ->
  _draft_is_finished (Draft.state env) = false ->
  _encode_state_draft env = Ok v env' ->
  env' = set_draft_ordering (new_ordering env) env.
Proof.
  intros Hk Hhand Hfin Hrun. unfold _encode_state_draft in Hrun.
  unfold bind at 1, get at 1 in Hrun. rewrite Hfin in Hrun. cbn [negb] in Hrun.
  apply bind_Ok in Hrun as (v1 & e1 & H1 & Hrun).
  apply encode_choices_ordering in H1; [|done..]. subst e1.
  unfold bind at 1, get at 1 in Hrun.
  apply bind_Ok in Hrun as ([cards v2] & e3 & H2 & Hrun).
  assert (e3 = set_draft_ordering (new_ordering env) env) as ->.
  { destruct (use_draft_history _).
    - by apply lift_exc_Ok in H2 as [_ ->].
    - by apply ret_Ok in H2 as [_ ->]. }
  destruct (use_mana_curve _).
  - by apply lift_exc_Ok in Hrun as [_ ->].
  - by apply ret_Ok in Hrun as [_ ->].
Qed.

(** With [sort_cards] set, in an unfinished draft that offers [k] cards:
    the assembler leaves in [draft_ordering] a permutation of
    [0 .. k-1] whose [i]-th entry is the hand position of the [i]-th
    card in increasing order of id; cards of equal id keep their hand
    order, so a hand already in increasing order of id gets the identity
    ordering. *)
Theorem sorted_draft_ordering (env : Env) (v : list Q) (env' : Env) :
  sort_cards env = true ->
  0 <= k env ->
  k env <= Z.of_nat (length (hand (current_player (Draft.state env)))) ->
  _draft_is_finished (Draft.state env) = false ->
  _encode_state_draft env = Ok v env' ->
  draft_ordering env' ≡ₚ py_range (k env)
  /\ Forall2 (fun i card => 0 <= i /\ offered env !! Z.to_nat i = Some card)
             (draft_ordering env') (sorted card_id (offered env))
  /\ StronglySorted (fun a b => card_id a <= card_id b) (sorted card_id (offered env))
  /\ sorted card_id (offered env) ≡ₚ offered env
  /\ (StronglySorted (fun a b => card_id a <= card_id b) (offered env) ->
      draft_ordering env' = py_range (k env)).
Proof.
  intros Hsort Hk Hhand Hfin Hrun.
  apply encode_state_draft_ordering in Hrun; [|done..]. subst env'.
  cbn [draft_ordering set_draft_ordering].
  pose proof (offered_length env Hk Hhand) as Hlen.
  destruct (positions_good (offered env) (k env) Hlen) as (Hfst & Hsnd & Hgood).
  unfold new_ordering. rewrite Hfin, Hsort.
  set (D := zip (py_range (k env)) (offered env)) in *.
  set (P := sorted (fun d => card_id (snd d)) D).
  assert (HP : P ≡ₚ D) by apply sorted_perm.
  assert (Hshown : P.*2 = sorted card_id (offered env)).
  { unfold P. rewrite <- (sorted_fmap snd card_id). by rewrite Hsnd. }
  split; [by rewrite HP, Hfst |]. split; [|split; [|split]].
  - rewrite <- Hshown. apply Forall2_fmap, Forall_Forall2_diag.
    rewrite HP. apply Forall_lookup_2. intros j [p c] [Hp Hc]%lookup_zip_Some.
    simpl in *. apply py_range_lookup in Hp as [-> _].
    split; [lia |]. by rewrite Nat2Z.id.
  - apply (sorted_sorted card_id).
  - apply sorted_perm.
  - intros Hsorted. unfold P.
    rewrite (sorted_id (fun d => card_id (snd d))); [done |].
    apply (StronglySorted_fmap_inv snd (fun a b : Card => card_id a <= card_id b) D).
    by rewrite Hsnd.
Qed.
End SortedPresentation.

Section Tabular.
Context `{Eng : Engine} `{Ag : !Agents} `{Base : !BaseEnv}.

Lemma wrap64_id (z : Z) :
  DraftSingleTabular.int64_min <= z <= DraftSingleTabular.int64_max ->
  DraftSingleTabular.wrap64 z = z.
Proof.
  unfold DraftSingleTabular.wrap64, DraftSingleTabular.int64_min,
    DraftSingleTabular.int64_max.
  intros Hz. rewrite Z.mod_small by lia. lia.
Qed.

(** With ids that fit 64 bits the tabular observation is an array as
    long as the hand, and the same for two hands that hold the same
    cards in another order.  When no id is the smallest 64-bit integer,
    it holds the ids in hand, each less one, in increasing order.  An id
    equal to the smallest 64-bit integer shows as the largest: the
    subtraction wraps around. *)
Theorem tabular_observation_canonical (env1 env2 : DraftSingle.Env) :
  let hand1 := hand (current_player (Draft.state (DraftSingle.parent env1))) in
  let hand2 := hand (current_player (Draft.state (DraftSingle.parent env2))) in
  Forall (fun c => DraftSingleTabular.int64_min <= card_id c
                   <= DraftSingleTabular.int64_max) hand1 ->
  exists obs,
    DraftSingleTabular._encode_state_draft env1 = Some obs
    /\ length obs = length hand1
    /\ (hand1 ≡ₚ hand2 -> DraftSingleTabular._encode_state_draft env2 = Some obs)
    /\ (Forall (fun c => DraftSingleTabular.int64_min < card_id c) hand1 ->
        obs ≡ₚ (fun c => card_id c - 1) <$> hand1
        /\ StronglySorted Z.le obs)
    /\ (forall c, c ∈ hand1 -> card_id c = DraftSingleTabular.int64_min ->
        DraftSingleTabular.int64_max ∈ obs).
Proof.
  intros hand1 hand2 Hfit.
  set (ids := sorted (fun id : Z => id) (card_id <$> hand1)).
  assert (Hperm : ids ≡ₚ card_id <$> hand1) by apply sorted_perm.
  assert (Hids : Forall (fun id => DraftSingleTabular.int64_min <= id
                                   <= DraftSingleTabular.int64_max) ids).
  { rewrite Hperm. by apply Forall_fmap. }
  exists ((fun id => DraftSingleTabular.wrap64 (id - 1)) <$> ids).
  split; [|split; [|split; [|split]]].
  - unfold DraftSingleTabular._encode_state_draft. fold hand1 ids.
    by rewrite bool_decide_eq_true_2.
  - by rewrite length_fmap, Hperm, length_fmap.
  - intros Hp. unfold DraftSingleTabular._encode_state_draft. fold hand2.
    assert (Hsame : sorted (fun id : Z => id) (card_id <$> hand2) = ids).
    { apply sorted_Z_unique. by rewrite Hp. }
    rewrite Hsame. by rewrite bool_decide_eq_true_2.
  - intros Hmin.
    assert (Hexact : (fun id => DraftSingleTabular.wrap64 (id - 1)) <$> ids
                     = (fun id => id - 1) <$> ids).
    { apply Forall_fmap_ext_1.
      assert (Hlow : Forall (fun id => DraftSingleTabular.int64_min < id) ids).
      { rewrite Hperm. by apply Forall_fmap. }
      rewrite Forall_forall in Hids, Hlow. apply Forall_forall. intros id Hid.
      apply wrap64_id. specialize (Hids id Hid). specialize (Hlow id Hid).
      unfold DraftSingleTabular.int64_min, DraftSingleTabular.int64_max in *. lia. }
    rewrite Hexact. split.
    + by rewrite Hperm, <- list_fmap_compose.
    + apply (StronglySorted_fmap (fun id => id - 1) Z.le Z.le).
      * intros a b Hab. lia.
      * apply (sorted_sorted (fun i : Z => i)).
  - intros c Hc Hid. apply list_elem_of_fmap.
    exists (card_id c). split.
    + rewrite Hid. reflexivity.
    + rewrite Hperm. apply list_elem_of_fmap. by exists c.
Qed.
End Tabular.


(* ===================================================================== *)
(** ** The card slots of the draft observation *)
(* ===================================================================== *)

Section DraftSlots.
Context `{Eng : Engine} `{Ag : !Agents} `{Base : !BaseEnv}.
Import Draft DraftLayout.

(** On a state within the engine's bounds the draft observation is a row
    of 16-cell card slots behind the optional 13 mana-curve cells: with
    the history enabled, slot [j] holds the [j]-th card of the acting
    player's history (oldest first, or by id when sorting) and the slots
    past the history are zero; the last [k] slots hold the cards on
    offer in the order shown, or zeros once the draft is finished, and
    then the ordering is left as it was.  With the mana curve disabled
    the array is history block, then choice block, with nothing after. *)
Theorem draft_observation_card_slots (env : Env) :
  (forall c, length (encode_card c) = 16%nat) ->
  0 <= k env -> 0 <= n env ->
  (_draft_is_finished (state env) = false ->
   k env <= Z.of_nat (length (hand (current_player (state env))))) ->
  (use_draft_history env = true -> Z.of_nat (length (chosen env)) <= n env) ->
  (use_mana_curve env = true ->
   Forall (fun card => 0 <= cost card < 13) (chosen env)) ->
  exists v env',
    _encode_state_draft env = Ok v env'
    /\ (use_mana_curve env = false -> v = spec_layout env)
    /\ let off := (if use_mana_curve env then 13 else 0)%nat in
       (use_draft_history env = true ->
        (forall j card, history env !! j = Some card ->
           take 16 (drop (off + 16 * j) v) = encode_card card)
        /\ (forall i, (off + 16 * length (history env) <= i < off + 16 * Z.to_nat (n env))%nat ->
              v !! i = Some 0%Q))
       /\ (_draft_is_finished (state env) = false ->
           forall i card, shown env !! i = Some card ->
             take 16 (drop (length v - 16 * (Z.to_nat (k env) - i)) v)
             = encode_card card)
       /\ (_draft_is_finished (state env) = true ->
           drop (length v - 16 * Z.to_nat (k env)) v
           = replicate (16 * Z.to_nat (k env)) 0%Q
           /\ draft_ordering env' = draft_ordering env).
Proof.
  intros Hw Hk Hn Hhand Hhist Hcost.
  exists (code_layout env), (set_draft_ordering (new_ordering env) env).
  split; [by apply encode_state_draft_layout |].
  pose proof (choice_block_length env Hw Hk Hhand) as Hcb.
  pose proof (mana_curve_length (chosen env)) as Hmc.
  assert (Hwidths : forall cards : list Card,
             Forall (fun b : list Q => length b = 16%nat) (encode_card <$> cards)).
  { intros cards. apply Forall_fmap, Forall_forall. intros c _. apply Hw. }
  set (M := optional (use_mana_curve env) (mana_curve (chosen env))).
  assert (HM : length M = (if use_mana_curve env then 13 else 0)%nat).
  { unfold M. by destruct (use_mana_curve env). }
  split; [|split; [|split]].
  - intros Hmana. unfold code_layout, spec_layout. rewrite Hmana. simpl optional.
    by rewrite !app_nil_r.
  - intros Hhis. unfold code_layout. fold M. rewrite Hhis. simpl optional.
    unfold history_block, features_of. split.
    + intros j card Hj. rewrite <- drop_drop, drop_app_length' by done.
      rewrite <- !app_assoc. apply concat_slot; [apply Hwidths |].
      by rewrite list_lookup_fmap, Hj.
    + intros i Hi. rewrite lookup_app_r by lia.
      rewrite <- app_assoc, lookup_app_r
        by (rewrite (encoded_cards_length Hw); lia).
      rewrite lookup_app_l.
      * apply lookup_replicate_2. rewrite (encoded_cards_length Hw). lia.
      * rewrite length_replicate, (encoded_cards_length Hw). lia.
  - intros Hfin i card Hi.
    assert (Hshown : length (shown env) = Z.to_nat (k env)).
    { unfold shown. destruct (sort_cards env).
      - rewrite sorted_perm. by apply offered_length, Hhand.
      - by apply offered_length, Hhand. }
    pose proof (lookup_lt_Some _ _ _ Hi) as Hlt.
    unfold code_layout. fold M.
    set (H := optional (use_draft_history env) (history_block env)).
    rewrite !length_app, Hcb.
    replace (length M + (length H + 16 * Z.to_nat (k env))
             - 16 * (Z.to_nat (k env) - i))%nat
      with (length M + (length H + 16 * i))%nat by lia.
    rewrite <- drop_drop, drop_app_length' by done.
    rewrite <- drop_drop, drop_app_length' by done.
    unfold choice_block, features_of. rewrite Hfin.
    rewrite <- (app_nil_r (concat _)). apply concat_slot; [apply Hwidths |].
    by rewrite list_lookup_fmap, Hi.
  - intros Hfin. split.
    + unfold code_layout. rewrite app_assoc. rewrite drop_app_length'.
      * unfold choice_block. by rewrite Hfin.
      * rewrite !length_app, Hcb. lia.
    + cbn [draft_ordering set_draft_ordering]. unfold new_ordering. by rewrite Hfin.
Qed.
End DraftSlots.


(* ===================================================================== *)
(** ** The range of the draft reward *)
(* ===================================================================== *)

Section DraftRewardRange.
Context `{Eng : Engine} `{Ag : !Agents} `{Base : !BaseEnv}.
Import Draft DraftFrames DraftRewards.

Lemma sum_Z_decided (l : list Z) :
  decided l -> - Z.of_nat (length l) <= sum_Z l <= Z.of_nat (length l).
Proof.
  induction 1 as [|x l Hx _ IH]; [done |].
  cbn [sum_Z foldr length] in *. fold (sum_Z l). lia.
Qed.

Lemma np_mean_decided (l : list Z) :
  decided l -> l <> [] -> in_reward_range (np_mean l).
Proof.
  intros Hl Hne. pose proof (sum_Z_decided l Hl) as Hsum.
  destruct l as [|x l]; [done |]. unfold np_mean, in_reward_range.
  set (s := sum_Z (x :: l)) in *.
  assert (Hp : Z.pos (Pos.of_nat (length (x :: l))) = Z.of_nat (length (x :: l))).
  { cbn [length]. rewrite <- Pos.of_nat_succ, Zpos_P_of_succ_nat. lia. }
  unfold Qle. cbn [Qnum Qden]. rewrite Hp. lia.
Qed.

Lemma in_reward_range_neg x : in_reward_range x -> in_reward_range (Num_neg x).
Proof.
  destruct x as [q|]; [|done]. unfold in_reward_range, Num_neg.
  intros [Hlo Hhi]. split.
  - apply Qopp_le_compat in Hhi. exact Hhi.
  - apply Qopp_le_compat in Hlo. exact Hlo.
Qed.

Lemma draft_step_range fuel action env r env' :
  decided (results env) ->
  step fuel action env = Ok r env' ->
  decided (results env')
  /\ evaluation_battles env' = evaluation_battles env
  /\ (done r = false -> reward r = Fin 0)
  /\ (done r = true -> reward r = np_mean (results env'))
  /\ (1 <= evaluation_battles env -> in_reward_range (reward r))
  /\ (done r = true -> evaluation_battles env <= 0 -> results env' = results env).
Proof.
  intros Hdec Hrun.
  pose proof (draft_step_reward _ _ _ _ _ Hrun) as (HN & Hnot & _).
  apply draft_step_inv in Hrun as (Hfin & a & idx & card & _ & _ & _ & Hrest).
  simpl in Hrest. destruct (_draft_is_finished (act (Draft.state env) a)).
  2:{ destruct Hrest as (Henc & Hrw & Hd & _).
      apply draft_encode_state_framed in Henc. unfold ordering_only in Henc.
      assert (Hres : results env' = results env) by (by rewrite Henc).
      rewrite Hres, Hrw, Hd. split; [done |]. split; [done |].
      split; [done |]. split; [done |]. split; [|done].
      intros _. unfold in_reward_range, Qle. simpl. lia. }
  destruct Hrest as (env2 & Hev & Henc & Hd).
  apply draft_encode_state_framed in Henc. unfold ordering_only in Henc.
  assert (Hres : results env' = results env2) by (by rewrite Henc).
  rewrite Hres, Hd.
  destruct (decide (evaluation_battles env = 1)) as [H1|H1].
  - apply evaluate_one in Hev as (w & e1 & _ & _ & Hres2 & Hrw & _); [|done].
    rewrite Hres2, Hrw.
    assert (Hw : decided [outcome w]).
    { constructor; [apply outcome_sign | constructor]. }
    split; [done |]. split; [done |]. split; [done |]. split.
    + intros _. unfold np_mean, outcome. cbn [length sum_Z foldr].
      rewrite raw_reward_code. unfold inject_Z. do 2 f_equal. lia.
    + split; [|lia]. intros _. unfold in_reward_range, inject_Z, Qle. simpl.
      destruct w; simpl; lia.
  - apply evaluate_many in Hev as (ws & Hlen & Hres2 & Hrw & _); [|done].
    simpl in Hlen, Hres2. rewrite Hrw, Hres2.
    assert (Hall : decided (results env ++ (outcome <$> ws))).
    { apply Forall_app. split; [done |].
      apply Forall_fmap, Forall_forall. intros w _. apply outcome_sign. }
    split; [done |]. split; [done |]. split; [done |]. split; [done |]. split.
    + intros Hpos. apply np_mean_decided; [done |].
      destruct ws as [|w ws]; [simpl in Hlen; lia |].
      intros Hnil. apply app_eq_nil in Hnil as [_ Hnil]. done.
    + intros _ Hle. destruct ws as [|w ws]; [by rewrite app_nil_r |].
      simpl in Hlen. lia.
Qed.

(** The rewards that the draft environments return lie in the declared
    range [-1 .. 1] whenever at least one evaluation battle is asked for:
    0 on every pick that does not complete the draft, and on the last
    pick the mean of the recorded outcomes, each of which is 1 or -1; the
    single-agent and self-play environments hand on this reward or its
    negation.  With no evaluation battle asked for, nothing is recorded
    and the reward on the last pick after a [reset] is not a number. *)
Theorem draft_reward_in_range (fuel : nat) :
  (forall action env r env',
      decided (results env) ->
      step fuel action env = Ok r env' ->
      decided (results env')
      /\ (done r = false -> reward r = Fin 0)
      /\ (done r = true -> reward r = np_mean (results env'))
      /\ (1 <= evaluation_battles env -> in_reward_range (reward r))
      /\ (done r = true -> evaluation_battles env <= 0 -> results env = [] ->
          reward r = NaN))
  /\ (forall action env r env',
      decided (results (DraftSingle.parent env)) ->
      1 <= evaluation_battles (DraftSingle.parent env) ->
      DraftSingle.step fuel action env = Ok r env' ->
      in_reward_range (reward r)
      /\ decided (results (DraftSingle.parent env')))
  /\ (forall action env r env',
      decided (results (DraftSelfPlay.parent env)) ->
      1 <= evaluation_battles (DraftSelfPlay.parent env) ->
      DraftSelfPlay.step fuel action env = Ok r env' ->
      in_reward_range (reward r)
      /\ decided (results (DraftSelfPlay.parent env'))).
Proof.
  split; [|split].
  - intros action env r env' Hdec Hrun.
    destruct (draft_step_range _ _ _ _ _ Hdec Hrun)
      as (Hdec' & _ & Hnot & Hmean & Hrange & Hnone).
    split; [done |]. split; [done |]. split; [done |]. split; [done |].
    intros Hd Hle Hnil. rewrite (Hmean Hd), (Hnone Hd Hle), Hnil. done.
  - intros action env r env' Hdec HN Hrun. unfold DraftSingle.step in Hrun.
    unfold bind at 1, get at 1 in Hrun.
    destruct (DraftSingle.play_first env).
    + apply bind_Ok in Hrun as (r1 & e1 & H1 & Hrun).
      apply bind_Ok in Hrun as (a & e2 & Ha & H2).
      apply draft_single_super_step in H1 as [H1 _].
      apply draft_single_super_step in H2 as [H2 _].
      destruct (draft_step_range _ _ _ _ _ Hdec H1) as (Hdec1 & HN1 & _).
      assert (He2 : DraftSingle.parent e2 = DraftSingle.parent e1).
      { unfold DraftSingle.ask_agent in Ha. destruct (agent_act _ _).
        by injection Ha as _ <-. }
      rewrite He2 in H2.
      destruct (draft_step_range _ _ _ _ _ Hdec1 H2) as (Hdec2 & _ & _ & _ & Hr & _).
      split; [apply Hr; lia | done].
    + apply bind_Ok in Hrun as (a & e1 & Ha & Hrun).
      apply bind_Ok in Hrun as (r1 & e2 & H1 & Hrun).
      apply bind_Ok in Hrun as (r2 & e3 & H2 & [-> ->]%ret_Ok).
      assert (He1 : DraftSingle.parent e1 = DraftSingle.parent env).
      { unfold DraftSingle.ask_agent in Ha. destruct (agent_act _ _).
        by injection Ha as _ <-. }
      apply draft_single_super_step in H1 as [H1 _].
      apply draft_single_super_step in H2 as [H2 _].
      rewrite He1 in H1.
      destruct (draft_step_range _ _ _ _ _ Hdec H1) as (Hdec1 & HN1 & _).
      destruct (draft_step_range _ _ _ _ _ Hdec1 H2) as (Hdec2 & _ & _ & _ & Hr & _).
      split; [|done]. cbn [reward]. apply in_reward_range_neg, Hr. lia.
  - intros action env r env' Hdec HN Hrun. unfold DraftSelfPlay.step in Hrun.
    apply bind_Ok in Hrun as (o & e0 & Henc & Hrun).
    assert (He0 : results (DraftSelfPlay.parent e0) = results (DraftSelfPlay.parent env)
                  /\ evaluation_battles (DraftSelfPlay.parent e0)
                     = evaluation_battles (DraftSelfPlay.parent env)).
    { unfold super in Henc.
      destruct (encode_state (DraftSelfPlay.parent env)) as [o' p'| |] eqn:Hp;
        [|done..].
      injection Henc as _ <-. apply draft_encode_state_framed in Hp.
      unfold ordering_only in Hp. rewrite Hp. done. }
    destruct He0 as [Hres0 HN0]. rewrite <- Hres0 in Hdec. rewrite <- HN0 in HN.
    unfold bind at 1, get at 1 in Hrun.
    destruct (DraftSelfPlay.play_first e0).
    + apply bind_Ok in Hrun as (r1 & e1 & H1 & Hrun).
      apply bind_Ok in Hrun as (a & e2 & Ha & H2).
      apply draft_selfplay_ask_policy in Ha as ->.
      apply draft_selfplay_super_step in H1 as [H1 _].
      apply draft_selfplay_super_step in H2 as [H2 _].
      destruct (draft_step_range _ _ _ _ _ Hdec H1) as (Hdec1 & HN1 & _).
      destruct (draft_step_range _ _ _ _ _ Hdec1 H2) as (Hdec2 & _ & _ & _ & Hr & _).
      split; [apply Hr; lia | done].
    + apply bind_Ok in Hrun as (a & e1 & Ha & Hrun).
      apply draft_selfplay_ask_policy in Ha as ->.
      apply bind_Ok in Hrun as (r1 & e2 & H1 & Hrun).
      apply bind_Ok in Hrun as (r2 & e3 & H2 & [-> ->]%ret_Ok).
      apply draft_selfplay_super_step in H1 as [H1 _].
      apply draft_selfplay_super_step in H2 as [H2 _].
      destruct (draft_step_range _ _ _ _ _ Hdec H1) as (Hdec1 & HN1 & _).
      destruct (draft_step_range _ _ _ _ _ Hdec1 H2) as (Hdec2 & _ & _ & _ & Hr & _).
      split; [|done]. cbn [reward]. apply in_reward_range_neg, Hr. lia.
Qed.
End DraftRewardRange.


(* ===================================================================== *)
(** ** The episode rewards of the battle environments *)
(* ===================================================================== *)

Section BattleStepInversion.
Context `{Eng : Engine} `{Ag : !Agents} `{Base : !BaseEnv}.

(** A parent [step] that returns, in full. *)
Lemma battle_step_inv action env r env' :
  Battle.step action env = Ok r env' ->
  exists oa,
    action_of_input (Battle.state env) (Battle.items env) action = inr oa
    /\ Battle.state env'
       = match oa with
         | Some a => act (Battle.state env) a
         | None => set_was_last_action_invalid (Battle.state env) true
         end
    /\ EpisodeRewards.credited (Battle.rewards env) env'
    /\ Battle.draft_agents env' = Battle.draft_agents env
    /\ Battle.return_action_mask env' = Battle.return_action_mask env
    /\ Battle.items env' = Battle.items env
    /\ Battle.k env' = Battle.k env /\ Battle.n env' = Battle.n env
    /\ Battle._seed env' = Battle._seed env
    /\ Battle.encode_state env' = Ok (obs r) env'.
Proof.
  unfold Battle.step.
  destruct (_battle_is_finished (Battle.state env)); [done |].
  destruct (action_of_input _ _ action) as [e|oa]; [done |].
  set (st := match oa with Some a0 => act (Battle.state env) a0
                      | None => set_was_last_action_invalid (Battle.state env) true end).
  intros Hrun. exists oa. split; [done |].
  assert (Hsettled : forall rw rs d inf,
    (o <- Battle.encode_state ;; ret (mkStep o rw d inf))%env
      (Battle.set_rewards rs (Battle.set_state st env)) = Ok r env' ->
    env' = Battle.set_rewards rs (Battle.set_state st env)
    /\ Battle.encode_state env' = Ok (obs r) env').
  { intros rw rs d inf Hr. unfold bind, ret in Hr.
    destruct (Battle.encode_state _) as [o e1| |] eqn:Henc; try done.
    pose proof (encode_state_pure _ _ _ Henc) as ->.
    injection Hr as <- <-. by simpl. }
  unfold EpisodeRewards.credited.
  destruct (winner st) as [w|] eqn:Hw.
  - unfold exc_map, exc_bind in Hrun.
    destruct (add_to_last _ _) as [e|rs] eqn:Hadd; [done |].
    apply Hsettled in Hrun as [-> Henc]. cbn. rewrite Hw.
    rewrite <- Hadd. repeat split; try done.
    change (Battle.rewards (Battle.set_state st env)) with (Battle.rewards env).
    by destruct w.
  - apply Hsettled in Hrun as [-> Henc]. cbn. rewrite Hw. done.
Qed.

Lemma sum_Z_app (l1 l2 : list Z) : sum_Z (l1 ++ l2) = sum_Z l1 + sum_Z l2.
Proof.
  unfold sum_Z. induction l1 as [|x l1 IH]; [done |].
  cbn [foldr app]. rewrite IH. lia.
Qed.

Lemma add_to_last_snoc (x : Z) (before after : list Z) :
  add_to_last (fun r => r + x) before = inr after ->
  exists pre y, before = pre ++ [y] /\ after = pre ++ [y + x].
Proof.
  destruct before as [|b before _] using rev_ind; [done |].
  unfold add_to_last. destruct (before ++ [b]) eqn:Heq.
  { by destruct before. }
  rewrite <- Heq. intros [= <-]. exists before, b. split; [done |].
  rewrite length_app. simpl.
  replace (length before + 1 - 1)%nat with (length before + 0)%nat by lia.
  by rewrite alter_app_r.
Qed.

Lemma credited_totals before env :
  EpisodeRewards.credited before env ->
  length (Battle.rewards env) = length before
  /\ sum_Z (Battle.rewards env)
     = sum_Z before + raw_reward (winner (Battle.state env))
  /\ take (length before - 1) (Battle.rewards env) = take (length before - 1) before.
Proof.
  unfold EpisodeRewards.credited. destruct (winner _) as [w|].
  - intros (pre & y & -> & ->)%add_to_last_snoc.
    rewrite !length_app, !sum_Z_app. cbn [length sum_Z foldr].
    split; [done |]. split; [lia |].
    replace (length pre + 1 - 1)%nat with (length pre) by lia.
    by rewrite !take_app_length.
  - intros ->. cbn [raw_reward]. split; [done |]. split; [|done].
    unfold raw_reward. lia.
Qed.

Lemma play_through_draft_rewards fuel env u env' :
  Battle.play_through_draft fuel env = Ok u env' ->
  Battle.rewards env' = Battle.rewards env.
Proof.
  revert env. induction fuel as [|fuel IH]; intros env; simpl; [done |].
  case_match; [|congruence].
  destruct (Battle.draft_round _ _) as [st agents]. intros Hrun.
  by rewrite (IH _ Hrun).
Qed.

Lemma battle_reset_rewards fuel env o env' :
  Battle.reset fuel env = Ok o env' ->
  Battle.rewards env' = Battle.rewards env ++ [0].
Proof.
  intros Hrun. unfold Battle.reset in Hrun.
  apply bind_Ok in Hrun as (? & e1 & ->%modify_Ok & Hrun).
  apply bind_Ok in Hrun as (? & e2 & ->%modify_Ok & Hrun).
  apply bind_Ok in Hrun as (? & e3 & Hplay & Hrun).
  apply bind_Ok in Hrun as (? & e4 & ->%modify_Ok & Hrun).
  apply encode_state_pure in Hrun as ->.
  apply play_through_draft_rewards in Hplay. cbn. rewrite Hplay.
  by destruct (base_reset _ _ _ _ _).
Qed.

(** What every parent [step] taken without a winner keeps, the opponent
    loops keep: they step only while there is no winner. *)
Lemma single_loop_live (I : Battle.Env -> Prop) fuel player prev env rs env' :
  (forall a p r p', I p -> winner (Battle.state p) = None ->
                    Battle.step a p = Ok r p' -> I p') ->
  I (BattleSingle.parent env) ->
  BattleSingle.opponent_loop fuel player prev env = Ok rs env' ->
  I (BattleSingle.parent env').
Proof.
  intros Hstep. revert prev env rs env'.
  induction fuel as [|fuel IH]; intros prev env rs env' HI; [done |].
  simpl. destruct (_ && _) eqn:Hcond; [|by intros [= <- <-]].
  apply andb_true_iff in Hcond as [_ Hw%bool_decide_eq_true].
  intros Hrun.
  apply bind_Ok in Hrun as (a & e1 & Hask & Hrun).
  unfold BattleSingle.ask_agent in Hask.
  destruct (agent_act _ _) as [a' agent]. injection Hask as <- <-.
  apply bind_Ok in Hrun as (r & e2 & Hs & Hrun).
  apply single_super_step in Hs as [Hs _].
  pose proof (Hstep _ _ _ _ HI Hw Hs) as HI2.
  destruct (Battle.info_invalid (info r) && negb (done r)) eqn:Hbrk.
  - apply bind_Ok in Hrun as (r3 & e3 & Hs3 & [-> ->]%ret_Ok).
    apply single_super_step in Hs3 as [Hs3 _].
    eapply Hstep; [exact HI2 | | exact Hs3].
    apply battle_step_ok in Hs as (_ & Hd & _).
    apply andb_true_iff in Hbrk as [_ Hnd%negb_true_iff].
    rewrite Hnd in Hd. symmetry in Hd. apply bool_decide_eq_false in Hd.
    by destruct (winner (Battle.state (BattleSingle.parent e2))); [destruct Hd |].
  - apply bind_Ok in Hrun as (rs2 & e3 & Hloop & [-> ->]%ret_Ok).
    by apply (IH _ _ _ _ HI2 Hloop).
Qed.

Lemma selfplay_loop_live (I : Battle.Env -> Prop) fuel player prev env rs env' :
  (forall a p r p', I p -> winner (Battle.state p) = None ->
                    Battle.step a p = Ok r p' -> I p') ->
  I (BattleSelfPlay.parent env) ->
  BattleSelfPlay.opponent_loop fuel player prev env = Ok rs env' ->
  I (BattleSelfPlay.parent env').
Proof.
  intros Hstep. revert prev env rs env'.
  induction fuel as [|fuel IH]; intros prev env rs env' HI; [done |].
  simpl. destruct (_ && _) eqn:Hcond; [|by intros [= <- <-]].
  apply andb_true_iff in Hcond as [_ Hw%bool_decide_eq_true].
  intros Hrun.
  apply bind_Ok in Hrun as ([[r calls] brk] & e1 & Hround & Hrun).
  assert (HI2 : I (BattleSelfPlay.parent e1)).
  { unfold BattleSelfPlay.adversary_round in Hround.
    apply bind_Ok in Hround as (a & e0 & ->%ask_policy_pure & Hround).
    apply bind_Ok in Hround as (r1 & e2 & Hs & Hround).
    apply selfplay_super_step in Hs as [Hs _].
    pose proof (Hstep _ _ _ _ HI Hw Hs) as HI1.
    destruct (Battle.info_invalid (info r1) && negb (done r1)) eqn:Hbrk.
    - apply bind_Ok in Hround as (r3 & e3 & Hs3 & [_ ->]%ret_Ok).
      apply selfplay_super_step in Hs3 as [Hs3 _].
      eapply Hstep; [exact HI1 | | exact Hs3].
      apply battle_step_ok in Hs as (_ & Hd & _).
      apply andb_true_iff in Hbrk as [_ Hnd%negb_true_iff].
      rewrite Hnd in Hd. symmetry in Hd. apply bool_decide_eq_false in Hd.
      by destruct (winner (Battle.state (BattleSelfPlay.parent e2))); [destruct Hd |].
    - by apply ret_Ok in Hround as [_ ->]. }
  simpl in Hrun. destruct brk.
  - by apply ret_Ok in Hrun as [-> ->].
  - apply bind_Ok in Hrun as (rs2 & e3 & Hloop & [-> ->]%ret_Ok).
    by apply (IH _ _ _ _ HI2 Hloop).
Qed.

Lemma credited_step before a p r p' :
  EpisodeRewards.credited before p -> winner (Battle.state p) = None ->
  Battle.step a p = Ok r p' -> EpisodeRewards.credited before p'.
Proof.
  intros Hc Hw Hs. unfold EpisodeRewards.credited in Hc. rewrite Hw in Hc.
  apply battle_step_inv in Hs as (_ & _ & _ & Hcred & _). by rewrite <- Hc.
Qed.

(** The list behind [get_episode_rewards] counts from the first player's
    side.  [reset] opens a new entry 0.  One [step], of the parent or of
    a scheduler with all the opponent's moves it makes, adds the winner's
    raw reward (1 for the first player, -1 for the second) to the last
    entry if the game has a winner afterwards and changes nothing
    otherwise; earlier entries stay.  So for a learner that plays second
    the list moves by the opposite of the reward that [step] returns. *)
Theorem episode_rewards_first_player_side (fuel : nat) :
  (forall env o env',
      Battle.reset fuel env = Ok o env' ->
      Battle.rewards env' = Battle.rewards env ++ [0])
  /\ (forall action env r env',
      Battle.step action env = Ok r env' ->
      EpisodeRewards.credited (Battle.rewards env) env'
      /\ sum_Z (Battle.rewards env') = sum_Z (Battle.rewards env) + reward r)
  /\ (forall action env r env',
      BattleSingle.step fuel action env = Ok r env' ->
      let before := Battle.rewards (BattleSingle.parent env) in
      let after := Battle.rewards (BattleSingle.parent env') in
      EpisodeRewards.credited before (BattleSingle.parent env')
      /\ length after = length before
      /\ take (length before - 1) after = take (length before - 1) before
      /\ sum_Z after
         = sum_Z before
           + (if BattleSingle.play_first env then reward r else - reward r))
  /\ (forall action env r env',
      BattleSelfPlay.step fuel action env = Ok r env' ->
      let before := Battle.rewards (BattleSelfPlay.parent env) in
      let after := Battle.rewards (BattleSelfPlay.parent env') in
      EpisodeRewards.credited before (BattleSelfPlay.parent env')
      /\ length after = length before
      /\ take (length before - 1) after = take (length before - 1) before
      /\ sum_Z after
         = sum_Z before
           + (if BattleSelfPlay.play_first env then reward r else - reward r)).
Proof.
  split; [exact (battle_reset_rewards fuel) |]. split; [|split].
  - intros action env r env' Hrun.
    pose proof (battle_step_ok _ _ _ _ Hrun) as (Hr & _).
    apply battle_step_inv in Hrun as (_ & _ & _ & Hc & _).
    split; [done |]. rewrite Hr. by apply credited_totals.
  - intros action env r env' Hrun before after.
    pose proof Hrun as Hcalls.
    apply single_step_as_calls in Hcalls as [calls Hcalls].
    pose proof (single_step_calls_ok _ _ _ _ _ _ Hcalls) as (Hr & _).
    assert (Hc : EpisodeRewards.credited before (BattleSingle.parent env')).
    { unfold BattleSingle.step_calls in Hcalls.
      apply bind_Ok in Hcalls as (e0 & ? & [-> ->]%get_Ok & Hcalls).
      apply bind_Ok in Hcalls as (r1 & e1 & Hs & Hcalls).
      apply single_super_step in Hs as [Hs _].
      apply battle_step_inv in Hs as (_ & _ & _ & Hc1 & _).
      apply bind_Ok in Hcalls as (rs & e2 & Hloop & Hcalls).
      apply bind_Ok in Hcalls as (e3 & ? & [-> ->]%get_Ok & [_ ->]%ret_Ok).
      apply (single_loop_live (EpisodeRewards.credited before)) in Hloop; [done | | done].
      intros a p r' p'. apply credited_step. }
    destruct (credited_totals _ _ Hc) as (Hlen & Hsum & Htake).
    split; [done |]. split; [done |]. split; [done |].
    unfold after. rewrite Hsum, Hr. unfold BattleSingle.state.
    destruct (BattleSingle.play_first env); lia.
  - intros action env r env' Hrun before after.
    pose proof Hrun as Hcalls.
    apply selfplay_step_as_calls in Hcalls as [calls Hcalls].
    pose proof (selfplay_step_calls_ok _ _ _ _ _ _ Hcalls) as (Hr & _).
    assert (Hc : EpisodeRewards.credited before (BattleSelfPlay.parent env')).
    { unfold BattleSelfPlay.step_calls in Hcalls.
      apply bind_Ok in Hcalls as (e0 & ? & [-> ->]%get_Ok & Hcalls).
      apply bind_Ok in Hcalls as (r1 & e1 & Hs & Hcalls).
      apply selfplay_super_step in Hs as [Hs _].
      apply battle_step_inv in Hs as (_ & _ & _ & Hc1 & _).
      apply bind_Ok in Hcalls as (rs & e2 & Hloop & Hcalls).
      apply bind_Ok in Hcalls as (e3 & ? & [-> ->]%get_Ok & [_ ->]%ret_Ok).
      apply (selfplay_loop_live (EpisodeRewards.credited before)) in Hloop; [done | | done].
      intros a p r' p'. apply credited_step. }
    destruct (credited_totals _ _ Hc) as (Hlen & Hsum & Htake).
    split; [done |]. split; [done |]. split; [done |].
    unfold after. rewrite Hsum, Hr. unfold BattleSelfPlay.state.
    destruct (BattleSelfPlay.play_first env); lia.
Qed.
End BattleStepInversion.


(* ===================================================================== *)
(** ** A learner's move that decodes to no action *)
(* ===================================================================== *)

Section NullMove.
Context `{Eng : Engine} `{Ag : !Agents} `{Base : !BaseEnv}.

Lemma PlayerOrder_eqb_refl p : PlayerOrder_eqb p p = true.
Proof. by destruct p. Qed.

Lemma set_invalid_same (i : Battle.Info) :
  Battle.set_invalid (Battle.info_invalid i) i = i.
Proof. by destruct i. Qed.

Lemma battle_null_move action env r env' :
  action_of_input (Battle.state env) (Battle.items env) action = inr None ->
  Battle.step action env = Ok r env' ->
  Battle.state env' = set_was_last_action_invalid (Battle.state env) true
  /\ Battle.info_invalid (info r) = true.
Proof.
  intros Hdec Hrun.
  pose proof (battle_step_ok _ _ _ _ Hrun) as (_ & _ & Hinv & _).
  apply battle_step_inv in Hrun as (oa & Hdec' & Hst & _).
  rewrite Hdec in Hdec'. injection Hdec' as <-.
  split; [done |]. by rewrite Hinv, Hst.
Qed.

(** An integer that [decode_action] maps to no action is not an error in
    the battle environments: the engine is not called, the game is as it
    was and the move is flagged invalid.  In the single-agent and
    self-play schedulers such a move of the learner leaves the turn with
    the learner, so the opponent is not asked and does not move: the
    scheduler's [step] returns what the parent's [step] returned, with
    the reward negated for a learner that plays second. *)
Theorem null_move_keeps_the_turn (fuel : nat) :
  (forall action env r env',
      action_of_input (Battle.state env) (Battle.items env) action = inr None ->
      Battle.step action env = Ok r env' ->
      game (Battle.state env') = game (Battle.state env)
      /\ was_last_action_invalid (Battle.state env') = true
      /\ Battle.info_invalid (info r) = true)
  /\ (forall action env r0 p0,
      action_of_input (BattleSingle.state env)
                      (Battle.items (BattleSingle.parent env)) action = inr None ->
      Battle.step action (BattleSingle.parent env) = Ok r0 p0 ->
      BattleSingle.step (S fuel) action env
      = Ok (mkStep (obs r0)
                   (if BattleSingle.play_first env then reward r0 else - reward r0)
                   (done r0) (info r0))
           (BattleSingle.set_parent p0 env))
  /\ (forall action env r0 p0,
      action_of_input (BattleSelfPlay.state env)
                      (Battle.items (BattleSelfPlay.parent env)) action = inr None ->
      Battle.step action (BattleSelfPlay.parent env) = Ok r0 p0 ->
      BattleSelfPlay.step (S fuel) action env
      = Ok (mkStep (obs r0)
                   (if BattleSelfPlay.play_first env then reward r0 else - reward r0)
                   (done r0) (info r0))
           (BattleSelfPlay.set_parent p0 env)).
Proof.
  split; [|split].
  - intros action env r env' Hdec Hrun.
    destruct (battle_null_move _ _ _ _ Hdec Hrun) as [Hst Hinv].
    rewrite Hst. done.
  - intros action env r0 p0 Hdec Hrun.
    destruct (battle_null_move _ _ _ _ Hdec Hrun) as [Hst Hinv].
    unfold BattleSingle.step, BattleSingle.step_calls.
    unfold bind at 1. unfold bind at 1, get at 1.
    unfold bind at 1. unfold BattleSingle.super_step, super. rewrite Hrun.
    unfold bind at 1. cbn [BattleSingle.opponent_loop].
    assert (Hturn : PlayerOrder_eqb
                      (player_id (current_player
                         (BattleSingle.state (BattleSingle.set_parent p0 env))))
                      (player_id (current_player (BattleSingle.state env))) = true).
    { unfold BattleSingle.state. cbn [BattleSingle.parent BattleSingle.set_parent].
      rewrite Hst. apply PlayerOrder_eqb_refl. }
    rewrite Hturn. cbn [negb andb]. unfold bind, get, ret. cbn.
    rewrite set_invalid_same. by destruct (BattleSingle.play_first env).
  - intros action env r0 p0 Hdec Hrun.
    destruct (battle_null_move _ _ _ _ Hdec Hrun) as [Hst Hinv].
    unfold BattleSelfPlay.step, BattleSelfPlay.step_calls.
    unfold bind at 1. unfold bind at 1, get at 1.
    unfold bind at 1. unfold BattleSelfPlay.super_step, super. rewrite Hrun.
    unfold bind at 1. cbn [BattleSelfPlay.opponent_loop].
    assert (Hturn : PlayerOrder_eqb
                      (player_id (current_player
                         (BattleSelfPlay.state (BattleSelfPlay.set_parent p0 env))))
                      (player_id (current_player (BattleSelfPlay.state env))) = true).
    { unfold BattleSelfPlay.state.
      cbn [BattleSelfPlay.parent BattleSelfPlay.set_parent].
      rewrite Hst. apply PlayerOrder_eqb_refl. }
    rewrite Hturn. cbn [negb andb]. unfold bind, get, ret. cbn.
    rewrite set_invalid_same. by destruct (BattleSelfPlay.play_first env).
Qed.
End NullMove.


(* ===================================================================== *)
(** ** What [reset] hands to the learner *)
(* ===================================================================== *)

Section ResetHandsOver.
Context `{Eng : Engine} `{Ag : !Agents} `{Base : !BaseEnv}.




End ResetHandsOver.


(* ===================================================================== *)
(** ** When a scheduler gives the turn back *)
(* ===================================================================== *)

Section TurnBack.
Context `{Eng : Engine} `{Ag : !Agents} `{Base : !BaseEnv}.


Lemma last_cons_cons {A} (x y : A) (l : list A) : last (x :: y :: l) = last (y :: l).
Proof. done. Qed.




End TurnBack.


(* ===================================================================== *)
(** ** Draft steps that fail before the engine is called *)
(* ===================================================================== *)

Section DraftRejections.
Context `{Eng : Engine} `{Ag : !Agents} `{Base : !BaseEnv}.
Import Draft.

(** A draft [step] that fails while it decodes its argument, remaps the
    card index or looks the card up in the hand raises before anything
    is recorded: the environment is as it was, no choice is kept and the
    engine has not been called.  In particular an integer that
    [decode_action] maps to no action, which the battle [step] flags as
    an invalid move, makes the draft [step] raise [AttributeError], and
    an action without an origin makes it raise [TypeError]. *)
Theorem draft_step_fails_clean (fuel : nat) (env : Env) (action : PyVal Action) :
  _draft_is_finished (Draft.state env) = false ->
  (forall x, selected_index env action = inl x ->
             step fuel action env = Raise x env)
  /\ (forall idx x,
        selected_index env action = inr idx ->
        py_index (hand (current_player (Draft.state env))) idx = inl x ->
        step fuel action env = Raise x env)
  /\ (action_of_input (Draft.state env) (items env) action = inr None ->
      step fuel action env = Raise AttributeError env)
  /\ (forall a,
        action_of_input (Draft.state env) (items env) action = inr (Some a) ->
        origin a = None ->
        step fuel action env = Raise TypeError env).
Proof.
  intros Hfin.
  assert (Hsel : forall x, selected_index env action = inl x ->
                           step fuel action env = Raise x env).
  { intros x Hx. unfold selected_index, exc_bind in Hx.
    unfold step, bind, get, lift_exc, raise, ret. rewrite Hfin.
    destruct (action_of_input _ _ action) as [e|[a|]].
    - by injection Hx as ->.
    - by rewrite Hx.
    - by injection Hx as <-. }
  split; [exact Hsel |]. split; [|split].
  - intros idx x Hidx Hcard. unfold selected_index, exc_bind in Hidx.
    unfold step, bind, get, lift_exc, raise, ret. rewrite Hfin.
    destruct (action_of_input _ _ action) as [e|[a|]]; [done | |done].
    by rewrite Hidx, Hcard.
  - intros Hdec. apply Hsel. unfold selected_index. by rewrite Hdec.
  - intros a Hdec Ho. apply Hsel. unfold selected_index. rewrite Hdec.
    cbn [exc_bind]. unfold chosen_index. by rewrite Ho.
Qed.
End DraftRejections.

(* ===================================================================== *)
(** ** The battle [reset] plays through the draft *)
(* ===================================================================== *)

Section PastDraft.
Context `{Eng : Engine} `{Ag : !Agents} `{Base : !BaseEnv}.

Lemma draft_round_length st agents :
  length (snd (Battle.draft_round st agents)) = length agents.
Proof.
  unfold Battle.draft_round.
  assert (Hgen : forall st0 acted,
    length (snd (foldl (fun '(st, acted) agent =>
                          let '(action, agent) := agent_act agent st in
                          (act st action, acted ++ [agent]))
                       (st0, acted) agents))
    = (length acted + length agents)%nat).
  { induction agents as [|agent agents IH]; intros st0 acted; simpl; [lia |].
    destruct (agent_act agent st0) as [action agent'].
    rewrite IH, length_app. simpl. lia. }
  by rewrite Hgen.
Qed.

Lemma play_through_draft_ok fuel env u env' :
  Battle.play_through_draft fuel env = Ok u env' ->
  phase (Battle.state env') <> DRAFT
  /\ length (Battle.draft_agents env') = length (Battle.draft_agents env)
  /\ Battle.return_action_mask env' = Battle.return_action_mask env
  /\ Battle.k env' = Battle.k env /\ Battle.n env' = Battle.n env
  /\ Battle._seed env' = Battle._seed env.
Proof.
  revert env. induction fuel as [|fuel IH]; intros env; simpl; [done |].
  destruct (Phase_eqb _ DRAFT) eqn:Hph.
  - pose proof (draft_round_length (Battle.state env) (Battle.draft_agents env)) as Hlen.
    destruct (Battle.draft_round _ _) as [st agents]. intros Hrun.
    apply IH in Hrun as (Hp & Hl & Hm & Hk & Hn & Hs).
    split; [done |]. rewrite Hl, Hm, Hk, Hn, Hs. done.
  - intros [= <- <-]. split; [|done]. intros Heq. rewrite Heq in Hph. done.
Qed.

Lemma play_through_draft_stuck fuel env :
  phase (Battle.state env) = DRAFT -> Battle.draft_agents env = [] ->
  Battle.play_through_draft fuel env = Diverge.
Proof.
  revert env. induction fuel as [|fuel IH]; intros env Hph Hag; simpl; [done |].
  rewrite Hph, Hag. cbn. apply IH; done.
Qed.

(** The battle [reset] does not return in the draft phase: it lets the
    draft agents pick, round after round, until the engine leaves the
    draft, then opens a new reward entry and returns the observation of
    the state it arrived at.  The settings and the number of draft
    agents are as before.  With no draft agents an engine that starts in
    the draft phase is never moved out of it, and [reset] does not
    return. *)
Theorem battle_reset_past_draft (fuel : nat) (env : Battle.Env) :
  (forall o env',
      Battle.reset fuel env = Ok o env' ->
      phase (Battle.state env') <> DRAFT
      /\ Battle.encode_state env' = Ok o env'
      /\ Battle.rewards env' = Battle.rewards env ++ [0]
      /\ length (Battle.draft_agents env') = length (Battle.draft_agents env)
      /\ Battle.items env' = Battle.items env
      /\ Battle.k env' = Battle.k env /\ Battle.n env' = Battle.n env
      /\ Battle.return_action_mask env' = Battle.return_action_mask env)
  /\ (Battle.draft_agents env = [] ->
      phase (snd (base_reset (Battle._seed env) (Battle.state env)
                             (Battle.items env) (Battle.k env) (Battle.n env)))
      = DRAFT ->
      Battle.reset fuel env = Diverge).
Proof.
  split.
  - intros o env' Hrun.
    pose proof (reset_returns_encoding _ _ _ _ Hrun) as [Henc Hitems].
    pose proof (battle_reset_rewards _ _ _ _ Hrun) as Hrw.
    unfold Battle.reset in Hrun.
    apply bind_Ok in Hrun as (? & e1 & ->%modify_Ok & Hrun).
    apply bind_Ok in Hrun as (? & e2 & ->%modify_Ok & Hrun).
    apply bind_Ok in Hrun as (? & e3 & Hplay & Hrun).
    apply bind_Ok in Hrun as (? & e4 & ->%modify_Ok & Hrun).
    apply encode_state_pure in Hrun as ->.
    apply play_through_draft_ok in Hplay as (Hp & Hl & Hm & Hk & Hn & _).
    cbn in *. destruct (base_reset _ _ _ _ _) as [sd st]. cbn in *.
    rewrite length_fmap in Hl. done.
  - intros Hag Hph. unfold Battle.reset, bind, modify.
    destruct (base_reset _ _ _ _ _) as [sd st] eqn:Hbase. cbn in Hph.
    rewrite play_through_draft_stuck; [done | done |].
    cbn. by rewrite Hag.
Qed.
End PastDraft.


(* ===================================================================== *)
(** ** The bookkeeping of an evaluation *)
(* ===================================================================== *)

Section EvaluateBookkeeping.
Import Experiment EvaluationBooks.

Lemma sum_Q_app (a b : list Q) : (sum_Q (a ++ b) == sum_Q a + sum_Q b)%Q.
Proof.
  unfold sum_Q. induction a as [|x a IH]; cbn [foldr app].
  - ring.
  - rewrite IH. ring.
Qed.

Lemma add_to_last_inv {A} (f : A -> A) (l l' : list A) :
  add_to_last f l = inr l' ->
  exists pre y, l = pre ++ [y] /\ l' = pre ++ [f y].
Proof.
  destruct l as [|b l _] using rev_ind; [done |].
  unfold add_to_last. destruct (l ++ [b]) eqn:Heq.
  { by destruct l. }
  rewrite <- Heq. intros [= <-]. exists l, b. split; [done |].
  rewrite length_app. simpl.
  replace (length l + 1 - 1)%nat with (length l + 0)%nat by lia.
  by rewrite alter_app_r.
Qed.

Lemma add_to_last_returns {A} (f : A -> A) (pre : list A) (y : A) :
  add_to_last f (pre ++ [y]) = inr (pre ++ [f y]).
Proof.
  unfold add_to_last. destruct (pre ++ [y]) eqn:Heq.
  { by destruct pre. }
  rewrite <- Heq. rewrite length_app. simpl.
  replace (length pre + 1 - 1)%nat with (length pre + 0)%nat by lia.
  by rewrite alter_app_r.
Qed.

Lemma picked_all {A} (d : A) (l : list A) :
  picked d l (py_range (Z.of_nat (length l))) = l.
Proof.
  unfold picked, py_range. rewrite Nat2Z.id, <- list_fmap_compose.
  apply list_eq. intros i. rewrite list_lookup_fmap.
  destruct (decide (i < length l)%nat) as [Hlt|Hge].
  - rewrite lookup_seq_lt by done. cbn. rewrite Nat2Z.id.
    destruct (lookup_lt_is_Some_2 l i Hlt) as [x Hx]. by rewrite Hx.
  - rewrite lookup_seq_ge by lia. cbn. symmetry. apply lookup_ge_None. lia.
Qed.

Lemma concat_insert (books : list (list Q)) (i : nat) (part part' : list Q) :
  books !! i = Some part ->
  concat books = concat (take i books) ++ part ++ concat (drop (S i) books)
  /\ concat (<[i := part']> books)
     = concat (take i books) ++ part' ++ concat (drop (S i) books).
Proof.
  intros Hi. pose proof (lookup_lt_Some _ _ _ Hi) as Hlt. split.
  - rewrite <- (take_drop_middle books i part Hi) at 1.
    by rewrite concat_app.
  - rewrite insert_take_drop by done. by rewrite concat_app.
Qed.

Lemma record_one (n : nat) (books : list (list Q)) (rewards : list Q)
    (dones : list bool) (i : Z) :
  books_ok n books -> length rewards = n -> length dones = n ->
  0 <= i < Z.of_nat n ->
  exists books',
    (try! part := py_index books i in
     try! reward := py_index rewards i in
     try! part := add_to_last (fun x => x + reward)%Q part in
     try! d := py_index dones i in
     let part := if d : bool then part ++ [0%Q] else part in
     inr (<[Z.to_nat i := part]> books))%exc = inr books'
    /\ books_ok n books'
    /\ (sum_Q (concat books')
        == sum_Q (concat books) + default 0%Q (rewards !! Z.to_nat i))%Q
    /\ length (concat books')
       = (length (concat books)
          + length (filter (fun d => d = true)
                           [default false (dones !! Z.to_nat i)]))%nat.
Proof.
  intros [Hlen Hne] Hr Hd Hi.
  remember (Z.to_nat i) as j eqn:Hj.
  assert (Hzi : i = Z.of_nat j) by lia. rewrite Hzi. clear Hzi.
  destruct (lookup_lt_is_Some_2 books j) as [part Hpart]; [lia |].
  destruct (lookup_lt_is_Some_2 rewards j) as [reward Hreward]; [lia |].
  destruct (lookup_lt_is_Some_2 dones j) as [d Hdone]; [lia |].
  rewrite (py_index_lookup _ _ _ Hpart), (py_index_lookup _ _ _ Hreward),
          (py_index_lookup _ _ _ Hdone).
  cbn [exc_bind].
  assert (Hpne : part <> []).
  { rewrite Forall_lookup in Hne. by apply (Hne _ _ Hpart). }
  destruct part as [|y pre _] using rev_ind; [done |].
  rewrite add_to_last_returns. cbn [exc_bind].
  eexists. split; [done |].
  rewrite Hreward, Hdone. cbn [default].
  destruct (concat_insert books j (pre ++ [y])
              (if d then (pre ++ [(y + reward)%Q]) ++ [0%Q]
               else pre ++ [(y + reward)%Q]) Hpart) as [Hold Hnew].
  split; [|split].
  - split; [by rewrite length_insert |].
    apply Forall_insert; [done |]. destruct d; by destruct pre.
  - rewrite Hnew, Hold. rewrite !sum_Q_app.
    destruct d; rewrite !sum_Q_app; unfold sum_Q, id; cbn [foldr]; ring.
  - rewrite Hnew, Hold. rewrite !length_app.
    destruct d; rewrite ?length_app; unfold id; simpl; lia.
Qed.

Lemma record_many (n : nat) (rewards : list Q) (dones : list bool) (idx : list Z) :
  length rewards = n -> length dones = n ->
  Forall (fun i => 0 <= i < Z.of_nat n) idx ->
  forall books,
    books_ok n books ->
    exists books',
      exc_foldl
        (fun books i =>
           (try! part := py_index books i in
            try! reward := py_index rewards i in
            try! part := add_to_last (fun x => x + reward)%Q part in
            try! d := py_index dones i in
            let part := if d : bool then part ++ [0%Q] else part in
            inr (<[Z.to_nat i := part]> books))%exc)
        books idx = inr books'
      /\ books_ok n books'
      /\ (sum_Q (concat books')
          == sum_Q (concat books) + sum_Q (picked 0%Q rewards idx))%Q
      /\ length (concat books')
         = (length (concat books)
            + length (filter (fun d => d = true) (picked false dones idx)))%nat.
Proof.
  intros Hr Hd Hidx. induction Hidx as [|i idx Hi Hidx IH]; intros books Hok.
  - exists books. split; [done |]. split; [done |]. split.
    + change (sum_Q (picked 0%Q rewards [])) with 0%Q. ring.
    + cbn. lia.
  - destruct (record_one n books rewards dones i Hok Hr Hd Hi)
      as (b1 & Hrun1 & Hok1 & Hsum1 & Hcnt1).
    destruct (IH b1 Hok1) as (b2 & Hrun2 & Hok2 & Hsum2 & Hcnt2).
    exists b2. split.
    { rewrite exc_foldl_cons. cbv beta. rewrite Hrun1. exact Hrun2. }
    split; [done |]. split.
    + rewrite Hsum2, Hsum1.
      change (picked 0%Q rewards (i :: idx))
        with ([default 0%Q (rewards !! Z.to_nat i)] ++ picked 0%Q rewards idx).
      rewrite (sum_Q_app [_]).
      change (sum_Q [default 0%Q (rewards !! Z.to_nat i)])
        with (default 0%Q (rewards !! Z.to_nat i) + 0)%Q.
      ring.
    + rewrite Hcnt2, Hcnt1.
      change (picked false dones (i :: idx))
        with ([default false (dones !! Z.to_nat i)] ++ picked false dones idx).
      rewrite filter_app, length_app. lia.
Qed.

Lemma record_step_ok (n : nat) (books : list (list Q)) (rewards : list Q)
    (dones : list bool) :
  books_ok n books -> length rewards = n -> length dones = n ->
  exists books',
    record_step (Z.of_nat n) books rewards dones = inr books'
    /\ books_ok n books'
    /\ (sum_Q (concat books') == sum_Q (concat books) + sum_Q rewards)%Q
    /\ length (concat books')
       = (length (concat books) + length (filter (fun d => d = true) dones))%nat.
Proof.
  intros Hok Hr Hd.
  assert (Hidx : Forall (fun i => 0 <= i < Z.of_nat n) (py_range (Z.of_nat n))).
  { apply Forall_lookup_2. intros j x [-> Hlt]%py_range_lookup. lia. }
  destruct (record_many n rewards dones _ Hr Hd Hidx books Hok)
    as (b' & Hrun & Hok' & Hsum & Hcnt).
  exists b'. split; [exact Hrun |]. split; [done |].
  pose proof (picked_all 0%Q rewards) as Hall1. rewrite Hr in Hall1.
  pose proof (picked_all false dones) as Hall2. rewrite Hd in Hall2.
  rewrite Hall1 in Hsum. rewrite Hall2 in Hcnt. done.
Qed.

(** The list whose mean [evaluate] returns has one entry for every
    episode that ended during the evaluation and one more for every
    environment: the reward that each environment gathered since its
    last finished episode, 0 if it has just finished one, is counted as
    an episode of its own.  Its sum is the sum of all the rewards
    received.  So the mean is the total reward divided by the number of
    finished episodes plus the number of environments.  On reward and
    done vectors of the length [num_envs] no index is out of range. *)
Theorem evaluation_counts_open_episodes (num_envs : nat)
    (steps : list (list Q * list bool)) :
  Forall (fun step => length (fst step) = num_envs
                      /\ length (snd step) = num_envs) steps ->
  exists all,
    all_rewards (Z.of_nat num_envs) steps = inr all
    /\ length all = (num_envs + finished steps)%nat
    /\ (sum_Q all == sum_Q (concat (fst <$> steps)))%Q.
Proof.
  intros Hsteps. unfold all_rewards.
  set (books0 := (fun _ : Z => [0%Q]) <$> py_range (Z.of_nat num_envs)).
  assert (Hok0 : books_ok num_envs books0).
  { split.
    - unfold books0. by rewrite length_fmap, py_range_length, Nat2Z.id.
    - unfold books0. apply Forall_fmap, Forall_forall. by intros. }
  assert (Hzeros : forall l : list Z,
    (sum_Q (concat ((fun _ : Z => [0%Q]) <$> l)) == 0)%Q
    /\ length (concat ((fun _ : Z => [0%Q]) <$> l)) = length l).
  { induction l as [|x l [IHs IHl]]; [split; reflexivity |].
    cbn [fmap list_fmap concat app length]. split; [|by rewrite IHl].
    unfold sum_Q in *. cbn [foldr]. rewrite IHs. ring. }
  destruct (Hzeros (py_range (Z.of_nat num_envs))) as [Hs0 Hl0].
  rewrite py_range_length, Nat2Z.id in Hl0. fold books0 in Hs0, Hl0.
  clearbody books0. clear Hzeros.
  assert (Hgen : forall books,
    books_ok num_envs books ->
    exists books',
      exc_foldl (fun books step =>
                   record_step (Z.of_nat num_envs) books (fst step) (snd step))
                books steps = inr books'
      /\ (sum_Q (concat books')
          == sum_Q (concat books) + sum_Q (concat (fst <$> steps)))%Q
      /\ length (concat books')
         = (length (concat books) + finished steps)%nat).
  { induction Hsteps as [|[rewards dones] steps [Hr Hd] _ IH]; intros books Hok.
    - exists books. split; [done |]. split.
      + change (sum_Q (concat (fst <$> []))) with 0%Q. ring.
      + unfold finished. cbn. lia.
    - cbn [fst snd] in Hr, Hd.
      destruct (record_step_ok num_envs books rewards dones Hok Hr Hd)
        as (b1 & Hrun1 & Hok1 & Hsum1 & Hcnt1).
      destruct (IH b1 Hok1) as (b2 & Hrun2 & Hsum2 & Hcnt2).
      exists b2. split.
      { rewrite exc_foldl_cons. cbn [fst snd]. rewrite Hrun1. exact Hrun2. }
      split.
      + rewrite Hsum2, Hsum1. cbn [fmap list_fmap fst concat].
        rewrite sum_Q_app. ring.
      + rewrite Hcnt2, Hcnt1. unfold finished. cbn [fmap list_fmap snd concat].
        rewrite filter_app, length_app. lia. }
  destruct (Hgen books0 Hok0) as (b' & Hrun & Hsum & Hcnt).
  rewrite Hrun. cbn [exc_bind]. eexists. split; [done |]. split.
  - rewrite Hcnt, Hl0. done.
  - rewrite Hsum, Hs0. ring.
Qed.
End EvaluateBookkeeping.


(* ===================================================================== *)
(** ** The card shown is the card recorded *)
(* ===================================================================== *)

Section ShownIsPicked.
Context `{Eng : Engine} `{Ag : !Agents} `{Base : !BaseEnv}.
Import Draft DraftFrames DraftLayout DraftConfig.

Lemma py_index_nonneg {A} (l : list A) (i : Z) (x : A) :
  0 <= i -> py_index l i = inr x -> l !! Z.to_nat i = Some x.
Proof.
  intros Hi. unfold py_index, py_pos.
  destruct (Z.leb_spec 0 i); [|lia].
  destruct (Z.ltb_spec i (Z.of_nat (length l))); cbn [andb].
  - destruct (l !! Z.to_nat i); [by intros [= ->] | done].
  - destruct (Z.ltb_spec i 0); [lia |]. rewrite andb_false_r. done.
Qed.

Lemma offered_take env :
  0 <= k env -> k env <= Z.of_nat (length (hand (current_player (Draft.state env)))) ->
  offered env = take (Z.to_nat (k env)) (hand (current_player (Draft.state env))).
Proof.
  intros Hk Hhand. unfold offered, py_slice, py_bound.
  destruct (Z.ltb_spec 0 0); [lia |].
  destruct (Z.ltb_spec (k env) 0); [lia |].
  replace (Z.to_nat (Z.min 0 _)) with 0%nat by lia.
  replace (Z.to_nat (Z.min (k env) _)) with (Z.to_nat (k env)) by lia.
  by rewrite drop_0, Nat.sub_0_r.
Qed.

(** The ordering and the cards shown, side by side. *)
Lemma presented env :
  _draft_is_finished (Draft.state env) = false ->
  0 <= k env -> k env <= Z.of_nat (length (hand (current_player (Draft.state env)))) ->
  exists P : list (Z * Card),
    new_ordering env = P.*1 /\ shown env = P.*2
    /\ Forall (fun d => 0 <= fst d
                        /\ hand (current_player (Draft.state env)) !! Z.to_nat (fst d)
                           = Some (snd d)) P.
Proof.
  intros Hfin Hk Hhand.
  pose proof (offered_length env Hk Hhand) as Hlen.
  destruct (positions_good (offered env) (k env) Hlen) as (Hfst & Hsnd & _).
  set (D := zip (py_range (k env)) (offered env)) in *.
  assert (HD : Forall (fun d => 0 <= fst d
                        /\ hand (current_player (Draft.state env)) !! Z.to_nat (fst d)
                           = Some (snd d)) D).
  { apply Forall_lookup_2. intros j [p c] [Hp Hc]%lookup_zip_Some. simpl in *.
    apply py_range_lookup in Hp as [-> _]. split; [lia |].
    rewrite Nat2Z.id. rewrite (offered_take env Hk Hhand) in Hc.
    by apply lookup_take_Some in Hc as [Hc _]. }
  unfold new_ordering, shown. rewrite Hfin. destruct (sort_cards env).
  - exists (sorted (fun d => card_id (snd d)) D). split; [done |]. split.
    + rewrite <- (sorted_fmap snd card_id). by rewrite Hsnd.
    + by rewrite sorted_perm.
  - exists D. by rewrite Hfst, Hsnd.
Qed.

Lemma encode_state_draft_env env v env' :
  0 <= k env ->
  (_draft_is_finished (Draft.state env) = false ->
   k env <= Z.of_nat (length (hand (current_player (Draft.state env))))) ->
  _encode_state_draft env = Ok v env' ->
  env' = set_draft_ordering (new_ordering env) env.
Proof.
  intros Hk Hhand Hrun.
  destruct (_draft_is_finished (Draft.state env)) eqn:Hfin.
  2:{ by apply (encode_state_draft_ordering env v env' Hk (Hhand eq_refl) Hfin). }
  unfold _encode_state_draft in Hrun.
  unfold bind at 1, get at 1 in Hrun. rewrite Hfin in Hrun. cbn [negb] in Hrun.
  unfold bind at 1, ret at 1 in Hrun. unfold bind at 1, get at 1 in Hrun.
  apply bind_Ok in Hrun as ([cards v2] & e3 & H2 & Hrun).
  assert (e3 = env) as ->.
  { destruct (use_draft_history _).
    - by apply lift_exc_Ok in H2 as [_ ->].
    - by apply ret_Ok in H2 as [_ ->]. }
  assert (env' = env) as ->.
  { destruct (use_mana_curve _).
    - by apply lift_exc_Ok in Hrun as [_ ->].
    - by apply ret_Ok in Hrun as [_ ->]. }
  unfold new_ordering. rewrite Hfin. by destruct env.
Qed.

Lemma new_ordering_set env :
  new_ordering (set_draft_ordering (new_ordering env) env) = new_ordering env.
Proof.
  unfold new_ordering. cbn. by destruct (_draft_is_finished (Draft.state env)).
Qed.

Lemma encode_state_synced env v env' :
  0 <= k env ->
  (_draft_is_finished (Draft.state env) = false ->
   k env <= Z.of_nat (length (hand (current_player (Draft.state env))))) ->
  encode_state env = Ok (Some v) env' ->
  draft_ordering env' = new_ordering env'.
Proof.
  intros Hk Hhand Hrun. unfold encode_state in Hrun.
  unfold bind at 1, get at 1 in Hrun.
  destruct (assembler_of _) as [[|]|].
  - apply bind_Ok in Hrun as (v1 & e1 & Henc & [_ ->]%ret_Ok).
    apply encode_state_draft_env in Henc as ->; [|done..].
    by rewrite new_ordering_set.
  - by apply ret_Ok in Hrun as [? _].
  - by apply ret_Ok in Hrun as [? _].
Qed.

(** The engine is handed the action as it was decoded. *)
Lemma draft_step_state fuel input env r env' a :
  step fuel input env = Ok r env' ->
  action_of_input (Draft.state env) (items env) input = inr (Some a) ->
  done r = false \/ evaluation_battles env <> 1 ->
  Draft.state env' = act (Draft.state env) a.
Proof.
  intros Hrun Hdec Hcase.
  apply draft_step_inv in Hrun as (_ & a' & idx & card & Hdec' & _ & _ & Hrest).
  rewrite Hdec in Hdec'. injection Hdec' as <-.
  simpl in Hrest. destruct (_draft_is_finished (act (Draft.state env) a)).
  - destruct Hrest as (env2 & Hev & Henc & Hd).
    destruct Hcase as [Hnd|HN]; [congruence |].
    apply evaluate_many in Hev as (ws & _ & _ & _ & _ & Hst & _); [|done].
    apply draft_encode_state_framed in Henc. unfold ordering_only in Henc.
    rewrite Henc. exact Hst.
  - destruct Hrest as (Henc & _).
    apply draft_encode_state_framed in Henc. unfold ordering_only in Henc.
    by rewrite Henc.
Qed.

(** The card recorded is the card shown.  Whenever [reset] or [step] of
    the draft environment returns an observation, on an engine state
    that offers at least [k] cards, it leaves in [draft_ordering] the
    ordering of the cards as that observation shows them.  With the
    ordering so left, an action with origin [o] below [k] makes the next
    [step] append to the choices of the player who moves the card that
    the observation shows in slot [o] of the current-choice block, which
    is the card at hand position [draft_ordering[o]].  The remapping
    serves this record only: the engine is handed the action as it was
    decoded, with the origin [o] itself, and the state the step leaves
    is the engine's answer to that action (except that a single
    evaluation battle is played on it in place). *)
Theorem shown_card_is_recorded (fuel : nat) :
  (forall env o v env',
      reset env = Ok o env' -> o = Some v ->
      0 <= k env ->
      (_draft_is_finished (Draft.state env') = false ->
       k env <= Z.of_nat (length (hand (current_player (Draft.state env'))))) ->
      draft_ordering env' = new_ordering env')
  /\ (forall action env r v env',
      step fuel action env = Ok r env' -> obs r = Some v ->
      0 <= k env ->
      (_draft_is_finished (Draft.state env') = false ->
       k env <= Z.of_nat (length (hand (current_player (Draft.state env'))))) ->
      draft_ordering env' = new_ordering env')
  /\ (forall input env r env' a o,
      draft_ordering env = new_ordering env ->
      0 <= k env ->
      k env <= Z.of_nat (length (hand (current_player (Draft.state env)))) ->
      step fuel input env = Ok r env' ->
      action_of_input (Draft.state env) (items env) input = inr (Some a) ->
      origin a = Some o -> 0 <= o < k env ->
      exists idx card,
        draft_ordering env !! Z.to_nat o = Some idx /\ 0 <= idx
        /\ hand (current_player (Draft.state env)) !! Z.to_nat idx = Some card
        /\ shown env !! Z.to_nat o = Some card
        /\ at_player (choices env') (player_id (current_player (Draft.state env)))
           = at_player (choices env) (player_id (current_player (Draft.state env)))
             ++ [card]
        /\ (done r = false \/ evaluation_battles env <> 1 ->
            Draft.state env' = act (Draft.state env) a)).
Proof.
  split; [|split].
  - intros env o v env' Hrun -> Hk Hhand.
    apply draft_reset_inv in Hrun as (e1 & Henc & Hcfg & _).
    pose proof (draft_encode_state_framed _ _ _ Henc) as Hfr.
    unfold ordering_only in Hfr.
    assert (Hst : Draft.state env' = Draft.state e1) by (by rewrite Hfr).
    assert (Hk1 : k e1 = k env) by apply Hcfg.
    apply encode_state_synced in Henc; [done | lia |].
    rewrite <- Hst, Hk1. exact Hhand.
  - intros action env r v env' Hrun Hobs Hk Hhand.
    assert (Hlast : exists e1, encode_state e1 = Ok (obs r) env' /\ k e1 = k env).
    { pose proof (draft_step_config fuel action _ _ _ Hrun) as Hcfg.
      apply draft_step_inv in Hrun as (_ & a & idx & card & _ & _ & _ & Hrest).
      simpl in Hrest. destruct (_draft_is_finished (act (Draft.state env) a)).
      - destruct Hrest as (env2 & _ & Henc & _). exists env2. split; [done |].
        pose proof (draft_encode_state_config _ _ _ Henc) as Hc2.
        destruct Hcfg as [Hk' _]. destruct Hc2 as [Hk2 _]. congruence.
      - destruct Hrest as (Henc & _). eexists. split; [exact Henc |]. done. }
    destruct Hlast as (e1 & Henc & Hk1). rewrite Hobs in Henc.
    pose proof (draft_encode_state_framed _ _ _ Henc) as Hfr.
    unfold ordering_only in Hfr.
    assert (Hst : Draft.state env' = Draft.state e1) by (by rewrite Hfr).
    apply encode_state_synced in Henc; [done | lia |].
    rewrite <- Hst, Hk1. exact Hhand.
  - intros input env r env' a o Hsync Hk Hhand Hrun Hdec Ho Hrange.
    pose proof (draft_step_inv _ _ _ _ _ Hrun) as (Hfin & _).
    pose proof (draft_step_state _ _ _ _ _ _ Hrun Hdec) as Hstate.
    apply draft_step_records_choice in Hrun
      as (a' & idx & card & Hdec' & Hidx & _ & Hcard & Hch).
    rewrite Hdec in Hdec'. injection Hdec' as <-.
    unfold chosen_index in Hidx. rewrite Ho in Hidx.
    destruct (Z.leb_spec 0 o); [|lia]. destruct (Z.ltb_spec o (k env)); [|lia].
    cbn [andb] in Hidx.
    assert (Hord : draft_ordering env !! Z.to_nat o = Some idx)
      by (apply py_index_nonneg; [lia | exact Hidx]).
    rewrite Hsync in Hidx.
    destruct (presented env Hfin Hk Hhand) as (P & HP & Hshown & Hgood).
    rewrite HP in Hidx. apply py_index_nonneg in Hidx; [|lia].
    apply list_lookup_fmap_Some in Hidx as ([i c] & Hi & Hp). simpl in Hi. subst i.
    rewrite Forall_lookup in Hgood. destruct (Hgood _ _ Hp) as [Hnn Hc].
    simpl in Hnn, Hc.
    apply py_index_nonneg in Hcard; [|done]. rewrite Hc in Hcard.
    injection Hcard as <-.
    exists idx, c. split; [done |]. split; [done |]. split; [done |].
    split; [by rewrite Hshown, list_lookup_fmap, Hp |].
    split; [|exact Hstate].
    rewrite Hch. unfold at_player, set_at_player.
    by destruct (player_id _), (choices env).
Qed.
End ShownIsPicked.

(* ##################################################################### *)
(** * The theorems at work on the small engine *)
(* ##################################################################### *)

Import Toy.

Lemma fill_cards_packs_witness :
  let hand := [[1%Q; 2%Q]; [3%Q; 4%Q]] in
  length (fill_cards hand 3 2) = 3%nat
  /\ take 2 (fill_cards hand 3 2) = hand
  /\ drop 2 (fill_cards hand 3 2) = [[0%Q; 0%Q]].
Proof.
  pose proof (fill_cards_packs [[1%Q; 2%Q]; [3%Q; 4%Q]] 3 2) as H.
  simpl in H. destruct H as (H1 & H2 & H3 & _); [lia |].
  split; [exact H1 | split; [exact H2 | exact H3]].
Defined.

Lemma battle_observation_shape_witness :
  let env0 := Battle.mkEnv fresh [0] [[Pick 0]; [Pick 1]] false true 3 30 None in
  let env := match Battle.reset 3 env0 with Ok _ e => e | _ => env0 end in
  let v := BattleLayout.spec_layout (Battle.items env) (Battle.state env) in
  Battle.reset 3 env0 = Ok (Some v) env /\ length v = 238%nat
  /\ Battle.encode_state env = Ok (Some v) env
  /\ take 16 (drop 8 v) = encode_card (7, 2)
  /\ take 16 (drop (8 + 16 * 3) v) = replicate 16 0%Q.
Proof.
  intros env0 env v.
  destruct (battle_observation_shape 3 env0 env (Some v))
    as (Henc & _ & Hlen & _ & Hcard & Hzero & _); [reflexivity | reflexivity |].
  assert (Hreset : Battle.reset 3 env0 = Ok (Some v) env) by (vm_compute; reflexivity).
  split; [exact Hreset |]. split; [exact Hlen |]. split; [exact Henc |].
  split.
  - exact (Hcard 0%nat (7, 2) eq_refl).
  - apply (Hzero 3%nat). vm_compute. split; [done | lia].
Defined.

(** The assembler, with history, mana curve and sorting enabled, on a
    draft where the acting player has chosen two cards of cost 2. *)
Lemma draft_observation_mana_curve_first_witness :
  let env := draft_env fresh true true true 1 ([(9, 2); (1, 2)], []) ([], []) in
  let v := DraftLayout.code_layout env in
  Draft._encode_state_draft env
  = Ok v (Draft.set_draft_ordering (DraftLayout.new_ordering env) env)
  /\ take 13 v = DraftLayout.mana_curve (DraftLayout.chosen env)
  /\ v !! 2%nat = Some (inject_Z 2)
  /\ DraftLayout.new_ordering env = [1; 2; 0].
Proof.
  intros env v.
  destruct (draft_observation_mana_curve_first env) as (Hrun & _ & _ & Htake & _ & _ & Hslot).
  - reflexivity.
  - intros c. reflexivity.
  - simpl. lia.
  - simpl. lia.
  - intros _. simpl. lia.
  - intros _. simpl. lia.
  - repeat constructor; simpl; lia.
  - split; [exact Hrun |]. split; [exact Htake |].
    split; [exact (Hslot 2 ltac:(lia)) | reflexivity].
Defined.

(** With the mana curve enabled the array is not in the order the
    specification gives: its last 13 cells are not the mana-curve block. *)
Lemma draft_mana_curve_not_last :
  let env := draft_env fresh false true false 1 ([(9, 2); (1, 2)], []) ([], []) in
  let v := outcome_value [] (Draft._encode_state_draft env) in
  Draft._encode_state_draft env = Ok v (outcome_env env (Draft._encode_state_draft env))
  /\ Draft.use_mana_curve env = true
  /\ v <> DraftLayout.spec_layout env
  /\ drop (length v - 13) v <> DraftLayout.mana_curve (DraftLayout.chosen env)
  /\ v !! (length v - 13 + 2)%nat = Some 0%Q
  /\ v !! 2%nat = Some (inject_Z 2).
Proof.
  intros env v. split; [reflexivity |]. split; [reflexivity |].
  split; [|split; [|split; reflexivity]].
  - intros Heq. vm_compute in Heq. discriminate Heq.
  - intros Heq. vm_compute in Heq. discriminate Heq.
Qed.

(** [step(None)] on a battle in progress and on a draft in progress. *)
Lemma step_rejects_by_value_error_only_witness :
  let benv := battle_env true (battle FIRST []) in
  let denv := draft_env fresh false false false 1 ([], []) ([], []) in
  Battle.step PyNone benv = Raise TypeError benv
  /\ Draft.step 0 PyNone denv = Raise TypeError denv
  /\ Battle.step (PyStr "pass") benv = Raise MalformedActionError benv.
Proof.
  intros benv denv.
  destruct step_rejects_by_value_error_only as (Hb & _ & Hbn & Hdn).
  destruct (Hbn benv eq_refl) as (Hnone & _).
  destruct (Hdn 0%nat denv eq_refl) as (Hdnone & _).
  split; [exact Hnone |]. split; [exact Hdnone |].
  exact (Hb benv (PyStr "pass") ValueError eq_refl ltac:(done) eq_refl).
Defined.

(** A finished battle and a finished draft. *)
Lemma step_after_end_raises_witness :
  let benv := battle_env true (won FIRST) in
  let denv := draft_env (battle FIRST []) false false false 1 ([], []) ([], []) in
  let senv := BattleSingle.mkEnv benv [Pass] false in
  let penv := BattleSelfPlay.mkEnv benv true None in
  Battle.step (PyInt 0) benv = Raise GameIsEndedError benv
  /\ Draft.step 3 (PyInt 0) denv = Raise GameIsEndedError denv
  /\ BattleSingle.step 3 PyNone senv = Raise GameIsEndedError senv
  /\ BattleSelfPlay.step 3 (PyInt 7) penv = Raise GameIsEndedError penv.
Proof.
  intros benv denv senv penv.
  destruct step_after_end_raises as (Hb & Hd & Hs & Hp & _).
  split; [exact (Hb benv (PyInt 0) eq_refl) |].
  split; [exact (Hd 3%nat denv (PyInt 0) eq_refl) |].
  split; [exact (Hs 3%nat senv PyNone eq_refl) |].
  exact (Hp 3%nat penv (PyInt 7) eq_refl).
Defined.

(** The ordering [2, 0, 1]: the codes 0, 1, 2 select the hand indices
    2, 0, 1, and [step(1)] records the card at hand index 0. *)
Lemma draft_choice_remap_witness :
  let env := Draft.set_draft_ordering [2; 0; 1]
               (draft_env fresh false false false 1 ([], []) ([], [])) in
  let run := Draft.step 3 (PyInt 1) env in
  Draft.chosen_index env (Pick 1) = inr 0
  /\ Draft.chosen_index env (Pick 5) = inr 0
  /\ (run = Ok (outcome_value no_draft_result run) (outcome_env env run)
      /\ fst (Draft.choices (outcome_env env run)) = [(7, 2)])
  /\ exists i0 i1 i2,
       Draft.draft_ordering env = [i0; i1; i2] /\ NoDup [i0; i1; i2].
Proof.
  intros env run. destruct (draft_choice_remap env) as (Hsel & Hstep & Hperm).
  split; [exact (Hsel (Pick 1) 1 eq_refl) |].
  split; [exact (Hsel (Pick 5) 5 eq_refl) |].
  split.
  - assert (Hrun : Draft.step 3 (PyInt 1) env
                   = Ok (outcome_value no_draft_result run) (outcome_env env run))
      by (vm_compute; reflexivity).
    split; [exact Hrun |].
    destruct (Hstep _ _ _ _ Hrun) as (idx & card & Hidx & Hcard & Hch).
    vm_compute in Hidx. injection Hidx as <-.
    vm_compute in Hcard. injection Hcard as <-.
    exact Hch.
  - destruct Hperm as (i0 & i1 & i2 & Hord & _ & _ & _ & Hnd & _).
    + reflexivity.
    + change (Draft.draft_ordering env) with [2; 0; 1].
      etrans; [apply perm_swap | apply perm_skip, perm_swap].
    + intros code Hcode. exists (Pick code). split; [|reflexivity].
      simpl. unfold toy_decode. simpl.
      destruct (Z.leb_spec 0 code); [|lia]. destruct (Z.ltb_spec code 3); [|lia]. done.
    + by exists i0, i1, i2.
Defined.

(** An episode: [reset], a pick by each player, then three evaluation
    battles; the scripted agents make [FIRST] win twice, then [SECOND]. *)
Lemma draft_evaluation_mean_witness :
  let env0 := draft_env (won FIRST) false false false 3 ([], [])
                        ([Strike; Strike; Pass], [Strike]) in
  let env1 := outcome_env env0 (Draft.reset env0) in
  let env := outcome_env env1 (Draft.step 5 (PyInt 0) env1) in
  let run := Draft.step 5 (PyInt 1) env in
  let r := outcome_value no_draft_result run in
  let env' := outcome_env env run in
  Draft.results env = []
  /\ run = Ok r env'
  /\ Draft.results env' = [1; 1; -1]
  /\ reward r = Fin (1 # 3)
  /\ length (Draft.info_winner (info r)) = 3%nat.
Proof.
  intros env0 env1 env run r env'.
  destruct (draft_evaluation_mean 5) as (Hreset & Hkeep & Heval & _).
  assert (Hempty1 : Draft.results env1 = []).
  { apply (Hreset env0 (outcome_value None (Draft.reset env0))).
    vm_compute. reflexivity. }
  assert (Hempty : Draft.results env = []).
  { rewrite <- Hempty1.
    apply (Hkeep (PyInt 0) env1
             (outcome_value no_draft_result (Draft.step 5 (PyInt 0) env1))).
    - vm_compute. reflexivity.
    - reflexivity. }
  assert (Hrun : Draft.step 5 (PyInt 1) env = Ok r env') by (vm_compute; reflexivity).
  destruct (Heval (PyInt 1) env env' r 3 eq_refl ltac:(lia) Hempty Hrun eq_refl)
    as (Hlen & Hres & _ & _ & Hmean & _).
  split; [exact Hempty |]. split; [exact Hrun |].
  split; [rewrite Hres; reflexivity |].
  split; [rewrite Hmean; reflexivity | exact Hlen].
Defined.




(** An environment built to play first: after the first [reset] the
    learner plays second and the adversary has opened; after the second,
    first again. *)
Lemma selfplay_reset_alternates_witness :
  let env := BattleSelfPlay.__init__
               (Battle.mkEnv fresh [0] [[Pick 0; Pick 2]; [Pick 1; Pick 0]]
                             false true 3 30 None)
               true (Some (fun _ => PyInt 0)) in
  let run := BattleSelfPlay.reset_calls 5 env in
  let res := outcome_value (None, []) run in
  let env' := outcome_env env run in
  let run2 := BattleSelfPlay.session 5 [BattleSelfPlay.DoReset; BattleSelfPlay.DoReset] env in
  (run = Ok res env'
   /\ BattleSelfPlay.play_first env' = false
   /\ length (snd res) = 1%nat)
  /\ (run2 = Ok tt (outcome_env env run2)
      /\ BattleSelfPlay.play_first (outcome_env env run2) = true).
Proof.
  intros env run res env' run2.
  destruct (selfplay_reset_alternates 5) as (Hreset & _ & Hsession).
  assert (Hrun : BattleSelfPlay.reset_calls 5 env = Ok (fst res, snd res) env')
    by (vm_compute; reflexivity).
  assert (Hrun2 : BattleSelfPlay.session 5
                    [BattleSelfPlay.DoReset; BattleSelfPlay.DoReset] env
                  = Ok tt (outcome_env env run2))
    by (vm_compute; reflexivity).
  split.
  - destruct (Hreset _ _ _ _ Hrun) as (Hpf & _).
    split; [vm_compute; reflexivity |]. split; [exact Hpf | reflexivity].
  - split; [exact Hrun2 |]. exact (Hsession _ _ _ Hrun2).
Defined.

(** A battle step and a draft [reset]: 238 cells, and 3 * 16. *)
Lemma observation_length_constant_witness :
  let benv := battle_env true (battle FIRST [(2, 1)]) in
  let denv := draft_env fresh false false false 1 ([], []) ([], []) in
  let brun := Battle.step (PyInt 0) benv in
  let drun := Draft.reset denv in
  (brun = Ok (outcome_value no_battle_result brun) (outcome_env benv brun)
   /\ length (default [] (obs (outcome_value no_battle_result brun))) = 238%nat)
  /\ (drun = Ok (outcome_value None drun) (outcome_env denv drun)
      /\ length (default [] (outcome_value None drun)) = 48%nat).
Proof.
  intros benv denv brun drun.
  destruct observation_length_constant as (Hb & _ & _ & _ & _ & Hd).
  assert (Hbrun : Battle.step (PyInt 0) benv
                  = Ok (outcome_value no_battle_result brun) (outcome_env benv brun))
    by (vm_compute; reflexivity).
  assert (Hdrun : Draft.reset denv
                  = Ok (outcome_value None drun) (outcome_env denv drun))
    by (vm_compute; reflexivity).
  split.
  - split; [exact Hbrun |].
    exact (Hb _ _ _ _ (default [] (obs (outcome_value no_battle_result brun)))
              Hbrun eq_refl).
  - split; [exact Hdrun |].
    exact (Hd _ _ _ (default [] (outcome_value None drun)) Hdrun eq_refl).
Defined.

(** Nine cards in hand. *)
Lemma over_capacity_raises_witness :
  let env := battle_env true (battle FIRST (replicate 9 (1, 1))) in
  Battle._encode_state_battle env = inl ValueError
  /\ length (fill_cards (encode_card <$> replicate 9 (1, 1)) 8 16) = 9%nat.
Proof.
  intros env.
  destruct (over_capacity_raises env) as [Hraise Hfull]; [reflexivity | reflexivity |].
  split; [exact Hraise |].
  rewrite Hfull; [reflexivity |]. change (8 <= 9). lia.
Defined.

(** The hand with the ids 7, 3, 5 is shown as 3, 5, 7: the ordering is
    [1, 2, 0]. *)
Lemma sorted_draft_ordering_witness :
  let env := draft_env fresh false false true 1 ([], []) ([], []) in
  let run := Draft._encode_state_draft env in
  run = Ok (outcome_value [] run) (outcome_env env run)
  /\ Draft.draft_ordering (outcome_env env run) ≡ₚ py_range 3
  /\ Draft.draft_ordering (outcome_env env run) = [1; 2; 0].
Proof.
  intros env run.
  assert (Hrun : Draft._encode_state_draft env
                 = Ok (outcome_value [] run) (outcome_env env run))
    by (vm_compute; reflexivity).
  destruct (sorted_draft_ordering env _ _ eq_refl ltac:(cbn; lia) ltac:(cbn; lia)
              eq_refl Hrun) as (Hperm & _).
  split; [exact Hrun |]. split; [exact Hperm | reflexivity].
Defined.

(** Two hands with the same cards in another order. *)
Lemma tabular_observation_canonical_witness :
  let other :=
    mkState (mkGame DRAFT 1 None
                    (mkPlayer FIRST [(5, 0); (7, 2); (3, 5)] ([], []))
                    (lone SECOND) 2) false in
  let env1 := DraftSingle.mkEnv
                (draft_env fresh false false false 1 ([], []) ([], [])) [] true in
  let env2 := DraftSingle.mkEnv
                (draft_env other false false false 1 ([], []) ([], [])) [] true in
  DraftSingleTabular._encode_state_draft env1 = Some [2; 4; 6]
  /\ DraftSingleTabular._encode_state_draft env2 = Some [2; 4; 6].
Proof.
  intros other env1 env2.
  pose proof (tabular_observation_canonical env1 env2) as H. cbv zeta in H.
  destruct H as (obs & Hobs & _ & Hcanon & _).
  - do 3 (apply Forall_cons_2; [by vm_compute |]). apply Forall_nil_2.
  - assert (Hval : obs = [2; 4; 6]).
    { vm_compute in Hobs. by injection Hobs as <-. }
    rewrite <- Hval. split; [exact Hobs |]. apply Hcanon.
    change ([(7, 2); (3, 5); (5, 0)] ≡ₚ [(5, 0); (7, 2); (3, 5)]).
    etrans; [apply perm_skip, perm_swap | apply perm_swap].
Defined.

(** History and sorting enabled, no mana curve: the history [9, 1] is
    written as 1, 9 into the first two slots. *)
Lemma draft_observation_card_slots_witness :
  let env := draft_env fresh true false true 1 ([(9, 2); (1, 2)], []) ([], []) in
  exists v env',
    Draft._encode_state_draft env = Ok v env'
    /\ v = DraftLayout.spec_layout env
    /\ take 16 v = encode_card (1, 2)
    /\ take 16 (drop 16 v) = encode_card (9, 2)
    /\ v !! 32%nat = Some 0%Q.
Proof.
  intros env.
  destruct (draft_observation_card_slots env)
    as (v & env' & Hrun & Hspec & Hhist & _).
  - intros c. reflexivity.
  - cbn. lia.
  - cbn. lia.
  - intros _. cbn. lia.
  - intros _. cbn. lia.
  - intros Hmana. discriminate Hmana.
  - destruct (Hhist eq_refl) as [Hslot Hzero].
    exists v, env'. split; [exact Hrun |]. split; [exact (Hspec eq_refl) |].
    split; [exact (Hslot 0%nat (1, 2) eq_refl) |].
    split; [exact (Hslot 1%nat (9, 2) eq_refl) |].
    apply Hzero. cbn. lia.
Defined.

(** The last pick of a draft with three evaluation battles. *)
Lemma draft_reward_in_range_witness :
  let env := draft_env last_pick false false false 3 ([], [])
                       ([Strike; Strike; Pass], [Strike]) in
  let run := Draft.step 5 (PyInt 0) env in
  let r := outcome_value no_draft_result run in
  run = Ok r (outcome_env env run)
  /\ done r = true
  /\ DraftRewards.in_reward_range (reward r)
  /\ DraftRewards.decided (Draft.results (outcome_env env run)).
Proof.
  intros env run r.
  destruct (draft_reward_in_range 5) as (Hstep & _).
  assert (Hrun : Draft.step 5 (PyInt 0) env = Ok r (outcome_env env run))
    by (vm_compute; reflexivity).
  assert (Hnone : DraftRewards.decided (Draft.results env)) by constructor.
  destruct (Hstep _ _ _ _ Hnone Hrun) as (Hdec & _ & _ & Hrange & _).
  split; [exact Hrun |]. split; [reflexivity |].
  split; [apply Hrange; cbn; lia | exact Hdec].
Defined.

(** The learner plays second and wins: [step] returns 1, the episode
    rewards go from [0] to [-1]. *)
Lemma episode_rewards_first_player_side_witness :
  let senv := BattleSingle.mkEnv (battle_env true (battle SECOND [])) [] false in
  let run := BattleSingle.step 5 (PyInt 1) senv in
  let r := outcome_value no_battle_result run in
  let env' := outcome_env senv run in
  run = Ok r env'
  /\ reward r = 1
  /\ sum_Z (Battle.rewards (BattleSingle.parent env')) = -1
  /\ length (Battle.rewards (BattleSingle.parent env')) = 1%nat.
Proof.
  intros senv run r env'.
  destruct (episode_rewards_first_player_side 5) as (_ & _ & Hs & _).
  assert (Hrun : BattleSingle.step 5 (PyInt 1) senv = Ok r env')
    by (vm_compute; reflexivity).
  pose proof (Hs _ _ _ _ Hrun) as H. cbv zeta in H.
  destruct H as (_ & Hlen & _ & Hsum).
  split; [exact Hrun |]. split; [reflexivity |].
  split; [exact Hsum | exact Hlen].
Defined.

(** The code 3 decodes to no action: the opponent, who would strike,
    is not asked. *)
Lemma null_move_keeps_the_turn_witness :
  let senv := BattleSingle.mkEnv (battle_env true (battle FIRST [])) [Strike] true in
  let run := Battle.step (PyInt 3) (BattleSingle.parent senv) in
  let r0 := outcome_value no_battle_result run in
  let p0 := outcome_env (BattleSingle.parent senv) run in
  BattleSingle.step 5 (PyInt 3) senv
  = Ok (mkStep (obs r0) (reward r0) (done r0) (info r0))
       (BattleSingle.set_parent p0 senv)
  /\ Battle.info_invalid (info r0) = true
  /\ winner (Battle.state p0) = None.
Proof.
  intros senv run r0 p0.
  destruct (null_move_keeps_the_turn 4) as (Hb & Hs & _).
  assert (Hrun : Battle.step (PyInt 3) (BattleSingle.parent senv) = Ok r0 p0)
    by (vm_compute; reflexivity).
  split; [exact (Hs (PyInt 3) senv r0 p0 eq_refl Hrun) |].
  destruct (Hb (PyInt 3) (BattleSingle.parent senv) r0 p0 eq_refl Hrun) as (_ & _ & Hinv).
  split; [exact Hinv | reflexivity].
Defined.



(** An action without an origin, and an ordering that points past the
    hand. *)
Lemma draft_step_fails_clean_witness :
  let env := draft_env fresh false false false 1 ([], []) ([], []) in
  let env5 := Draft.set_draft_ordering [5; 0; 1] env in
  Draft.step 3 (PyAction Pass) env = Raise TypeError env
  /\ Draft.step 3 (PyInt 0) env5 = Raise IndexError env5.
Proof.
  intros env env5.
  destruct (draft_step_fails_clean 3 env (PyAction Pass)) as (_ & _ & _ & Ho);
    [reflexivity |].
  destruct (draft_step_fails_clean 3 env5 (PyInt 0)) as (_ & Hhand & _);
    [reflexivity |].
  split; [exact (Ho Pass eq_refl eq_refl) |].
  exact (Hhand 5 IndexError eq_refl eq_refl).
Defined.

(** Two draft agents play the two picks of the small engine; without
    draft agents the loop does not end. *)
Lemma battle_reset_past_draft_witness :
  let env := Battle.mkEnv fresh [0] [[Pick 0]; [Pick 1]] false true 3 30 None in
  let stuck := Battle.mkEnv fresh [0] [] false true 3 30 None in
  let run := Battle.reset 3 env in
  run = Ok (outcome_value None run) (outcome_env env run)
  /\ phase (Battle.state (outcome_env env run)) <> DRAFT
  /\ Battle.rewards (outcome_env env run) = [0; 0]
  /\ Battle.reset 40 stuck = Diverge.
Proof.
  intros env stuck run.
  destruct (battle_reset_past_draft 3 env) as (Hok & _).
  destruct (battle_reset_past_draft 40 stuck) as (_ & Hstuck).
  assert (Hrun : Battle.reset 3 env = Ok (outcome_value None run) (outcome_env env run))
    by (vm_compute; reflexivity).
  destruct (Hok _ _ Hrun) as (Hphase & _ & Hrw & _).
  split; [exact Hrun |]. split; [exact Hphase |]. split; [exact Hrw |].
  exact (Hstuck eq_refl eq_refl).
Defined.

(** Two environments, two steps, one finished episode each: four
    entries for two episodes. *)
Lemma evaluation_counts_open_episodes_witness :
  let steps := [([1%Q; 0%Q], [true; false]); ([0%Q; (-1)%Q], [false; true])] in
  exists all,
    Experiment.all_rewards 2 steps = inr all
    /\ length all = 4%nat
    /\ (Experiment.sum_Q all == 0)%Q.
Proof.
  intros steps.
  destruct (evaluation_counts_open_episodes 2 steps) as (all & Hrun & Hlen & Hsum).
  - repeat constructor.
  - exists all. split; [exact Hrun |]. split; [exact Hlen | exact Hsum].
Defined.

(** Sorting enabled, the hand holds the ids 7, 3, 5: the observation
    shows 3, 5, 7 and after the code 0 the card with id 3, at hand
    position 1, is the one recorded; the engine got the action with
    origin 0. *)
Lemma shown_card_is_recorded_witness :
  let env0 := draft_env fresh false false true 3 ([], []) ([], []) in
  let start := Draft.reset env0 in
  let env := outcome_env env0 start in
  let run := Draft.step 5 (PyInt 0) env in
  let env' := outcome_env env run in
  start = Ok (outcome_value None start) env
  /\ Draft.draft_ordering env = [1; 2; 0]
  /\ run = Ok (outcome_value no_draft_result run) env'
  /\ fst (Draft.choices env') = [(3, 5)]
  /\ Draft.state env' = act (Draft.state env) (Pick 0).
Proof.
  intros env0 start env run env'.
  destruct (shown_card_is_recorded 5) as (Hreset & _ & Hpick).
  assert (Hstart : Draft.reset env0 = Ok (outcome_value None start) env)
    by (vm_compute; reflexivity).
  assert (Hrun : Draft.step 5 (PyInt 0) env = Ok (outcome_value no_draft_result run) env')
    by (vm_compute; reflexivity).
  assert (Hsync : Draft.draft_ordering env = DraftLayout.new_ordering env).
  { apply (Hreset env0 _ (default [] (outcome_value None start)) env Hstart).
    - reflexivity.
    - by vm_compute.
    - intros _. by vm_compute. }
  split; [exact Hstart |]. split; [rewrite Hsync; reflexivity |].
  split; [exact Hrun |].
  destruct (Hpick (PyInt 0) env (outcome_value no_draft_result run) env' (Pick 0) 0
              Hsync) as (idx & card & _ & _ & _ & Hshown & Hch & Hstate).
  - by vm_compute.
  - by vm_compute.
  - exact Hrun.
  - reflexivity.
  - reflexivity.
  - split; by vm_compute.
  - vm_compute in Hshown. injection Hshown as <-.
    split; [exact Hch |]. apply Hstate. left. reflexivity.
Defined.
